(** * Segmentation, batch execution and reconciliation of the field extractor

    A shallow embedding of the core of the extraction pipeline:
    [src/chunking/text_chunker.py], [src/processing/parallel_processor.py],
    [src/merging/result_merger.py], [src/utils/validators.py] and the retry
    loop of [src/api/dudoxx_client.py].

    Python integers are unbounded and are modelled by [Z]; text is modelled by
    [string] over the ASCII range; a dict keyed by field name is a
    [gmap string _]; a function that can raise returns a [pyresult]. *)

From Stdlib Require Import ZArith String Ascii List Lia Bool.
From stdpp Require Import base option gmap strings list sorting.

#[local] Set Warnings "-clear-no-such-hyp".

Local Open Scope string_scope.
Local Open Scope list_scope.
Local Open Scope Z_scope.

(** ** Python prelude *)

Module Py.

(** The exception classes the modelled code can meet.  All of them derive
    from [Exception]. *)
Inductive exn : Type :=
  | ValueError
  | TypeError
  | KeyError
  | AttributeError
  | BackendError.

Inductive pyresult (A : Type) : Type :=
  | Ok (a : A)
  | Raise (e : exn).
Arguments Ok {A} a.
Arguments Raise {A} e.

(** Sequencing: an exception raised by the first computation propagates. *)
Definition bind {A B} (m : pyresult A) (k : A -> pyresult B) : pyresult B :=
  match m with
  | Ok a => k a
  | Raise e => Raise e
  end.

(** [x or d] on an optional integer argument: [None] and [0] are falsy. *)
Definition or_int (x : option Z) (d : Z) : Z :=
  match x with
  | Some v => if v =? 0 then d else v
  | None => d
  end.

(** [x or d] on an optional string argument: [None] and [''] are falsy. *)
Definition or_str (x : option string) (d : string) : string :=
  match x with
  | Some EmptyString => d
  | Some v => v
  | None => d
  end.

(** [len(range(start, stop, step))] for a non-zero step. *)
Definition range_len (start stop step : Z) : Z :=
  if 0 <? step then
    (if start <? stop then (stop - start - 1) / step + 1 else 0)
  else
    (if stop <? start then (start - stop - 1) / (- step) + 1 else 0).

(** [range(start, stop, step)]: a zero step raises [ValueError]. *)
Definition range (start stop step : Z) : pyresult (list Z) :=
  if step =? 0 then Raise ValueError
  else Ok (List.map (fun k => start + Z.of_nat k * step)
                    (seq 0 (Z.to_nat (range_len start stop step)))).

(** Clamping of a slice bound: a negative bound counts from the end. *)
Definition slice_bound (len k : Z) : Z :=
  if k <? 0 then Z.max 0 (k + len) else Z.min k len.

(** [l[start:stop]] *)
Definition slice {A} (l : list A) (start stop : Z) : list A :=
  let len := Z.of_nat (length l) in
  let lo := slice_bound len start in
  let hi := slice_bound len stop in
  take (Z.to_nat (hi - lo)) (drop (Z.to_nat lo) l).

(** [c.isspace()] on the ASCII range. *)
Definition isspace (c : ascii) : bool :=
  let n := nat_of_ascii c in
  ((9 <=? n) && (n <=? 13) || (28 <=? n) && (n <=? 32))%nat.

Definition isdigit (c : ascii) : bool :=
  let n := nat_of_ascii c in ((48 <=? n) && (n <=? 57))%nat.

Definition isupper (c : ascii) : bool :=
  let n := nat_of_ascii c in ((65 <=? n) && (n <=? 90))%nat.

Definition lower_char (c : ascii) : ascii :=
  if isupper c then ascii_of_nat (nat_of_ascii c + 32) else c.

(** [s.lower()] *)
Fixpoint lower (s : string) : string :=
  match s with
  | EmptyString => EmptyString
  | String c s' => String (lower_char c) (lower s')
  end.

Definition is_empty (s : string) : bool :=
  match s with EmptyString => true | _ => false end.

Fixpoint split_aux (w : string) (s : string) : list string :=
  match s with
  | EmptyString => if is_empty w then [] else [w]
  | String c s' =>
      if isspace c then
        (if is_empty w then split_aux EmptyString s'
         else w :: split_aux EmptyString s')
      else split_aux (w +:+ String c EmptyString) s'
  end.

(** [s.split()]: the maximal runs of non-whitespace characters. *)
Definition split (s : string) : list string := split_aux EmptyString s.

(** [sep.join(l)] *)
Definition join (sep : string) (l : list string) : string := String.concat sep l.

Fixpoint filter_chars (p : ascii -> bool) (s : string) : string :=
  match s with
  | EmptyString => EmptyString
  | String c s' => if p c then String c (filter_chars p s') else filter_chars p s'
  end.

Fixpoint any_char (p : ascii -> bool) (s : string) : bool :=
  match s with
  | EmptyString => false
  | String c s' => p c || any_char p s'
  end.

(** [c in s] for a one-character needle. *)
Definition has_char (c : ascii) (s : string) : bool :=
  any_char (Ascii.eqb c) s.

(** [needle in s] *)
Fixpoint contains (needle s : string) : bool :=
  String.prefix needle s ||
  match s with
  | EmptyString => false
  | String _ s' => contains needle s'
  end.

(** [s.replace(old, new)] for a non-empty [old]: non-overlapping occurrences,
    left to right.  The recursion is on a bound [n] on the length of [s]. *)
Fixpoint replace_aux (n : nat) (old new s : string) : string :=
  match n with
  | O => s
  | S n' =>
      if String.prefix old s then
        new +:+ replace_aux n' old new
                 (String.substring (String.length old)
                    (String.length s - String.length old) s)
      else
        match s with
        | EmptyString => EmptyString
        | String c s' => String c (replace_aux n' old new s')
        end
  end.

Definition replace (old new s : string) : string :=
  replace_aux (S (String.length s)) old new s.

(** [s.lstrip()] *)
Fixpoint lstrip (s : string) : string :=
  match s with
  | EmptyString => EmptyString
  | String c s' => if isspace c then lstrip s' else s
  end.

(** [s.rstrip()] *)
Fixpoint rstrip (s : string) : string :=
  match s with
  | EmptyString => EmptyString
  | String c s' =>
      let r := rstrip s' in
      if is_empty r && isspace c then EmptyString else String c r
  end.

(** [s.strip()] *)
Definition strip (s : string) : string := rstrip (lstrip s).

(** [s.split(sep)] for a non-empty [sep], from a current piece [cur]; the
    recursion is on a bound [n] on the length of [s]. *)
Fixpoint split_sep_aux (n : nat) (sep cur s : string) : list string :=
  match n with
  | O => [cur +:+ s]
  | S n' =>
      if String.prefix sep s then
        cur :: split_sep_aux n' sep EmptyString
                 (String.substring (String.length sep)
                    (String.length s - String.length sep) s)
      else
        match s with
        | EmptyString => [cur]
        | String c s' => split_sep_aux n' sep (cur +:+ String c EmptyString) s'
        end
  end.

Definition split_sep (sep s : string) : list string :=
  split_sep_aux (S (String.length s)) sep EmptyString s.

End Py.

Import Py.

Notation "'let*' x := m 'in' k" := (Py.bind m (fun x => k))
  (at level 10, x name, m at level 100, k at level 200).

(** ** Configuration ([src/config/settings.py]) *)

Record Settings : Type := {
  CHUNK_SIZE : Z;
  CHUNK_OVERLAP : Z;
  MIN_CHUNK_SIZE : Z;
  MAX_THREADS : Z;
  BATCH_SIZE : Z;
  UNKNOWN_VALUE : string;
  DATE_FORMAT : string
}.

(** The values the settings module takes when the environment overrides
    nothing. *)
Definition default_settings : Settings := {|
  CHUNK_SIZE := 1000;
  CHUNK_OVERLAP := 100;
  MIN_CHUNK_SIZE := 200;
  MAX_THREADS := 5;
  BATCH_SIZE := 10;
  UNKNOWN_VALUE := "unknown";
  DATE_FORMAT := "dd/mm/YYYY"
|}.

(** ** Segmenter, word mode ([chunk_text]) *)

Module Chunker.

(** One iteration of the window loop: [chunks] is the list built so far and
    [i] the window start. *)
Definition window_step (words : list string) (chunk_size min_chunk_size : Z)
    (chunks : list string) (i : Z) : list string :=
  let chunk_words := Py.slice words i (i + chunk_size) in
  if (Z.of_nat (length chunk_words) <? min_chunk_size)
     && (i + chunk_size <? Z.of_nat (length words))
  then chunks
  else chunks ++ [Py.join " " chunk_words].

Definition chunk_text (settings : Settings) (text : string)
    (chunk_size chunk_overlap min_chunk_size : option Z)
  : pyresult (list string) :=
  let chunk_size := or_int chunk_size (CHUNK_SIZE settings) in
  let chunk_overlap := or_int chunk_overlap (CHUNK_OVERLAP settings) in
  let min_chunk_size := or_int min_chunk_size (MIN_CHUNK_SIZE settings) in
  let words := Py.split text in
  if Z.of_nat (length words) <=? chunk_size then Ok [text]
  else
    let* starts := Py.range 0 (Z.of_nat (length words)) (chunk_size - chunk_overlap) in
    Ok (fold_left (window_step words chunk_size min_chunk_size) starts []).

End Chunker.

(** ** Batch executor ([process_chunks_parallel]) *)

Module Executor.

(** What one call of the process function did. *)
Inductive outcome (V : Type) : Type :=
  | Returned (r : V)
  | Raised (e : exn).
Arguments Returned {V} r.
Arguments Raised {V} e.

Section Executor.
(** [V] is the type of the values the process function returns and
    [py_None] the value [None] among them. *)
Context {Chunk V : Type}.
Variable py_None : V.

(** [process_func p chunk idx] is what the call [process_func(chunk, idx)]
    submitted for the chunk at position [p] of the input did.  The position
    only identifies the call: a process function that talks to a backend may
    answer two equal calls differently. *)
Variable process_func : nat -> Chunk -> nat -> outcome V.

(** [as_completed i futures] is the order in which the futures of the batch
    starting at position [i] complete. *)
Variable as_completed : nat -> list (nat * outcome V) -> list (nat * outcome V).

(** The [try ... except Exception] around [future.result()]. *)
Definition recorded (o : outcome V) : V :=
  match o with
  | Returned r => r
  | Raised _ => py_None
  end.

Fixpoint insert_by_key (x : nat * V) (l : list (nat * V)) : list (nat * V) :=
  match l with
  | [] => [x]
  | y :: l' => if (x.1 <=? y.1)%nat then x :: y :: l' else y :: insert_by_key x l'
  end.

(** [l.sort(key=lambda x: x[0])]: a stable sort on the first component. *)
Definition sort_by_key (l : list (nat * V)) : list (nat * V) :=
  foldr insert_by_key [] l.

(** The body of the batch loop once the executor exists: submit every chunk
    of the batch with its index in the batch, collect the results in
    completion order, sort them by index and drop the indices. *)
Definition run_batch (i : nat) (batch : list Chunk) : list V :=
  let future_to_chunk :=
    imap (fun idx chunk => (idx, process_func (i + idx)%nat chunk idx)) batch in
  let batch_results :=
    fold_left (fun acc future => acc ++ [(future.1, recorded future.2)])
              (as_completed i future_to_chunk) [] in
  (sort_by_key batch_results).*2.

(** One iteration of the batch loop.  [ThreadPoolExecutor] raises
    [ValueError] when it is given a number of workers that is not
    positive. *)
Definition batch_step (chunks : list Chunk) (max_workers batch_size : Z)
    (results : list V) (i : Z) : pyresult (list V) :=
  let batch := Py.slice chunks i (i + batch_size) in
  if Z.min max_workers (Z.of_nat (length batch)) <=? 0 then Raise ValueError
  else Ok (results ++ run_batch (Z.to_nat i) batch).

Definition process_chunks_parallel (settings : Settings) (chunks : list Chunk)
    (max_workers batch_size : option Z) : pyresult (list V) :=
  let max_workers := or_int max_workers (MAX_THREADS settings) in
  let batch_size := or_int batch_size (BATCH_SIZE settings) in
  let* starts := Py.range 0 (Z.of_nat (length chunks)) batch_size in
  fold_left (fun acc i => let* results := acc in batch_step chunks max_workers batch_size results i)
            starts (Ok []).

End Executor.

End Executor.

(** ** Reconciler and deduplicator ([src/merging/result_merger.py]) *)

Module Merger.

(** A value of a segment's field map, as the data model has it: a scalar
    string or a sequence of strings.  A chunk result is a dict of such values
    or [None].  The chunk results are decoded one by one from the answers of
    the backend, so that no two of them share a list; this is why the
    [extend] and [append] that the merge loop does in place are modelled by
    new values.  The code does not check that a chunk holds such values; the
    module [JsonMerger] follows it on the values of any JSON type, and agrees
    with this one on the values of the data model (lemma
    [merge_results_agrees]). *)
Inductive FieldValue : Type :=
  | Scalar (s : string)
  | Items (l : list string).

#[global] Instance FieldValue_eq_dec : EqDecision FieldValue.
Proof. solve_decision. Defined.

(** A value decoded from JSON: what the dedup backend answers and what the
    merged record holds.  An object is the list of its members in order, a
    key occurring once in it; a number is an integer (numbers with a
    fraction are left out). *)
#[warnings="-register-all"]
Inductive json : Type :=
  | JNull
  | JBool (b : bool)
  | JNum (n : Z)
  | JStr (s : string)
  | JArr (l : list json)
  | JObj (members : list (string * json)).

Definition to_json (v : FieldValue) : json :=
  match v with
  | Scalar s => JStr s
  | Items l => JArr (JStr <$> l)
  end.

(** *** Operations of Python on decoded JSON values *)

(** [bool(x)] *)
Definition truthy (x : json) : bool :=
  match x with
  | JNull => false
  | JBool b => b
  | JNum n => negb (n =? 0)
  | JStr s => negb (Py.is_empty s)
  | JArr l => match l with [] => false | _ => true end
  | JObj members => match members with [] => false | _ => true end
  end.

Definition is_str (x : json) : bool := match x with JStr _ => true | _ => false end.
Definition is_dict (x : json) : bool := match x with JObj _ => true | _ => false end.

Fixpoint member (key : string) (members : list (string * json)) : option json :=
  match members with
  | [] => None
  | (k, v) :: rest => if String.eqb key k then Some v else member key rest
  end.

(** [key in x] for a string [key]: key membership in a dict, element
    membership in a list, substring test in a string, [TypeError] on the
    values that are not containers. *)
Definition py_in (key : string) (x : json) : pyresult bool :=
  match x with
  | JObj members => Ok (bool_decide (is_Some (member key members)))
  | JArr l => Ok (existsb (fun e => match e with JStr s => String.eqb key s | _ => false end) l)
  | JStr s => Ok (Py.contains key s)
  | _ => Raise TypeError
  end.

(** [x[key]] for a string [key]. *)
Definition py_getitem (x : json) (key : string) : pyresult json :=
  match x with
  | JObj members =>
      match member key members with
      | Some v => Ok v
      | None => Raise KeyError
      end
  | _ => Raise TypeError
  end.

(** [x.lower()] *)
Definition py_lower (x : json) : pyresult string :=
  match x with
  | JStr s => Ok (Py.lower s)
  | _ => Raise AttributeError
  end.

(** *** Field-name heuristics and the scalar conflict chain *)

Definition list_indicators : list string :=
  ["history"; "histories"; "list"; "lists"; "items"; "entries";
   "events"; "experiences"; "education"; "work"; "jobs"; "skills";
   "qualifications"; "certifications"; "publications"; "awards";
   "achievements"; "projects"; "responsibilities"; "duties";
   "medications"; "conditions"; "symptoms"; "diagnoses"; "treatments";
   "procedures"; "allergies"; "immunizations"; "vaccinations";
   "addresses"; "phones"; "emails"; "contacts"; "references";
   "hobbies"; "interests"; "languages"; "memberships"; "affiliations"].

Definition _is_list_field (field : string) : bool :=
  existsb (fun indicator => Py.contains indicator (Py.lower field)) list_indicators.

(** [s.split(c)[-1]]: what follows the last occurrence of [c]. *)
Fixpoint last_segment (c : ascii) (s : string) : string :=
  if Py.has_char c s then
    match s with
    | EmptyString => EmptyString
    | String _ s' => last_segment c s'
    end
  else s.

Definition first_isupper (word : string) : bool :=
  match word with
  | EmptyString => false
  | String c _ => Py.isupper c
  end.

(** [_normalize_field] on a value that is a string. *)
Definition _normalize_field (value_str field : string) : string :=
  if Py.contains "phone" (Py.lower field) then
    Py.filter_chars Py.isdigit value_str
  else if Py.contains "email" (Py.lower field) then
    Py.lower value_str
  else if Py.contains "address" (Py.lower field) then
    let normalized := Py.lower value_str in
    let normalized := Py.join " " (Py.split normalized) in
    let normalized := Py.replace "." " " (Py.replace "," " " normalized) in
    Py.join " " (Py.split normalized)
  else if Py.contains "name" (Py.lower field) then
    Py.join " " (Py.split (Py.lower value_str))
  else
    Py.join " " (Py.split (Py.lower value_str)).

Definition b2z (b : bool) (points : Z) : Z := if b then points else 0.

(** [_format_quality_score] on a value that is a string. *)
Definition _format_quality_score (value_str field : string) : Z :=
  let typed :=
    if Py.contains "phone" (Py.lower field) then
      b2z (Py.has_char "(" value_str && Py.has_char ")" value_str) 1
      + b2z (Py.has_char "-" value_str) 1
    else if Py.contains "email" (Py.lower field) then
      b2z (Py.has_char "@" value_str && Py.has_char "." (last_segment "@" value_str)) 2
    else if Py.contains "address" (Py.lower field) then
      b2z (Py.has_char "," value_str) 1 + b2z (Py.any_char Py.isupper value_str) 1
    else if Py.contains "name" (Py.lower field) then
      b2z (forallb first_isupper (Py.split value_str)) 2
    else 0 in
  typed
  + b2z (Py.any_char Py.isupper value_str) 1
  + b2z (Py.any_char (fun c => Py.has_char c value_str) ",.;:") 1.

(** The chain applied to two different scalar values of a field that is not
    list-valued; the result is the value kept. *)
Definition resolve_conflict (field merged_value value : string) : string :=
  if (String.length merged_value <? String.length value)%nat then value
  else if Py.contains value merged_value then merged_value
  else if Py.contains merged_value value then value
  else if String.eqb (_normalize_field value field) (_normalize_field merged_value field) then
    (if _format_quality_score merged_value field <? _format_quality_score value field
     then value else merged_value)
  else merged_value.

(** *** The merge loop *)

(** The two accumulators of [merge_results]: the dict [merged] and the keys of
    the dict [list_fields] in insertion order. *)
Record acc : Type := {
  merged : gmap string FieldValue;
  list_fields : list string
}.

(** [list_fields[field] = True] *)
Definition mark (field : string) (fields : list string) : list string :=
  if bool_decide (field ∈ fields) then fields else fields ++ [field].

Definition as_list (v : FieldValue) : list string :=
  match v with
  | Scalar s => [s]
  | Items l => l
  end.

(** The body of the loop over [fields] for one chunk result.  [merged] holds
    every requested field from its initialisation on, so that the lookup
    [merged[field]] finds a value (lemma [merge_loop_dom]).  The test
    [isinstance(value, list) or isinstance(merged[field], list)] fails
    exactly when both values are strings, which is the first case of the
    inner [match]. *)
Definition merge_field (unknown_value : string) (result : gmap string FieldValue)
    (a : acc) (field : string) : acc :=
  match result !! field, merged a !! field with
  | Some value, Some current =>
      if bool_decide (value = Scalar unknown_value) then a
      else if bool_decide (current = Scalar unknown_value) then
        {| merged := <[field := value]> (merged a); list_fields := list_fields a |}
      else if bool_decide (current = value) then a
      else
        match current, value with
        | Scalar current_str, Scalar value_str =>
            if bool_decide (field ∈ list_fields a) || _is_list_field field then
              let items := [current_str] in
              let items :=
                if bool_decide (value_str ∈ items) then items else items ++ [value_str] in
              {| merged := <[field := Items items]> (merged a);
                 list_fields := mark field (list_fields a) |}
            else
              {| merged := <[field := Scalar (resolve_conflict field current_str value_str)]>
                             (merged a);
                 list_fields := list_fields a |}
        | _, _ =>
            {| merged := <[field := Items (as_list current ++ as_list value)]> (merged a);
               list_fields := mark field (list_fields a) |}
        end
  | _, _ => a
  end.

(** [not result]: the result is [None] or the empty dict. *)
Definition falsy (result : option (gmap string FieldValue)) : bool :=
  match result with
  | None => true
  | Some r => bool_decide (r = ∅)
  end.

(** The body of the loop over the chunk results. *)
Definition merge_result (unknown_value : string) (fields : list string)
    (a : acc) (result : option (gmap string FieldValue)) : acc :=
  match result with
  | None => a
  | Some r =>
      if falsy result then a
      else if bool_decide (is_Some (r !! "error")) then a
      else fold_left (merge_field unknown_value r) fields a
  end.

Definition initial (unknown_value : string) (fields : list string) : acc :=
  {| merged := list_to_map ((fun field => (field, Scalar unknown_value)) <$> fields);
     list_fields := [] |}.

Definition merge_loop (unknown_value : string) (fields : list string)
    (chunk_results : list (option (gmap string FieldValue))) : acc :=
  fold_left (merge_result unknown_value fields) chunk_results
    (initial unknown_value fields).

(** *** Deduplication *)

(** What the call of the dedup backend did. *)
Inductive backend_outcome : Type :=
  | Responded (response : json)
  | Failed (e : exn).

(** The loop building [unique_items]. *)
Definition unique (items : list string) : list string :=
  fold_left (fun unique_items item =>
               if bool_decide (item ∈ unique_items) then unique_items
               else unique_items ++ [item])
            items [].

(** [[x for x in items if not (x in seen or seen.add(x))]] *)
Definition fallback (items : list string) : list string :=
  (fold_left (fun (st : list string * gset string) x =>
                let '(kept, seen) := st in
                if bool_decide (x ∈ seen) then (kept, seen)
                else (kept ++ [x], {[x]} ∪ seen))
             items ([], ∅)).1.

Definition condition_fields : list string :=
  ["medical_condition"; "condition"; "diagnosis"; "procedure"; "treatment"; "event"].

Definition date_fields : list string :=
  ["date"; "date_diagnosed"; "date_started"; "date_performed"; "year";
   "date_of_diagnosis"; "start_date"; "date_of_procedure"; "when";
   "date_procedure"; "date_surgery"; "date_event"; "date_treatment";
   "diagnosed_on"; "performed_on"; "started_on"; "occurred_on"].

(** [for key in keys: if key in item and item[key] and extra(item[key]):
    found = item[key]; break], started with [found = ""]. *)
Fixpoint first_present (extra : json -> pyresult bool) (keys : list string) (item : json)
  : pyresult json :=
  match keys with
  | [] => Ok (JStr "")
  | key :: keys' =>
      let* present := py_in key item in
      if present then
        let* v := py_getitem item key in
        if truthy v then
          let* ok := extra v in
          if ok then Ok v else first_present extra keys' item
        else first_present extra keys' item
      else first_present extra keys' item
  end.

Definition not_unknown (v : json) : pyresult bool :=
  let* s := py_lower v in Ok (negb (String.eqb s "unknown")).

Section Dedup.
(** [W] is the state of the world the backend lives in; [backend w field items]
    is what the call made for [field] and [items] does in the world [w], and
    the world it leaves.  [repr x] is the text Python's [str] gives for a
    value [x] that is not a string. *)
Context {W : Type}.
Variable backend : W -> string -> list string -> backend_outcome * W.
Variable repr : json -> string.

(** [str(x)] *)
Definition py_str (x : json) : string :=
  match x with
  | JStr s => s
  | _ => repr x
  end.

Definition format_item (condition date : json) : json :=
  JStr (py_str condition +:+ " (" +:+ py_str date +:+ ")").

(** One item of the array found under [deduplicated_items] in the first
    element of a list response. *)
Definition convert_nested_item (field_name : string) (item : json) : pyresult json :=
  if String.eqb field_name "medical_history" then
    let* condition := first_present (fun _ => Ok true) condition_fields item in
    let* date := first_present not_unknown date_fields item in
    if truthy condition && truthy date then Ok (format_item condition date)
    else Ok condition
  else Ok (JStr (py_str item)).

(** One item of a response that is a list of dicts. *)
Definition convert_structured_item (field_name : string) (item : json) : pyresult json :=
  if String.eqb field_name "medical_history" then
    let* condition := first_present (fun _ => Ok true) condition_fields item in
    let* date := first_present (fun _ => Ok true) date_fields item in
    if truthy condition && truthy date then
      let* known := not_unknown date in
      if known then Ok (format_item condition date) else Ok condition
    else Ok condition
  else Ok (JStr (py_str item)).

(** [deduplicated_items = []; for item in l: deduplicated_items.append(...)] *)
Fixpoint convert_all (convert : json -> pyresult json) (l : list json) : pyresult (list json) :=
  match l with
  | [] => Ok []
  | item :: l' =>
      let* x := convert item in
      let* xs := convert_all convert l' in
      Ok (x :: xs)
  end.

(** The tail of the [else] branch: a list of strings is returned as it is,
    anything else falls back to the exact deduplication. *)
Definition strings_or_fallback (items : list string) (response : json) : list json :=
  match response with
  | JArr l => if forallb is_str l then l else JStr <$> fallback items
  | _ => JStr <$> fallback items
  end.

(** The body of the [try] block once the backend has answered. *)
Definition parse_response (field_name : string) (items : list string) (response : json)
  : pyresult (list json) :=
  let* has_key := py_in "deduplicated_items" response in
  if has_key then
    let* deduplicated_items := py_getitem response "deduplicated_items" in
    match deduplicated_items with
    | JArr l => Ok l
    | _ => Ok (JStr <$> fallback items)
    end
  else
    match response with
    | JArr l =>
        match l with
        | JObj members :: _ =>
            match member "deduplicated_items" members with
            | Some nested_items =>
                match nested_items with
                | JArr nested => convert_all (convert_nested_item field_name) nested
                | _ => Ok (strings_or_fallback items response)
                end
            | None =>
                if forallb is_dict l then convert_all (convert_structured_item field_name) l
                else Ok (strings_or_fallback items response)
            end
        | _ =>
            if forallb is_dict l then convert_all (convert_structured_item field_name) l
            else Ok (strings_or_fallback items response)
        end
    | _ => Ok (strings_or_fallback items response)
    end.

Definition deduplicate_with_llm (items : list string) (field_name : string) (w : W)
  : list json * W :=
  match items with
  | [] => ([], w)
  | [_] => (JStr <$> items, w)
  | _ =>
      let unique_items := unique items in
      if (length unique_items =? 1)%nat then (JStr <$> unique_items, w)
      else
        let '(answer, w') := backend w field_name items in
        match answer with
        | Failed _ => (JStr <$> fallback items, w')
        | Responded response =>
            match parse_response field_name items response with
            | Ok deduplicated_items => (deduplicated_items, w')
            | Raise _ => (JStr <$> fallback items, w')
            end
        end
  end.

(** The loop over [list_fields] that ends [merge_results].  A key of
    [list_fields] is visited once, so the list handed to the deduplication is
    the one the merge loop left under that key. *)
Definition post_process (a : acc) (w : W) : gmap string json * W :=
  fold_left (fun (st : gmap string json * W) field =>
               let '(out, w) := st in
               match merged a !! field with
               | Some (Items items) =>
                   let '(deduplicated, w') := deduplicate_with_llm items field w in
                   (<[field := JArr deduplicated]> out, w')
               | _ => (out, w)
               end)
            (list_fields a) (to_json <$> merged a, w).

Definition merge_results (settings : Settings)
    (chunk_results : list (option (gmap string FieldValue)))
    (fields : list string) (unknown_value : option string) (w : W)
  : gmap string json * W :=
  let unknown_value := or_str unknown_value (UNKNOWN_VALUE settings) in
  post_process (merge_loop unknown_value fields chunk_results) w.

End Dedup.

End Merger.

(** ** Normalizer ([src/utils/validators.py]) *)

Module Validators.
Import Merger.

Definition validate_fields (settings : Settings) (data : gmap string json)
    (fields : list string) (unknown_value : option string) : gmap string json :=
  let unknown_value := or_str unknown_value (UNKNOWN_VALUE settings) in
  fold_left (fun validated field =>
               match data !! field with
               | Some v => <[field := v]> validated
               | None => <[field := JStr unknown_value]> validated
               end)
            fields ∅.

(** *** Date normalisation ([normalize_date]) *)

(** [datetime.strptime] and [strftime] belong to Python's library.  They are
    modelled here for the English month names, for ASCII text, and for the
    directives the candidate formats use: [%d], [%m], [%Y], [%B] and [%b]. *)

Module Dates.

(** The date a [datetime] carries; [strptime] leaves its time at midnight. *)
Record date : Type := {
  year : Z;
  month : Z;
  day : Z
}.

Inductive directive : Type := Dd | Dm | DY | DB | Db.

(** A piece of the regular expression [strptime] compiles a format into: a
    directive, a run of whitespace (it becomes [\s+]), or a literal
    character. *)
Inductive item : Type :=
  | Directive (d : directive)
  | Spaces
  | Literal (c : ascii).

(** The compilation of a format; [in_space] tells that the previous character
    was whitespace.  A directive outside the modelled ones, or a [%] that
    ends the format, gives [None]. *)
Fixpoint compile_aux (in_space : bool) (fmt : string) : option (list item) :=
  match fmt with
  | EmptyString => Some []
  | String c rest =>
      if Ascii.eqb c "%" then
        match rest with
        | String k rest' =>
            let d :=
              if Ascii.eqb k "d" then Some Dd
              else if Ascii.eqb k "m" then Some Dm
              else if Ascii.eqb k "Y" then Some DY
              else if Ascii.eqb k "B" then Some DB
              else if Ascii.eqb k "b" then Some Db
              else None in
            match d, compile_aux false rest' with
            | Some d, Some items => Some (Directive d :: items)
            | _, _ => None
            end
        | EmptyString => None
        end
      else if Py.isspace c then
        match compile_aux true rest with
        | Some items => Some (if in_space then items else Spaces :: items)
        | None => None
        end
      else
        match compile_aux false rest with
        | Some items => Some (Literal c :: items)
        | None => None
        end
  end.

Definition compile (fmt : string) : option (list item) := compile_aux false fmt.

Definition digit_value (c : ascii) : Z :=
  if Py.isdigit c then Z.of_nat (nat_of_ascii c - 48) else 0.

Definition between (lo hi : ascii) (c : ascii) : bool :=
  ((nat_of_ascii lo <=? nat_of_ascii c) && (nat_of_ascii c <=? nat_of_ascii hi))%nat.

(** An alternative made of one character class. *)
Definition one (p : ascii -> bool) (data : string) : option (Z * string) :=
  match data with
  | String c rest => if p c then Some (digit_value c, rest) else None
  | _ => None
  end.

(** An alternative made of two character classes. *)
Definition two (p1 p2 : ascii -> bool) (data : string) : option (Z * string) :=
  match data with
  | String c1 (String c2 rest) =>
      if p1 c1 && p2 c2 then Some (10 * digit_value c1 + digit_value c2, rest) else None
  | _ => None
  end.

(** [\d\d\d\d] *)
Definition four_digits (data : string) : option (Z * string) :=
  match data with
  | String c1 (String c2 (String c3 (String c4 rest))) =>
      if Py.isdigit c1 && Py.isdigit c2 && Py.isdigit c3 && Py.isdigit c4 then
        Some (1000 * digit_value c1 + 100 * digit_value c2
              + 10 * digit_value c3 + digit_value c4, rest)
      else None
  | _ => None
  end.

(** [name] at the head of [data], letter case ignored. *)
Fixpoint strip_prefix_ci (name data : string) : option string :=
  match name, data with
  | EmptyString, _ => Some data
  | String a name', String b data' =>
      if Ascii.eqb (Py.lower_char a) (Py.lower_char b) then strip_prefix_ci name' data'
      else None
  | _, EmptyString => None
  end.

(** The full month names with their numbers, longest first, as [strptime]
    orders the alternatives of [%B]. *)
Definition full_months : list (string * Z) :=
  [("september", 9); ("february", 2); ("november", 11); ("december", 12);
   ("january", 1); ("october", 10); ("august", 8); ("march", 3); ("april", 4);
   ("june", 6); ("july", 7); ("may", 5)].

Definition short_months : list (string * Z) :=
  [("jan", 1); ("feb", 2); ("mar", 3); ("apr", 4); ("may", 5); ("jun", 6);
   ("jul", 7); ("aug", 8); ("sep", 9); ("oct", 10); ("nov", 11); ("dec", 12)].

Definition month_name (names : list (string * Z)) (data : string) : list (Z * string) :=
  omap (fun '(name, number) =>
          match strip_prefix_ci name data with
          | Some rest => Some (number, rest)
          | None => None
          end) names.

(** The ways a directive matches at the head of [data], in the order the
    regular expression tries them. *)
Definition directive_matches (d : directive) (data : string) : list (Z * string) :=
  match d with
  | Dd =>
      omap (fun alternative => alternative data)
        [two (Ascii.eqb "3") (between "0" "1");
         two (between "1" "2") Py.isdigit;
         two (Ascii.eqb "0") (between "1" "9");
         one (between "1" "9");
         two (Ascii.eqb " ") (between "1" "9")]
  | Dm =>
      omap (fun alternative => alternative data)
        [two (Ascii.eqb "1") (between "0" "2");
         two (Ascii.eqb "0") (between "1" "9");
         one (between "1" "9")]
  | DY => omap (fun alternative => alternative data) [four_digits]
  | DB => month_name full_months data
  | Db => month_name short_months data
  end.

(** The ways [\s+] matches at the head of [data]: the whole run of
    whitespace first, then shorter and shorter ones. *)
Fixpoint spaces_matches (data : string) : list string :=
  match data with
  | String c rest => if Py.isspace c then spaces_matches rest ++ [rest] else []
  | EmptyString => []
  end.

(** The groups found so far. *)
Record groups : Type := {
  g_day : option Z;
  g_month : option Z;
  g_year : option Z
}.

Definition no_groups : groups := {| g_day := None; g_month := None; g_year := None |}.

Definition set_group (d : directive) (v : Z) (g : groups) : groups :=
  match d with
  | Dd => {| g_day := Some v; g_month := g_month g; g_year := g_year g |}
  | Dm | DB | Db => {| g_day := g_day g; g_month := Some v; g_year := g_year g |}
  | DY => {| g_day := g_day g; g_month := g_month g; g_year := Some v |}
  end.

Definition item_matches (it : item) (data : string) (g : groups) : list (groups * string) :=
  match it with
  | Directive d => (fun '(v, rest) => (set_group d v g, rest)) <$> directive_matches d data
  | Spaces => (fun rest => (g, rest)) <$> spaces_matches data
  | Literal c =>
      match data with
      | String c' rest =>
          if Ascii.eqb (Py.lower_char c) (Py.lower_char c') then [(g, rest)] else []
      | EmptyString => []
      end
  end.

(** All the matches of the compiled format at the head of [data], with what
    each leaves unread, in the order a backtracking matcher finds them. *)
Fixpoint matches (items : list item) (data : string) (g : groups) : list (groups * string) :=
  match items with
  | [] => [(g, data)]
  | it :: items' =>
      flat_map (fun '(g', rest) => matches items' rest g') (item_matches it data g)
  end.

Definition is_leap (y : Z) : bool :=
  ((y mod 4 =? 0) && negb (y mod 100 =? 0)) || (y mod 400 =? 0).

Definition days_in_month (y m : Z) : Z :=
  if m =? 2 then (if is_leap y then 29 else 28)
  else if (m =? 4) || (m =? 6) || (m =? 9) || (m =? 11) then 30
  else 31.

(** [datetime.strptime(date_str, fmt)].  The first match of the compiled
    format is taken; text left unread, or a date that does not exist, raises
    [ValueError]. *)
Definition strptime (date_str fmt : string) : pyresult date :=
  match compile fmt with
  | None => Raise ValueError
  | Some items =>
      match matches items date_str no_groups with
      | [] => Raise ValueError
      | (g, rest) :: _ =>
          if negb (Py.is_empty rest) then Raise ValueError
          else
            let y := default 1900 (g_year g) in
            let m := default 1 (g_month g) in
            let d := default 1 (g_day g) in
            if (1 <=? y) && (y <=? 9999) && (1 <=? m) && (m <=? 12)
               && (1 <=? d) && (d <=? days_in_month y m)
            then Ok {| year := y; month := m; day := d |}
            else Raise ValueError
      end
  end.

Definition digit_char (n : Z) : ascii := ascii_of_nat (48 + Z.to_nat (n mod 10)).

Definition pad2 (n : Z) : string :=
  String (digit_char (n / 10)) (String (digit_char n) EmptyString).

Definition pad4 (n : Z) : string :=
  String (digit_char (n / 1000)) (String (digit_char (n / 100)) (pad2 n)).

(** [d.strftime(fmt)].  [%d], [%m], [%%] and, from the year 1000 on, [%Y]
    are expanded as Python documents them; [platform d rest] is what the C
    library makes of [rest], and stands for a year below 1000 (padded or not,
    depending on the library) and for the rest of the format from the first
    conversion that is not one of these. *)
Fixpoint strftime (platform : date -> string -> string) (d : date) (fmt : string) : string :=
  match fmt with
  | EmptyString => EmptyString
  | String c rest =>
      if Ascii.eqb c "%" then
        match rest with
        | String k rest' =>
            if Ascii.eqb k "d" then pad2 (day d) +:+ strftime platform d rest'
            else if Ascii.eqb k "m" then pad2 (month d) +:+ strftime platform d rest'
            else if Ascii.eqb k "Y" then
              (if 1000 <=? year d then pad4 (year d) else platform d "%Y")
              +:+ strftime platform d rest'
            else if Ascii.eqb k "%" then String "%" (strftime platform d rest')
            else platform d fmt
        | EmptyString => platform d fmt
        end
      else String c (strftime platform d rest)
  end.

Definition formats : list string :=
  ["%d/%m/%Y"; "%m/%d/%Y"; "%Y-%m-%d";
   "%d-%m-%Y"; "%m-%d-%Y";
   "%d.%m.%Y"; "%m.%d.%Y";
   "%B %d, %Y"; "%d %B %Y";
   "%b %d, %Y"; "%d %b %Y";
   "%d %b, %Y"; "%b %d %Y"].

(** [for fmt in formats: try: parsed_date = strptime(...); break;
    except ValueError: continue], started with [parsed_date = None]. *)
Fixpoint first_parsed (date_str : string) (fmts : list string) : pyresult (option date) :=
  match fmts with
  | [] => Ok None
  | fmt :: fmts' =>
      match strptime date_str fmt with
      | Ok parsed_date => Ok (Some parsed_date)
      | Raise ValueError => first_parsed date_str fmts'
      | Raise e => Raise e
      end
  end.

Definition py_format_of (date_format : string) : string :=
  Py.replace "YYYY" "%Y" (Py.replace "mm" "%m" (Py.replace "dd" "%d" date_format)).

(** [normalize_date] on a string.  The block that searches [date_str] with
    regular expressions when no format parsed assigns nothing ([pass]), and
    is left out. *)
Definition normalize_date (settings : Settings) (platform : date -> string -> string)
    (date_str : string) (date_format : option string) : pyresult string :=
  let date_format := or_str date_format (DATE_FORMAT settings) in
  let py_format := py_format_of date_format in
  let* parsed_date := first_parsed date_str formats in
  match parsed_date with
  | Some d => Ok (strftime platform d py_format)
  | None => Ok date_str
  end.

End Dates.

End Validators.

(** ** Segmenter, paragraph mode ([chunk_text_by_paragraphs]) *)

Module ParagraphChunker.

(** The separator of paragraphs: two line feeds. *)
Definition blank_line : string := String "010" (String "010" EmptyString).

(** [[p.strip() for p in text.split('\n\n') if p.strip()]] *)
Definition paragraphs_of (text : string) : list string :=
  omap (fun p => if Py.is_empty (Py.strip p) then None else Some (Py.strip p))
       (Py.split_sep blank_line text).

(** [len(p.split())] *)
Definition word_count (p : string) : Z := Z.of_nat (length (Py.split p)).

(** [sum(len(p.split()) for p in l)] *)
Definition size_of (l : list string) : Z := foldr (fun p s => word_count p + s) 0 l.

(** The variables of the loop over the paragraphs. *)
Record state : Type := {
  chunks : list string;
  current_chunk : list string;
  current_size : Z;
  overlap_paragraphs : list string
}.

(** [while overlap_size > chunk_overlap and len(overlap_paragraphs) > 1:
    removed = overlap_paragraphs.pop(0); overlap_size -= len(removed.split())] *)
Fixpoint trim_overlap (chunk_overlap : Z) (overlap_paragraphs : list string)
    (overlap_size : Z) : list string :=
  match overlap_paragraphs with
  | removed :: ((_ :: _) as rest) =>
      if chunk_overlap <? overlap_size
      then trim_overlap chunk_overlap rest (overlap_size - word_count removed)
      else overlap_paragraphs
  | _ => overlap_paragraphs
  end.

(** The closing of the current chunk, when the paragraph does not fit. *)
Definition close_chunk (st : state) : state :=
  {| chunks := chunks st ++ [Py.join " " (current_chunk st)];
     current_chunk := overlap_paragraphs st;
     current_size := size_of (overlap_paragraphs st);
     overlap_paragraphs := [] |}.

(** The body of the loop over the paragraphs. *)
Definition paragraph_step (max_chunk_size chunk_overlap min_chunk_size : Z)
    (st : state) (paragraph : string) : state :=
  let paragraph_size := word_count paragraph in
  let st :=
    if (max_chunk_size <? current_size st + paragraph_size)
       && (min_chunk_size <=? current_size st)
    then close_chunk st else st in
  let overlap := overlap_paragraphs st ++ [paragraph] in
  {| chunks := chunks st;
     current_chunk := current_chunk st ++ [paragraph];
     current_size := current_size st + paragraph_size;
     overlap_paragraphs := trim_overlap chunk_overlap overlap (size_of overlap) |}.

Definition start : state :=
  {| chunks := []; current_chunk := []; current_size := 0; overlap_paragraphs := [] |}.

Definition chunk_text_by_paragraphs (settings : Settings) (text : string)
    (max_chunk_size chunk_overlap min_chunk_size : option Z) : list string :=
  let max_chunk_size := or_int max_chunk_size (CHUNK_SIZE settings) in
  let chunk_overlap := or_int chunk_overlap (CHUNK_OVERLAP settings) in
  let min_chunk_size := or_int min_chunk_size (MIN_CHUNK_SIZE settings) in
  let paragraphs := paragraphs_of text in
  match paragraphs with
  | [] => []
  | _ =>
      let st := fold_left (paragraph_step max_chunk_size chunk_overlap min_chunk_size)
                  paragraphs start in
      match current_chunk st with
      | [] => chunks st
      | _ => chunks st ++ [Py.join " " (current_chunk st)]
      end
  end.

End ParagraphChunker.

(** ** Merging of date fields ([merge_date_fields]) *)

Module DateMerge.
Import Merger.

(** [_date_completeness_score]: the number of parts between the separators,
    plus one for every part made of four digits. *)
Definition _date_completeness_score (date_str : string) : Z :=
  let parts := Py.split_sep "-" (Py.replace "." "-" (Py.replace "/" "-" date_str)) in
  Z.of_nat (length parts)
  + Z.of_nat (length (List.filter
                        (fun part => (String.length part =? 4)%nat
                                     && negb (Py.any_char (fun c => negb (Py.isdigit c)) part))
                        parts)).

(** [_date_format_score] *)
Definition _date_format_score (date_str : string) : Z :=
  b2z (Py.has_char "/" date_str) 1
  + b2z (String.length date_str =? String.length "dd/mm/YYYY")%nat 1.

(** [_normalize_date] (of the merger): the date string as it is. *)
Definition _normalize_date (date_str : FieldValue) : FieldValue := date_str.

(** A score of a value of a chunk: a list has neither [replace] nor a
    substring test with a score, hence [AttributeError] for the completeness
    of a list. *)
Definition completeness (v : FieldValue) : pyresult Z :=
  match v with
  | Scalar s => Ok (_date_completeness_score s)
  | Items _ => Raise AttributeError
  end.

(** [_date_format_score] on a value of a chunk: on a list, ['/' in date_str]
    is an element test and [len] the number of elements. *)
Definition format_score (v : FieldValue) : Z :=
  match v with
  | Scalar s => _date_format_score s
  | Items l =>
      b2z (bool_decide ("/" ∈ l)) 1
      + b2z (length l =? String.length "dd/mm/YYYY")%nat 1
  end.

(** The body of the loop over [date_fields] for one chunk result. *)
Definition merge_date_field (unknown_value : string) (result : gmap string FieldValue)
    (merged : gmap string FieldValue) (field : string)
  : pyresult (gmap string FieldValue) :=
  match result !! field, merged !! field with
  | Some value, Some current =>
      if bool_decide (value = Scalar unknown_value) then Ok merged
      else if bool_decide (current = Scalar unknown_value) then
        Ok (<[field := _normalize_date value]> merged)
      else if bool_decide (current = value) then Ok merged
      else
        let normalized_value := _normalize_date value in
        let normalized_merged := _normalize_date current in
        if bool_decide (normalized_value = normalized_merged) then
          (if format_score current <? format_score value
           then Ok (<[field := value]> merged) else Ok merged)
        else
          let* score_value := completeness value in
          let* score_merged := completeness current in
          if score_merged <? score_value
          then Ok (<[field := normalized_value]> merged) else Ok merged
  | _, _ => Ok merged
  end.

(** A loop whose body can raise. *)
Definition fold_py {A B} (f : A -> B -> pyresult A) (l : list B) (a : A) : pyresult A :=
  fold_left (fun acc b => let* a := acc in f a b) l (Ok a).

Definition merge_date_result (unknown_value : string) (date_fields : list string)
    (merged : gmap string FieldValue) (result : option (gmap string FieldValue))
  : pyresult (gmap string FieldValue) :=
  match result with
  | None => Ok merged
  | Some r =>
      if falsy result then Ok merged
      else fold_py (merge_date_field unknown_value r) date_fields merged
  end.

(** [merge_date_fields]; the date format it takes is handed to helpers that
    do not look at it. *)
Definition merge_date_fields (settings : Settings)
    (chunk_results : list (option (gmap string FieldValue)))
    (date_fields : list string) (unknown_value : option string)
  : pyresult (gmap string FieldValue) :=
  let unknown_value := or_str unknown_value (UNKNOWN_VALUE settings) in
  fold_py (merge_date_result unknown_value date_fields) chunk_results
    (merged (initial unknown_value date_fields)).

End DateMerge.

(** ** Normalizer, the whole of it ([normalize_dates],
    [validate_and_normalize]) *)

Module Normalizer.
Import Merger Validators Validators.Dates.

(** [normalize_date] on a value of the record: [strptime] raises [TypeError]
    on a value that is not a string, at the first candidate format, and
    [normalize_date] catches [ValueError] only. *)
Definition normalize_date_value (settings : Settings) (platform : date -> string -> string)
    (v : json) (date_format : string) : pyresult json :=
  match v with
  | JStr s =>
      let* normalized := normalize_date settings platform s (Some date_format) in
      Ok (JStr normalized)
  | _ => Raise TypeError
  end.

(** [v == s] for a string [s]. *)
Definition equals_str (v : json) (s : string) : bool :=
  match v with
  | JStr t => String.eqb t s
  | _ => false
  end.

(** The body of the loop of [normalize_dates].  The sentinel the value is
    compared with is the configured one. *)
Definition normalize_dates_step (settings : Settings) (platform : date -> string -> string)
    (date_format : string) (normalized : gmap string json) (field : string)
  : pyresult (gmap string json) :=
  match normalized !! field with
  | Some v =>
      if equals_str v (UNKNOWN_VALUE settings) then Ok normalized
      else
        match normalize_date_value settings platform v date_format with
        | Ok v' => Ok (<[field := v']> normalized)
        | Raise ValueError => Ok normalized
        | Raise e => Raise e
        end
  | None => Ok normalized
  end.

(** [normalize_dates].  [keys] stands for [data.keys()], the keys of [data]
    in the order of their insertion, which the map does not record. *)
Definition normalize_dates (settings : Settings) (platform : date -> string -> string)
    (keys : list string) (data : gmap string json)
    (date_fields : option (list string)) (date_format : option string)
  : pyresult (gmap string json) :=
  let date_format := or_str date_format (DATE_FORMAT settings) in
  let date_fields :=
    match date_fields with
    | None => List.filter (fun field => Py.contains "date" (Py.lower field)) keys
    | Some l => l
    end in
  DateMerge.fold_py (normalize_dates_step settings platform date_format) date_fields data.

(** [validate_and_normalize].  The keys of the validated dict, in insertion
    order, are the requested fields without their repetitions. *)
Definition validate_and_normalize (settings : Settings) (platform : date -> string -> string)
    (keys : list string) (data : gmap string json)
    (fields date_fields : option (list string)) (unknown_value date_format : option string)
  : pyresult (gmap string json) :=
  let unknown_value := or_str unknown_value (UNKNOWN_VALUE settings) in
  let date_format := or_str date_format (DATE_FORMAT settings) in
  let fields :=
    match fields with
    | None | Some [] => keys
    | Some l => l
    end in
  let validated := validate_fields settings data fields (Some unknown_value) in
  normalize_dates settings platform (unique fields) validated date_fields (Some date_format).

End Normalizer.

(** ** Backend client, the retry loop ([DudoxxClient.extract_fields]) *)

Module Client.
Import Executor.

Section Retry.
(** [attempt k] is what the [k]-th request of the call does: the parsed
    answer it returns, or the exception it raises. *)
Context {V : Type}.
Variable attempt : nat -> outcome V.

(** The loop [for attempt in range(self.max_retries)] from the attempt [k]
    on, [n] attempts being left.  The result comes with the number of
    requests made. *)
Fixpoint retry (max_retries : Z) (n k : nat) : pyresult (option V) * nat :=
  match n with
  | O => (Ok None, k)
  | S n' =>
      match attempt k with
      | Returned v => (Ok (Some v), S k)
      | Raised _ =>
          if Z.of_nat k <? max_retries - 1 then retry max_retries n' (S k)
          else (Raise BackendError, S k)
      end
  end.

(** [extract_fields] for the number of retries the client holds.  When the
    loop runs out without a [return] or a [raise], the method returns
    [None]. *)
Definition extract_fields (max_retries : Z) : pyresult (option V) * nat :=
  retry max_retries (Z.to_nat max_retries) 0.

End Retry.

End Client.

(** ** Reconciler on chunk values of any JSON type *)

(** [merge_results] does not look at the type of the values a chunk result
    holds: it compares them with [==], tests them with [isinstance(_, list)]
    and goes through [str] in the conflict chain.  The module [Merger] follows
    the code on the values of the data model, strings and lists of strings;
    this module follows it on every decoded JSON value.  As there, a chunk
    result is [None] or a dict, and no two chunk results share a list. *)

Module JsonMerger.
Import Merger.

(** [x == y] on decoded JSON values.  [True] and [False] are the integers 1
    and 0; lists are compared element by element; dicts are equal when they
    have the same keys with equal values, in whatever order. *)
Fixpoint py_eq (x y : json) : bool :=
  match x, y with
  | JNull, JNull => true
  | JBool a, JBool b => Bool.eqb a b
  | JBool a, JNum n => (if a then 1 else 0) =? n
  | JNum n, JBool b => n =? (if b then 1 else 0)
  | JNum n, JNum m => n =? m
  | JStr s, JStr t => String.eqb s t
  | JArr l, JArr l' =>
      (fix elements (l l' : list json) : bool :=
         match l, l' with
         | [], [] => true
         | a :: l, b :: l' => py_eq a b && elements l l'
         | _, _ => false
         end) l l'
  | JObj members, JObj members' =>
      (length members =? length members')%nat
      && (fix values (members : list (string * json)) : bool :=
            match members with
            | [] => true
            | (k, v) :: members =>
                match member k members' with
                | Some v' => py_eq v v'
                | None => false
                end && values members
            end) members
  | _, _ => false
  end.

(** [x in l] for a list [l] *)
Definition py_elem (x : json) (l : list json) : bool :=
  existsb (fun e => py_eq e x) l.

(** [isinstance(x, list)] *)
Definition is_list (x : json) : bool := match x with JArr _ => true | _ => false end.

(** [x if isinstance(x, list) else [x]] *)
Definition as_list (x : json) : list json :=
  match x with
  | JArr l => l
  | _ => [x]
  end.

(** The two accumulators of [merge_results]. *)
Record acc : Type := {
  merged : gmap string json;
  list_fields : list string
}.

(** [not result] *)
Definition falsy (result : option (gmap string json)) : bool :=
  match result with
  | None => true
  | Some r => bool_decide (r = ∅)
  end.

Definition initial (unknown_value : string) (fields : list string) : acc :=
  {| merged := list_to_map ((fun field => (field, JStr unknown_value)) <$> fields);
     list_fields := [] |}.

(** Whether [set] accepts the value: lists and dicts have no hash. *)
Definition hashable (x : json) : bool :=
  match x with
  | JArr _ | JObj _ => false
  | _ => true
  end.

(** [[x for x in items if not (x in seen or seen.add(x))]] with [seen] a
    set, which holds the entries kept so far; an entry without a hash makes
    [x in seen] raise [TypeError]. *)
Definition fallback (items : list json) : pyresult (list json) :=
  fold_left (fun acc x =>
               let* kept := acc in
               if hashable x then Ok (if py_elem x kept then kept else kept ++ [x])
               else Raise TypeError)
            items (Ok []).

(** The loop building [unique_items]. *)
Definition unique (items : list json) : list json :=
  fold_left (fun unique_items item =>
               if py_elem item unique_items then unique_items
               else unique_items ++ [item])
            items [].

(** The tail of the [else] branch of the [try] block. *)
Definition strings_or_fallback (items : list json) (response : json) : pyresult (list json) :=
  match response with
  | JArr l => if forallb is_str l then Ok l else fallback items
  | _ => fallback items
  end.

Section Merge.
Context {W : Type}.
(** The dedup backend is handed the items as [json.dumps] writes them. *)
Variable backend : W -> string -> list json -> backend_outcome * W.
Variable repr : json -> string.

(** The conflict chain, which reads both values through [str] and keeps one
    of the two as it is. *)
Definition resolve_conflict (field : string) (merged_value value : json) : json :=
  let merged_str := py_str repr merged_value in
  let value_str := py_str repr value in
  if (String.length merged_str <? String.length value_str)%nat then value
  else if Py.contains value_str merged_str then merged_value
  else if Py.contains merged_str value_str then value
  else if String.eqb (_normalize_field value_str field) (_normalize_field merged_str field) then
    (if _format_quality_score merged_str field <? _format_quality_score value_str field
     then value else merged_value)
  else merged_value.

(** The body of the loop over [fields] for one chunk result. *)
Definition merge_field (unknown_value : string) (result : gmap string json)
    (a : acc) (field : string) : acc :=
  match result !! field, merged a !! field with
  | Some value, Some current =>
      if py_eq value (JStr unknown_value) then a
      else if py_eq current (JStr unknown_value) then
        {| merged := <[field := value]> (merged a); list_fields := list_fields a |}
      else if py_eq current value then a
      else if is_list value || is_list current then
        {| merged := <[field := JArr (as_list current ++ as_list value)]> (merged a);
           list_fields := mark field (list_fields a) |}
      else if bool_decide (field ∈ list_fields a) || _is_list_field field then
        let items := [current] in
        let items := if py_elem value items then items else items ++ [value] in
        {| merged := <[field := JArr items]> (merged a);
           list_fields := mark field (list_fields a) |}
      else
        {| merged := <[field := resolve_conflict field current value]> (merged a);
           list_fields := list_fields a |}
  | _, _ => a
  end.

(** The body of the loop over the chunk results. *)
Definition merge_result (unknown_value : string) (fields : list string)
    (a : acc) (result : option (gmap string json)) : acc :=
  match result with
  | None => a
  | Some r =>
      if falsy result then a
      else if bool_decide (is_Some (r !! "error")) then a
      else fold_left (merge_field unknown_value r) fields a
  end.

Definition merge_loop (unknown_value : string) (fields : list string)
    (chunk_results : list (option (gmap string json))) : acc :=
  fold_left (merge_result unknown_value fields) chunk_results
    (initial unknown_value fields).

(** The body of the [try] block once the backend has answered. *)
Definition parse_response (field_name : string) (items : list json) (response : json)
  : pyresult (list json) :=
  let* has_key := py_in "deduplicated_items" response in
  if has_key then
    let* deduplicated_items := py_getitem response "deduplicated_items" in
    match deduplicated_items with
    | JArr l => Ok l
    | _ => fallback items
    end
  else
    match response with
    | JArr l =>
        match l with
        | JObj members :: _ =>
            match member "deduplicated_items" members with
            | Some nested_items =>
                match nested_items with
                | JArr nested => convert_all (convert_nested_item repr field_name) nested
                | _ => strings_or_fallback items response
                end
            | None =>
                if forallb is_dict l
                then convert_all (convert_structured_item repr field_name) l
                else strings_or_fallback items response
            end
        | _ =>
            if forallb is_dict l
            then convert_all (convert_structured_item repr field_name) l
            else strings_or_fallback items response
        end
    | _ => strings_or_fallback items response
    end.

(** [deduplicate_with_llm]: the [except] clause catches what the [try] block
    raises, the fallback's [TypeError] included, and runs the fallback, whose
    own [TypeError] then leaves the function. *)
Definition deduplicate_with_llm (items : list json) (field_name : string) (w : W)
  : pyresult (list json) * W :=
  match items with
  | [] => (Ok [], w)
  | [_] => (Ok items, w)
  | _ =>
      let unique_items := unique items in
      if (length unique_items =? 1)%nat then (Ok unique_items, w)
      else
        let '(answer, w') := backend w field_name items in
        match answer with
        | Failed _ => (fallback items, w')
        | Responded response =>
            match parse_response field_name items response with
            | Ok deduplicated_items => (Ok deduplicated_items, w')
            | Raise _ => (fallback items, w')
            end
        end
  end.

(** The loop over [list_fields] that ends [merge_results]; an exception of
    the deduplication ends it. *)
Definition post_process (a : acc) (w : W) : pyresult (gmap string json) * W :=
  fold_left (fun (st : pyresult (gmap string json) * W) field =>
               let '(out, w) := st in
               match out with
               | Raise e => (Raise e, w)
               | Ok out =>
                   match merged a !! field with
                   | Some (JArr items) =>
                       let '(deduplicated, w') := deduplicate_with_llm items field w in
                       match deduplicated with
                       | Ok l => (Ok (<[field := JArr l]> out), w')
                       | Raise e => (Raise e, w')
                       end
                   | _ => (Ok out, w)
                   end
               end)
            (list_fields a) (Ok (merged a), w).

Definition merge_results (settings : Settings)
    (chunk_results : list (option (gmap string json)))
    (fields : list string) (unknown_value : option string) (w : W)
  : pyresult (gmap string json) * W :=
  let unknown_value := or_str unknown_value (UNKNOWN_VALUE settings) in
  post_process (merge_loop unknown_value fields chunk_results) w.

End Merge.

End JsonMerger.

(** ** Properties of the Python prelude *)

Module PyProps.

Example split_example : Py.split "  a bc
 d " = ["a"; "bc"; "d"].
Proof. reflexivity. Qed.

Example range_example : Py.range 0 9 2 = Ok [0; 2; 4; 6; 8].
Proof. reflexivity. Qed.

Example slice_example : Py.slice [1; 2; 3; 4; 5] 2 (-1) = [3; 4].
Proof. reflexivity. Qed.

Example replace_example : Py.replace "dd" "%d" "dd/mm/dddd" = "%d/mm/%d%d".
Proof. reflexivity. Qed.

Lemma range_zero_step start stop : Py.range start stop 0 = Raise ValueError.
Proof. reflexivity. Qed.

Lemma range_len_backwards stop step : 0 <= stop -> step < 0 -> Py.range_len 0 stop step = 0.
Proof.
  intros Hstop Hstep. unfold Py.range_len.
  destruct (0 <? step) eqn:E; [apply Z.ltb_lt in E; lia |].
  destruct (stop <? 0) eqn:E'; [apply Z.ltb_lt in E'; lia | reflexivity].
Qed.

Lemma range_backwards stop step : 0 <= stop -> step < 0 -> Py.range 0 stop step = Ok [].
Proof.
  intros Hstop Hstep. unfold Py.range.
  destruct (step =? 0) eqn:E; [apply Z.eqb_eq in E; lia |].
  by rewrite range_len_backwards.
Qed.

(** A slice with bounds inside the list is a [take] of a [drop]. *)
Lemma slice_block {A} (l : list A) (lo len : Z) :
  0 <= lo -> 0 <= len ->
  Py.slice l lo (lo + len) = take (Z.to_nat len) (drop (Z.to_nat lo) l).
Proof.
  intros Hlo Hlen. unfold Py.slice, Py.slice_bound.
  destruct (lo <? 0) eqn:E1; [apply Z.ltb_lt in E1; lia |].
  destruct (lo + len <? 0) eqn:E2; [apply Z.ltb_lt in E2; lia |].
  destruct (Z.le_gt_cases (Z.of_nat (length l)) lo) as [Hout|Hin].
  - rewrite (drop_ge l (Z.to_nat lo)) by lia.
    rewrite (Z.min_r lo) by lia. rewrite Nat2Z.id, drop_all. by rewrite !take_nil.
  - rewrite (Z.min_l lo) by lia.
    destruct (Z.le_gt_cases (lo + len) (Z.of_nat (length l))) as [Hfit|Hcut].
    + rewrite Z.min_l by lia. do 2 f_equal. lia.
    + rewrite Z.min_r by lia.
      rewrite !take_ge; [done | |]; rewrite length_drop; lia.
Qed.

End PyProps.

(** ** Properties of the segmenter *)

Module ChunkerProps.
Import Chunker PyProps.

(** What [chunk_text] does once the text has more words than the window. *)
Lemma chunk_text_long settings text cs ov mn :
  or_int cs (CHUNK_SIZE settings) < Z.of_nat (length (Py.split text)) ->
  chunk_text settings text cs ov mn =
    (let* starts := Py.range 0 (Z.of_nat (length (Py.split text)))
                (or_int cs (CHUNK_SIZE settings) - or_int ov (CHUNK_OVERLAP settings)) in
     Ok (fold_left (window_step (Py.split text) (or_int cs (CHUNK_SIZE settings))
                      (or_int mn (MIN_CHUNK_SIZE settings))) starts [])).
Proof.
  intros Hlong. unfold chunk_text.
  destruct (_ <=? _) eqn:E; [apply Z.leb_le in E; lia | reflexivity].
Qed.

(** With a minimum that does not exceed the window size the skip of
    [window_step] never fires: a window that ends before the end of the text
    is full, hence not shorter than the minimum. *)
Lemma window_step_never_skips words cs mn chunks i :
  0 <= i -> mn <= cs ->
  window_step words cs mn chunks i
    = chunks ++ [Py.join " " (Py.slice words i (i + cs))].
Proof.
  intros Hi Hmn. unfold window_step.
  destruct (_ <? mn) eqn:Hshort; [| done].
  destruct (i + cs <? _) eqn:Hinner; [| done].
  exfalso. apply Z.ltb_lt in Hshort, Hinner.
  assert (Hcs : 0 < cs) by lia.
  rewrite slice_block, length_take, length_drop in Hshort by lia. lia.
Qed.

(** C6 (behaviour of the code on a nine-word text, window 4, overlap 2,
    minimum 4): the window ["g h i"] has three words, fewer than the minimum,
    and is followed by the final window ["i"]; the loop keeps both, because
    its test [i + chunk_size < len(words)] is false for every window that
    reaches the end of the text, not only for the last one. *)
Theorem chunk_text_keeps_short_inner_window settings :
  chunk_text settings "a b c d e f g h i" (Some 4) (Some 2) (Some 4)
  = Ok ["a b c d"; "c d e f"; "e f g h"; "g h i"; "i"].
Proof. reflexivity. Qed.

(** C7: [chunk_text] at a target size that is not positive.  With the target
    size [-5] the three words of the text are lost: the call returns the
    empty segment list, and does not raise.  With the target size [0] the
    configured default takes its place and the text comes back as one
    segment.  The request model of the front end rejects such a size
    ("Chunk size must be positive"); [chunk_text] itself, which the command
    line and the file route call with the size as it was given, does not. *)
Theorem chunk_text_nonpositive_size_returns :
  chunk_text default_settings "a b c" (Some (-5)) None None = Ok [] /\
  chunk_text default_settings "a b c" (Some 0) None None = Ok ["a b c"].
Proof. split; reflexivity. Qed.

(** The same on every text: a zero target size counts as not provided, and a
    negative target size with an overlap above it (every non-negative overlap
    is) yields the empty segment list. *)
Lemma chunk_text_nonpositive_size settings text cs ov mn :
  cs <= 0 ->
  cs = 0 \/ cs < or_int ov (CHUNK_OVERLAP settings) ->
  chunk_text settings text (Some cs) ov mn =
    if cs =? 0 then chunk_text settings text None ov mn else Ok [].
Proof.
  intros Hle Hov. destruct (cs =? 0) eqn:E.
  - apply Z.eqb_eq in E. subst cs. reflexivity.
  - apply Z.eqb_neq in E.
    assert (Hcs : or_int (Some cs) (CHUNK_SIZE settings) = cs).
    { simpl. destruct (cs =? 0) eqn:E'; [apply Z.eqb_eq in E'; lia | reflexivity]. }
    rewrite chunk_text_long by (rewrite Hcs; lia).
    rewrite Hcs, range_backwards by lia. reflexivity.
Qed.

(** C10: [chunk_text] is partial in its parameters.  On a text with more words
    than the window, an overlap equal to the window size makes the window
    loop's [range] raise [ValueError] (zero step), and an overlap above the
    window size makes the loop run over an empty range, so that no segment is
    returned.  The sizes are the ones the function works with, that is after
    its own defaulting of omitted (or zero) arguments. *)
Theorem chunk_text_degenerate_overlap settings text cs ov mn :
  or_int cs (CHUNK_SIZE settings) < Z.of_nat (length (Py.split text)) ->
  (or_int ov (CHUNK_OVERLAP settings) = or_int cs (CHUNK_SIZE settings) ->
   chunk_text settings text cs ov mn = Raise ValueError) /\
  (or_int cs (CHUNK_SIZE settings) < or_int ov (CHUNK_OVERLAP settings) ->
   chunk_text settings text cs ov mn = Ok []).
Proof.
  intros Hlong. rewrite chunk_text_long by done. split.
  - intros ->. by rewrite Z.sub_diag, range_zero_step.
  - intros Hov. rewrite range_backwards by lia. reflexivity.
Qed.

Lemma chunk_text_degenerate_overlap_witness :
  chunk_text default_settings "a b c" (Some 2) (Some 2) None = Raise ValueError /\
  chunk_text default_settings "a b c" (Some 2) (Some 3) None = Ok [].
Proof.
  split.
  - apply (proj1 (chunk_text_degenerate_overlap default_settings "a b c"
                    (Some 2) (Some 2) None ltac:(simpl; lia))).
    reflexivity.
  - apply (proj2 (chunk_text_degenerate_overlap default_settings "a b c"
                    (Some 2) (Some 3) None ltac:(simpl; lia))).
    simpl. lia.
Defined.

End ChunkerProps.

(** ** Properties of the batch executor *)

Module ExecutorProps.
Import Executor PyProps.

Section Sorting.
Context {V : Type}.
Implicit Types (x : nat * V) (l : list (nat * V)).

Definition key_le : relation (nat * V) := fun x y => (x.1 <= y.1)%nat.

Lemma insert_by_key_perm x l : insert_by_key x l ≡ₚ x :: l.
Proof.
  induction l as [|y l IH]; simpl; [done |].
  destruct (x.1 <=? y.1)%nat; [done |].
  rewrite IH. apply Permutation_swap.
Qed.

Lemma sort_by_key_perm l : sort_by_key l ≡ₚ l.
Proof.
  induction l as [|x l IH]; simpl; [done |].
  by rewrite insert_by_key_perm, IH.
Qed.

Lemma insert_by_key_sorted x l :
  StronglySorted key_le l -> StronglySorted key_le (insert_by_key x l).
Proof.
  induction 1 as [|y l Hl IH Hy]; simpl.
  - repeat constructor.
  - destruct (x.1 <=? y.1)%nat eqn:E.
    + apply Nat.leb_le in E. constructor; [by constructor |].
      constructor; [done |].
      eapply Forall_impl; [exact Hy |]. unfold key_le. intros z Hz. simpl in *. lia.
    + apply Nat.leb_gt in E. constructor; [done |].
      rewrite insert_by_key_perm. constructor; [| done].
      unfold key_le. lia.
Qed.

Lemma sort_by_key_sorted l : StronglySorted key_le (sort_by_key l).
Proof.
  induction l as [|x l IH]; simpl; [constructor |].
  by apply insert_by_key_sorted.
Qed.

Lemma sorted_keys_sorted l :
  StronglySorted le (l.*1) -> StronglySorted key_le l.
Proof.
  induction l as [|x l IH]; simpl; intros Hs; [constructor |].
  apply StronglySorted_inv in Hs as [Hs Hx].
  constructor; [by apply IH |].
  rewrite Forall_fmap in Hx. exact Hx.
Qed.

Lemma key_determines l x y :
  NoDup (l.*1) -> x ∈ l -> y ∈ l -> x.1 = y.1 -> x = y.
Proof.
  induction l as [|z l IH]; simpl; intros Hnd Hx Hy Hk.
  - by apply elem_of_nil in Hx.
  - apply NoDup_cons in Hnd as [Hz Hnd].
    apply elem_of_cons in Hx as [->|Hx]; apply elem_of_cons in Hy as [->|Hy].
    + done.
    + exfalso. apply Hz. rewrite Hk. by apply list_elem_of_fmap_2.
    + exfalso. apply Hz. rewrite <- Hk. by apply list_elem_of_fmap_2.
    + by apply IH.
Qed.

(** Sorting any arrangement of a list whose keys are strictly increasing
    gives that list back. *)
Lemma sort_by_key_unique l l0 :
  l ≡ₚ l0 -> StronglySorted le (l0.*1) -> NoDup (l0.*1) -> sort_by_key l = l0.
Proof.
  intros Hp Hs Hnd.
  apply (StronglySorted_unique_strong key_le).
  - intros x y Hx Hy Hxy Hyx.
    apply (key_determines l0); [done | | done | unfold key_le in *; lia].
    by rewrite <- Hp, <- (sort_by_key_perm l).
  - apply sort_by_key_sorted.
  - by apply sorted_keys_sorted.
  - by rewrite sort_by_key_perm.
Qed.
End Sorting.

Lemma seq_strongly_sorted j n : StronglySorted le (seq j n).
Proof.
  revert j. induction n as [|n IH]; intros j; simpl; constructor; [apply IH |].
  apply Forall_forall. intros k Hk%elem_of_seq. lia.
Qed.

Lemma fold_left_snoc {A B} (h : A -> B) (l : list A) (acc : list B) :
  fold_left (fun acc a => acc ++ [h a]) l acc = acc ++ (h <$> l).
Proof.
  revert acc. induction l as [|a l IH]; intros acc; simpl.
  - by rewrite app_nil_r.
  - by rewrite IH, <- app_assoc.
Qed.

Lemma take_imap {A B} (f : nat -> A -> B) n (l : list A) :
  take n (imap f l) = imap f (take n l).
Proof.
  revert f n. induction l as [|a l IH]; intros f [|n]; simpl; try done.
  by rewrite IH.
Qed.

Lemma drop_imap {A B} (f : nat -> A -> B) n (l : list A) :
  drop n (imap f l) = imap (fun k => f (n + k)%nat) (drop n l).
Proof.
  revert f n. induction l as [|a l IH]; intros f [|n]; simpl; try done.
Qed.

Lemma take_succ_block {A} (l : list A) (a b : nat) :
  take (a + b) l = take a l ++ take b (drop a l).
Proof.
  revert l. induction a as [|a IH]; intros [|x l]; simpl; try done.
  - by rewrite take_nil.
  - by rewrite IH.
Qed.

Section Batches.
Context {Chunk V : Type}.
Variable py_None : V.
Variable process_func : nat -> Chunk -> nat -> outcome V.
Variable as_completed : nat -> list (nat * outcome V) -> list (nat * outcome V).

(** Whatever the timing, every submitted future completes exactly once. *)
Hypothesis as_completed_perm : forall i futures, as_completed i futures ≡ₚ futures.

Lemma imap_keys_from {A} (g : nat -> A -> V) (l : list A) j :
  (imap (fun idx a => ((j + idx)%nat, g idx a)) l).*1 = seq j (length l).
Proof.
  revert g j. induction l as [|a l IH]; intros g j; simpl; [done |].
  rewrite Nat.add_0_r. f_equal.
  rewrite <- (IH (fun idx => g (S idx)) (S j)). f_equal.
  apply imap_ext. intros idx x _. simpl. f_equal. lia.
Qed.

Lemma imap_keys {A} (g : nat -> A -> V) (l : list A) :
  (imap (fun idx a => (idx, g idx a)) l).*1 = seq 0 (length l).
Proof. exact (imap_keys_from g l 0). Qed.

(** A batch comes back in submission order. *)
Lemma run_batch_ordered i (batch : list Chunk) :
  run_batch py_None process_func as_completed i batch =
    imap (fun idx chunk => recorded py_None (process_func (i + idx)%nat chunk idx)) batch.
Proof.
  unfold run_batch. rewrite fold_left_snoc, app_nil_l.
  set (h := fun future : nat * outcome V => (future.1, recorded py_None future.2)).
  set (futures := imap _ batch).
  set (g := fun idx chunk => recorded py_None (process_func (i + idx)%nat chunk idx)).
  assert (Hfut : h <$> futures = imap (fun idx chunk => (idx, g idx chunk)) batch).
  { unfold futures. rewrite fmap_imap. by apply imap_ext. }
  rewrite (sort_by_key_unique _ (h <$> futures)).
  - rewrite Hfut, fmap_imap. by apply imap_ext.
  - by rewrite as_completed_perm.
  - rewrite Hfut, imap_keys. apply seq_strongly_sorted.
  - rewrite Hfut, imap_keys. apply NoDup_seq.
Qed.

(** The list [process_chunks_parallel] is expected to return for the batch
    size [bs]: position [p] holds what was recorded for the call on the
    chunk at position [p], whose index in its batch is [p mod bs]. *)
Definition in_submission_order (bs : nat) (chunks : list Chunk) : list V :=
  imap (fun p chunk => recorded py_None (process_func p chunk (p mod bs))) chunks.

Lemma range_len_forward n bs :
  0 < bs -> 0 <= n ->
  (forall k, 0 <= k < Py.range_len 0 n bs -> k * bs < n) /\
  n <= Py.range_len 0 n bs * bs /\ 0 <= Py.range_len 0 n bs.
Proof.
  intros Hbs Hn. unfold Py.range_len.
  destruct (0 <? bs) eqn:E; [| apply Z.ltb_ge in E; lia].
  destruct (0 <? n) eqn:E'; [apply Z.ltb_lt in E' | apply Z.ltb_ge in E'].
  - rewrite Z.sub_0_r.
    pose proof (Z.mul_div_le (n - 1) bs Hbs) as Hlo.
    pose proof (Z.mul_succ_div_gt (n - 1) bs Hbs) as Hhi.
    pose proof (Z.div_pos (n - 1) bs ltac:(lia) Hbs) as Hq.
    repeat split; try lia. intros k Hk. nia.
  - repeat split; lia.
Qed.

Lemma batch_step_ok (chunks : list Chunk) max_workers batch_size results (k : nat) :
  0 < max_workers -> 0 < batch_size ->
  Z.of_nat k * batch_size < Z.of_nat (length chunks) ->
  batch_step py_None process_func as_completed chunks max_workers batch_size
    results (0 + Z.of_nat k * batch_size) =
  Ok (results ++ take (Z.to_nat batch_size)
                   (drop (k * Z.to_nat batch_size)
                      (in_submission_order (Z.to_nat batch_size) chunks))).
Proof.
  intros Hw Hbs Hk. unfold batch_step. rewrite Z.add_0_l.
  rewrite slice_block by lia.
  replace (Z.to_nat (Z.of_nat k * batch_size)) with (k * Z.to_nat batch_size)%nat by lia.
  set (bs := Z.to_nat batch_size).
  destruct (Z.min _ _ <=? 0) eqn:E.
  - exfalso. apply Z.leb_le in E.
    rewrite length_take, length_drop in E. lia.
  - f_equal. f_equal. rewrite run_batch_ordered.
    unfold in_submission_order. rewrite drop_imap, take_imap.
    apply imap_ext. intros idx chunk Hidx. simpl.
    apply lookup_lt_Some in Hidx. rewrite length_take in Hidx.
    do 2 f_equal.
    rewrite Nat.add_comm, Nat.Div0.mod_add. symmetry. apply Nat.mod_small. lia.
Qed.

Lemma batches_prefix (chunks : list Chunk) max_workers batch_size (k : nat) :
  0 < max_workers -> 0 < batch_size ->
  Z.of_nat k <= Py.range_len 0 (Z.of_nat (length chunks)) batch_size ->
  fold_left
    (fun acc i =>
       let* results := acc in
       batch_step py_None process_func as_completed chunks max_workers batch_size results i)
    (List.map (fun j => 0 + Z.of_nat j * batch_size) (seq 0 k)) (Ok []) =
  Ok (take (k * Z.to_nat batch_size)
        (in_submission_order (Z.to_nat batch_size) chunks)).
Proof.
  intros Hw Hbs. induction k as [|k IH]; intros Hk; [done |].
  rewrite seq_S, map_app, fold_left_app, IH by lia. simpl.
  destruct (range_len_forward (Z.of_nat (length chunks)) batch_size Hbs ltac:(lia))
    as (Hin & _ & _).
  rewrite batch_step_ok by (try done; apply Hin; lia).
  f_equal. rewrite <- take_succ_block. f_equal. lia.
Qed.

(** The executor returns, for positive batch size and worker count, the
    recorded results in submission order. *)
Lemma process_chunks_parallel_spec settings (chunks : list Chunk) max_workers batch_size :
  0 < or_int max_workers (MAX_THREADS settings) ->
  0 < or_int batch_size (BATCH_SIZE settings) ->
  process_chunks_parallel py_None process_func as_completed settings chunks
    max_workers batch_size =
  Ok (in_submission_order (Z.to_nat (or_int batch_size (BATCH_SIZE settings))) chunks).
Proof.
  intros Hw Hbs. unfold process_chunks_parallel, Py.range.
  destruct (_ =? 0) eqn:E; [apply Z.eqb_eq in E; lia |]. simpl.
  destruct (range_len_forward (Z.of_nat (length chunks)) _ Hbs ltac:(lia))
    as (_ & Hall & Hpos).
  rewrite batches_prefix by (try done; lia).
  f_equal. apply take_ge. unfold in_submission_order. rewrite length_imap. nia.
Qed.

(** C1: whatever the chunks, the process function and the order in which
    the futures of a batch complete, [process_chunks_parallel] (run with a
    positive batch size and a positive number of workers) returns a list as
    long as the input whose element at position [i] is the value that the
    call on the chunk at position [i] returned ([None] when that call
    raised). *)
Theorem process_chunks_parallel_preserves_order settings (chunks : list Chunk)
    max_workers batch_size :
  0 < or_int max_workers (MAX_THREADS settings) ->
  0 < or_int batch_size (BATCH_SIZE settings) ->
  exists results,
    process_chunks_parallel py_None process_func as_completed settings chunks
      max_workers batch_size = Ok results /\
    length results = length chunks /\
    forall i chunk, chunks !! i = Some chunk ->
      results !! i =
        Some match process_func i chunk
                     (i mod Z.to_nat (or_int batch_size (BATCH_SIZE settings))) with
             | Returned r => r
             | Raised _ => py_None
             end.
Proof.
  intros Hw Hbs. eexists. split; [by apply process_chunks_parallel_spec |].
  unfold in_submission_order. split; [apply length_imap |].
  intros i chunk Hi. by rewrite list_lookup_imap, Hi.
Qed.

(** C5: a call of the process function that raises leaves [None] at the
    position of its chunk; every other chunk, in the same batch and in the
    later ones, still has the value its own call returned at its position;
    and [process_chunks_parallel] itself returns normally. *)
Theorem process_chunks_parallel_isolates_failures settings (chunks : list Chunk)
    max_workers batch_size :
  0 < or_int max_workers (MAX_THREADS settings) ->
  0 < or_int batch_size (BATCH_SIZE settings) ->
  exists results,
    process_chunks_parallel py_None process_func as_completed settings chunks
      max_workers batch_size = Ok results /\
    (forall i chunk e, chunks !! i = Some chunk ->
       process_func i chunk (i mod Z.to_nat (or_int batch_size (BATCH_SIZE settings)))
         = Raised e ->
       results !! i = Some py_None) /\
    (forall j chunk r, chunks !! j = Some chunk ->
       process_func j chunk (j mod Z.to_nat (or_int batch_size (BATCH_SIZE settings)))
         = Returned r ->
       results !! j = Some r).
Proof.
  intros Hw Hbs. eexists. split; [by apply process_chunks_parallel_spec |].
  unfold in_submission_order.
  split; intros i chunk x Hi Hcall;
    rewrite list_lookup_imap, Hi; simpl; by rewrite Hcall.
Qed.

End Batches.

(** A process function that fails on the chunk at position 1, run with the
    futures of every batch completing in the reverse of submission order. *)
Definition failing_second (p : nat) (chunk : string) (idx : nat) : outcome (option string) :=
  if (p =? 1)%nat then Raised BackendError else Returned (Some chunk).

Definition last_first (i : nat) (futures : list (nat * outcome (option string))) :=
  reverse futures.

Example process_chunks_parallel_example :
  process_chunks_parallel None failing_second last_first default_settings
    ["a"; "b"; "c"] (Some 2) (Some 2) = Ok [Some "a"; None; Some "c"].
Proof. reflexivity. Qed.

Lemma process_chunks_parallel_preserves_order_witness :
  exists results,
    process_chunks_parallel None failing_second last_first default_settings
      ["a"; "b"; "c"] (Some 2) (Some 2) = Ok results /\
    length results = 3%nat /\
    forall i chunk, ["a"; "b"; "c"] !! i = Some chunk ->
      results !! i = Some match failing_second i chunk (i mod 2) with
                          | Returned r => r
                          | Raised _ => None
                          end.
Proof.
  apply (process_chunks_parallel_preserves_order None failing_second last_first
           (fun _ futures => reverse_Permutation futures)
           default_settings ["a"; "b"; "c"] (Some 2) (Some 2)); simpl; lia.
Defined.

Lemma process_chunks_parallel_isolates_failures_witness :
  exists results,
    process_chunks_parallel None failing_second last_first default_settings
      ["a"; "b"; "c"] None (Some 2) = Ok results /\
    (forall i chunk e, ["a"; "b"; "c"] !! i = Some chunk ->
       failing_second i chunk (i mod 2) = Raised e -> results !! i = Some None) /\
    (forall j chunk r, ["a"; "b"; "c"] !! j = Some chunk ->
       failing_second j chunk (j mod 2) = Returned r -> results !! j = Some r).
Proof.
  apply (process_chunks_parallel_isolates_failures None failing_second last_first
           (fun _ futures => reverse_Permutation futures)
           default_settings ["a"; "b"; "c"] None (Some 2)); simpl; lia.
Defined.

End ExecutorProps.

(** ** Properties of the reconciler *)

Module MergerProps.
Import Merger Validators.

(** *** The merge loop keeps every requested field *)

Lemma merge_field_dom unknown_value result a field :
  dom (merged (merge_field unknown_value result a field)) = dom (merged a).
Proof.
  unfold merge_field.
  destruct (result !! field) as [value|]; [| done].
  destruct (merged a !! field) as [current|] eqn:Hcur; [| done].
  assert (Hdom : forall v, dom (<[field := v]> (merged a)) = dom (merged a)).
  { intros v. rewrite dom_insert_L.
    apply subseteq_union_1_L, singleton_subseteq_l. by eapply elem_of_dom_2. }
  do 3 (case_bool_decide; [solve [done | apply Hdom] |]).
  destruct current, value; simpl; try apply Hdom.
  destruct (_ || _); simpl; apply Hdom.
Qed.

Lemma merge_fields_dom unknown_value result fields a :
  dom (merged (fold_left (merge_field unknown_value result) fields a)) = dom (merged a).
Proof.
  revert a. induction fields as [|field fields IH]; intros a; simpl; [done |].
  by rewrite IH, merge_field_dom.
Qed.

Lemma merge_result_dom unknown_value fields a result :
  dom (merged (merge_result unknown_value fields a result)) = dom (merged a).
Proof.
  unfold merge_result. destruct result as [r|]; [| done].
  destruct (falsy _); [done |]. case_bool_decide; [done |].
  apply merge_fields_dom.
Qed.

Lemma initial_dom unknown_value fields :
  dom (merged (initial unknown_value fields)) = list_to_set fields.
Proof.
  unfold initial. simpl. rewrite dom_list_to_map_L. f_equal.
  rewrite <- list_fmap_compose. apply list_fmap_id.
Qed.

(** The lookup [merged[field]] of the merge loop never misses: the dict holds
    exactly the requested fields at every iteration. *)
Lemma merge_loop_dom unknown_value fields chunk_results :
  dom (merged (merge_loop unknown_value fields chunk_results)) = list_to_set fields.
Proof.
  unfold merge_loop. rewrite <- (initial_dom unknown_value fields).
  generalize (initial unknown_value fields).
  induction chunk_results as [|result rest IH]; intros a; simpl; [done |].
  by rewrite IH, merge_result_dom.
Qed.

(** *** Failed segments *)

Lemma merge_result_falsy unknown_value fields a result :
  falsy result = true -> merge_result unknown_value fields a result = a.
Proof.
  intros Hf. unfold merge_result. destruct result as [r|]; [| done].
  by rewrite Hf.
Qed.

Lemma merge_loop_skips_falsy unknown_value fields chunk_results a :
  fold_left (merge_result unknown_value fields) chunk_results a =
  fold_left (merge_result unknown_value fields)
    (List.filter (fun result => negb (falsy result)) chunk_results) a.
Proof.
  revert a. induction chunk_results as [|result rest IH]; intros a; simpl; [done |].
  destruct (falsy result) eqn:Hf; simpl.
  - by rewrite merge_result_falsy.
  - apply IH.
Qed.

(** C4: merging a sequence of chunk results gives the same record (and makes
    the same backend calls) as merging the sequence without its failed
    results, that is without the [None] and the empty field maps. *)
Theorem merge_results_ignores_failed_segments {W} (backend : W -> string -> list string -> backend_outcome * W)
    (repr : json -> string) settings chunk_results fields unknown_value (w : W) :
  merge_results backend repr settings chunk_results fields unknown_value w =
  merge_results backend repr settings
    (List.filter (fun result => negb (falsy result)) chunk_results)
    fields unknown_value w.
Proof.
  unfold merge_results, merge_loop. by rewrite merge_loop_skips_falsy.
Qed.

(** *** The states of a field of the final record *)

Definition is_sentinel (unknown_value : string) (v : json) : Prop :=
  v = JStr unknown_value.

Definition is_scalar (unknown_value : string) (v : json) : Prop :=
  exists s, v = JStr s /\ s <> unknown_value.

Definition is_list (v : json) : Prop :=
  exists l, v = JArr l.

Definition exactly_one_state (unknown_value : string) (v : json) : Prop :=
  (is_sentinel unknown_value v /\ ~ is_scalar unknown_value v /\ ~ is_list v) \/
  (~ is_sentinel unknown_value v /\ is_scalar unknown_value v /\ ~ is_list v) \/
  (~ is_sentinel unknown_value v /\ ~ is_scalar unknown_value v /\ is_list v).

Definition text_or_array (v : json) : Prop :=
  (exists s, v = JStr s) \/ (exists l, v = JArr l).

Lemma text_or_array_state unknown_value v :
  text_or_array v -> exactly_one_state unknown_value v.
Proof.
  unfold exactly_one_state, is_sentinel, is_scalar, is_list.
  intros [[s ->] | [l ->]].
  - destruct (decide (s = unknown_value)) as [-> | Hne].
    + left. split; [done |]. split; [intros (s & [= <-] & Hs); done | intros [l [=]]].
    + right. left. split; [intros [= ->]; done |].
      split; [by exists s | intros [l [=]]].
  - right. right. split; [intros [=] |]. split; [intros (s & [=] & _) | by exists l].
Qed.

Lemma to_json_text_or_array v : text_or_array (to_json v).
Proof. destruct v; [left | right]; eauto. Qed.

Section FinalRecord.
Context {W : Type}.
Variable backend : W -> string -> list string -> backend_outcome * W.
Variable repr : json -> string.

Lemma post_process_values a w :
  map_Forall (fun _ v => text_or_array v) (post_process backend repr a w).1.
Proof.
  unfold post_process.
  assert (Hinit : map_Forall (fun (_ : string) v => text_or_array v) (to_json <$> merged a)).
  { intros field v. rewrite lookup_fmap. intros Hv.
    apply fmap_Some in Hv as (x & _ & ->). apply to_json_text_or_array. }
  revert Hinit. generalize (to_json <$> merged a). revert w.
  induction (list_fields a) as [|field rest IH]; intros w out Hout; simpl; [done |].
  destruct (merged a !! field) as [[s | items] |]; try by apply IH.
  destruct (deduplicate_with_llm backend repr items field w) as [deduplicated w'].
  apply IH. apply map_Forall_insert_2; [right; eauto | done].
Qed.

Lemma validate_fields_dom settings data fields unknown_value :
  dom (validate_fields settings data fields unknown_value) = list_to_set fields.
Proof.
  unfold validate_fields.
  assert (Hgen : forall validated : gmap string json,
    dom (fold_left (fun validated field =>
                      match data !! field with
                      | Some v => <[field := v]> validated
                      | None => <[field := JStr (or_str unknown_value (UNKNOWN_VALUE settings))]>
                                  validated
                      end) fields validated)
    = list_to_set fields ∪ dom validated).
  { induction fields as [|field rest IH]; intros validated; simpl.
    - by rewrite union_empty_l_L.
    - rewrite IH. destruct (data !! field); rewrite dom_insert_L;
        by rewrite (assoc_L (∪)), (comm_L (∪) _ {[field]}). }
  rewrite Hgen, dom_empty_L. apply union_empty_r_L.
Qed.

Lemma validate_fields_values (P : json -> Prop) settings data fields unknown_value :
  map_Forall (fun _ v => P v) data ->
  P (JStr (or_str unknown_value (UNKNOWN_VALUE settings))) ->
  map_Forall (fun _ v => P v) (validate_fields settings data fields unknown_value).
Proof.
  intros Hdata Hdefault. unfold validate_fields.
  assert (Hempty : map_Forall (fun (_ : string) v => P v) (∅ : gmap string json))
    by apply map_Forall_empty.
  revert Hempty. generalize (∅ : gmap string json).
  induction fields as [|field rest IH]; intros validated Hval; simpl; [done |].
  apply IH. destruct (data !! field) as [v|] eqn:Hv.
  - apply map_Forall_insert_2; [by apply (Hdata field) | done].
  - by apply map_Forall_insert_2.
Qed.

End FinalRecord.

(** *** One field at a time *)

Lemma elem_of_mark field field' l : field ∈ mark field' l <-> field ∈ l \/ field = field'.
Proof.
  unfold mark. case_bool_decide as Hin.
  - split; [by left | intros [? | ->]; done].
  - rewrite elem_of_app, list_elem_of_singleton. done.
Qed.

(** A step on another field leaves the value of [field] and its membership
    in [list_fields] alone. *)
Lemma merge_field_other unknown_value result a field field' :
  field' <> field ->
  merged (merge_field unknown_value result a field') !! field = merged a !! field /\
  (field ∈ list_fields (merge_field unknown_value result a field') <-> field ∈ list_fields a).
Proof.
  intros Hne. unfold merge_field.
  destruct (result !! field') as [value|]; [| done].
  destruct (merged a !! field') as [current|]; [| done].
  assert (Hmark : field ∈ mark field' (list_fields a) <-> field ∈ list_fields a).
  { rewrite elem_of_mark. split; [intros [? | ->]; done | by left]. }
  do 3 (case_bool_decide; [simpl; by rewrite ?lookup_insert_ne |]).
  destruct current, value; simpl; rewrite ?lookup_insert_ne by done;
    try (split; [done | exact Hmark]).
  destruct (_ || _); simpl; rewrite ?lookup_insert_ne by done; [| done].
  split; [done | exact Hmark].
Qed.

(** What a step does to a scalar accumulator of a field that is not
    list-valued when the chunk brings the scalar [v]. *)
Definition scalar_step (unknown_value field current v : string) : string :=
  if bool_decide (current = unknown_value) then v
  else if bool_decide (current = v) then current
  else resolve_conflict field current v.

Lemma merge_field_scalar unknown_value result a field current v :
  result !! field = Some (Scalar v) -> v <> unknown_value ->
  merged a !! field = Some (Scalar current) ->
  field ∉ list_fields a -> _is_list_field field = false ->
  merged (merge_field unknown_value result a field) !! field
    = Some (Scalar (scalar_step unknown_value field current v)) /\
  field ∉ list_fields (merge_field unknown_value result a field).
Proof.
  intros Hv Hvu Hcur Hnot Hlex. unfold merge_field, scalar_step. rewrite Hv, Hcur.
  rewrite bool_decide_eq_false_2 by (intros [= ->]; done).
  destruct (decide (current = unknown_value)) as [-> | Hcu].
  - rewrite !bool_decide_eq_true_2 by done. simpl. by rewrite lookup_insert_eq.
  - rewrite (bool_decide_eq_false_2 (Scalar current = _)) by (intros [= ->]; done).
    rewrite (bool_decide_eq_false_2 (current = unknown_value)) by done.
    destruct (decide (current = v)) as [-> | Hcv].
    + rewrite !bool_decide_eq_true_2 by done. done.
    + rewrite (bool_decide_eq_false_2 (Scalar current = _)) by (intros [= ->]; done).
      rewrite (bool_decide_eq_false_2 (current = v)) by done.
      rewrite (bool_decide_eq_false_2 (field ∈ _)), Hlex by done. simpl.
      by rewrite lookup_insert_eq.
Qed.

(** Once the accumulator is a value the step maps to itself, the rest of the
    loop over the fields keeps it. *)
Lemma merge_fields_stable unknown_value result field current v fields a :
  result !! field = Some (Scalar v) -> v <> unknown_value ->
  _is_list_field field = false ->
  scalar_step unknown_value field current v = current ->
  merged a !! field = Some (Scalar current) -> field ∉ list_fields a ->
  merged (fold_left (merge_field unknown_value result) fields a) !! field
    = Some (Scalar current) /\
  field ∉ list_fields (fold_left (merge_field unknown_value result) fields a).
Proof.
  intros Hv Hvu Hlex Hfix. revert a.
  induction fields as [|field' rest IH]; intros a Hcur Hnot; simpl; [done |].
  destruct (decide (field' = field)) as [-> | Hne].
  - destruct (merge_field_scalar unknown_value result a field current v) as [H1 H2];
      try done.
    apply IH; [by rewrite H1, Hfix | done].
  - destruct (merge_field_other unknown_value result a field field' Hne) as [H1 H2].
    apply IH; [by rewrite H1 | by rewrite H2].
Qed.

(** The loop over the fields for one chunk, seen from a requested scalar
    field. *)
Lemma merge_fields_scalar unknown_value result field current v fields a :
  result !! field = Some (Scalar v) -> v <> unknown_value ->
  _is_list_field field = false ->
  scalar_step unknown_value field (scalar_step unknown_value field current v) v
    = scalar_step unknown_value field current v ->
  field ∈ fields ->
  merged a !! field = Some (Scalar current) -> field ∉ list_fields a ->
  merged (fold_left (merge_field unknown_value result) fields a) !! field
    = Some (Scalar (scalar_step unknown_value field current v)) /\
  field ∉ list_fields (fold_left (merge_field unknown_value result) fields a).
Proof.
  intros Hv Hvu Hlex Hidem Hin. revert a.
  induction fields as [|field' rest IH]; intros a Hcur Hnot; simpl.
  - by apply elem_of_nil in Hin.
  - destruct (decide (field' = field)) as [-> | Hne].
    + destruct (merge_field_scalar unknown_value result a field current v) as [H1 H2];
        try done.
      by apply (merge_fields_stable unknown_value result field _ v).
    + destruct (merge_field_other unknown_value result a field field' Hne) as [H1 H2].
      apply elem_of_cons in Hin as [-> | Hin]; [done |].
      apply IH; [done | by rewrite H1 | by rewrite H2].
Qed.

Lemma merge_result_scalar unknown_value result field current v fields a :
  result !! field = Some (Scalar v) -> result !! "error" = None ->
  v <> unknown_value -> _is_list_field field = false ->
  scalar_step unknown_value field (scalar_step unknown_value field current v) v
    = scalar_step unknown_value field current v ->
  field ∈ fields ->
  merged a !! field = Some (Scalar current) -> field ∉ list_fields a ->
  merged (merge_result unknown_value fields a (Some result)) !! field
    = Some (Scalar (scalar_step unknown_value field current v)) /\
  field ∉ list_fields (merge_result unknown_value fields a (Some result)).
Proof.
  intros Hv Herr Hvu Hlex Hidem Hin Hcur Hnot. unfold merge_result, falsy.
  rewrite bool_decide_eq_false_2 by (intros ->; by rewrite lookup_empty in Hv).
  rewrite bool_decide_eq_false_2 by (rewrite Herr; by intros [? ?]).
  by apply merge_fields_scalar.
Qed.

Lemma initial_lookup unknown_value fields field :
  field ∈ fields -> merged (initial unknown_value fields) !! field = Some (Scalar unknown_value).
Proof.
  unfold initial. simpl. induction fields as [|field' rest IH]; intros Hin.
  - by apply elem_of_nil in Hin.
  - simpl. destruct (decide (field' = field)) as [-> | Hne].
    + by rewrite lookup_insert_eq.
    + rewrite lookup_insert_ne by done.
      apply elem_of_cons in Hin as [-> | Hin]; [done | by apply IH].
Qed.

Lemma post_process_untouched {W} (backend : W -> string -> list string -> backend_outcome * W)
    repr a w field :
  field ∉ list_fields a ->
  (post_process backend repr a w).1 !! field = to_json <$> (merged a !! field).
Proof.
  unfold post_process. rewrite <- lookup_fmap.
  generalize (to_json <$> merged a). revert w.
  induction (list_fields a) as [|field' rest IH]; intros w out Hnot; simpl; [done |].
  apply not_elem_of_cons in Hnot as [Hne Hnot].
  destruct (merged a !! field') as [[s | items] |]; try by apply IH.
  destruct (deduplicate_with_llm backend repr items field' w) as [deduplicated w'].
  rewrite IH by done. by rewrite lookup_insert_ne.
Qed.

Definition phone_formatted : string := "(555) 123-4567".
Definition phone_dashed : string := "555-123-4567".

Lemma phone_values_normalize field :
  Py.contains "phone" (Py.lower field) = true ->
  _normalize_field phone_formatted field = "5551234567" /\
  _normalize_field phone_dashed field = "5551234567" /\
  _format_quality_score phone_formatted field = 2 /\
  _format_quality_score phone_dashed field = 1.
Proof.
  intros Hphone. unfold _normalize_field, _format_quality_score.
  rewrite Hphone. repeat split; reflexivity.
Qed.

(** The chain keeps the formatted number whichever of the two comes first:
    by the formatting score when it is the accumulator, by its length when it
    is the newcomer. *)
Lemma phone_conflict field :
  Py.contains "phone" (Py.lower field) = true ->
  resolve_conflict field phone_formatted phone_dashed = phone_formatted /\
  resolve_conflict field phone_dashed phone_formatted = phone_formatted.
Proof.
  intros Hphone.
  destruct (phone_values_normalize field Hphone) as (Hn1 & Hn2 & Hs1 & Hs2).
  split; [| reflexivity].
  unfold resolve_conflict. rewrite Hn1, Hn2, Hs1, Hs2. reflexivity.
Qed.

(** Visiting a field a second time with the same chunk result changes
    nothing. *)
Lemma scalar_step_again unknown_value field current v :
  v <> unknown_value ->
  scalar_step unknown_value field (scalar_step unknown_value field current v) v
  = scalar_step unknown_value field current v.
Proof.
  intros Hv.
  assert (Hvv : scalar_step unknown_value field v v = v).
  { unfold scalar_step. rewrite bool_decide_eq_false_2 by done.
    by rewrite bool_decide_eq_true_2. }
  unfold scalar_step at 2 3.
  case_bool_decide; [exact Hvv |].
  case_bool_decide; [subst current; exact Hvv |].
  assert (Hsel : resolve_conflict field current v = current \/
                 resolve_conflict field current v = v).
  { unfold resolve_conflict.
    repeat match goal with |- context [if ?b then _ else _] => destruct b end; auto. }
  destruct Hsel as [Hsel | Hsel]; rewrite Hsel; [| exact Hvv].
  unfold scalar_step. rewrite !bool_decide_eq_false_2 by done. exact Hsel.
Qed.

(** Two chunk results that bring scalars for a requested field that is not
    list-valued: the second scalar meets the first one. *)
Lemma merge_two_scalars {W} (backend : W -> string -> list string -> backend_outcome * W)
    (repr : json -> string) settings fields field (ra rb : gmap string FieldValue)
    unknown_value (w : W) v1 v2 :
  field ∈ fields -> _is_list_field field = false ->
  ra !! field = Some (Scalar v1) -> rb !! field = Some (Scalar v2) ->
  ra !! "error" = None -> rb !! "error" = None ->
  v1 <> or_str unknown_value (UNKNOWN_VALUE settings) ->
  v2 <> or_str unknown_value (UNKNOWN_VALUE settings) ->
  (merge_results backend repr settings [Some ra; Some rb] fields unknown_value w).1 !! field
  = Some (JStr (scalar_step (or_str unknown_value (UNKNOWN_VALUE settings)) field v1 v2)).
Proof.
  intros Hin Hlex Ha Hb Hea Heb Hu1 Hu2.
  set (u := or_str unknown_value (UNKNOWN_VALUE settings)) in *.
  assert (Hfirst : scalar_step u field u v1 = v1).
  { unfold scalar_step. by rewrite bool_decide_eq_true_2. }
  pose proof (initial_lookup u fields field Hin) as Hinit.
  assert (Hnone : field ∉ list_fields (initial u fields)) by apply not_elem_of_nil.
  unfold merge_results, merge_loop. fold u. cbn [fold_left].
  destruct (merge_result_scalar u ra field u v1 fields (initial u fields))
    as [H1 H2]; try done; [by apply scalar_step_again |].
  rewrite Hfirst in H1.
  destruct (merge_result_scalar u rb field v1 v2 fields
              (merge_result u fields (initial u fields) (Some ra)))
    as [H3 H4]; try done; [by apply scalar_step_again |].
  rewrite post_process_untouched by done. by rewrite H3.
Qed.

(** C3: for a requested field whose name contains [phone] and no keyword of
    the list lexicon, merging two chunk results that carry ["(555) 123-4567"]
    and ["555-123-4567"] under that field gives ["(555) 123-4567"], in either
    order of the two results.  Both values normalise to the digit string
    ["5551234567"], and the formatting score of the first one is 2 against 1.
    When the formatted number comes second it wins by the first rule of the
    chain, being the longer one.  When it comes first neither that rule nor
    the substring rule decides, and the third rule does: for two different
    values with the same normalised form on which the first two rules are
    silent, the merge keeps the newcomer when its formatting score is
    strictly higher, and the value it holds otherwise. *)
Theorem phone_conflict_keeps_formatted {W}
    (backend : W -> string -> list string -> backend_outcome * W) (repr : json -> string)
    settings fields field (r1 r2 : gmap string FieldValue) unknown_value (w : W) :
  field ∈ fields ->
  Py.contains "phone" (Py.lower field) = true ->
  _is_list_field field = false ->
  r1 !! field = Some (Scalar phone_formatted) ->
  r2 !! field = Some (Scalar phone_dashed) ->
  r1 !! "error" = None -> r2 !! "error" = None ->
  or_str unknown_value (UNKNOWN_VALUE settings) <> phone_formatted ->
  or_str unknown_value (UNKNOWN_VALUE settings) <> phone_dashed ->
  (merge_results backend repr settings [Some r1; Some r2] fields unknown_value w).1 !! field
    = Some (JStr phone_formatted) /\
  (merge_results backend repr settings [Some r2; Some r1] fields unknown_value w).1 !! field
    = Some (JStr phone_formatted) /\
  _normalize_field phone_formatted field = "5551234567" /\
  _normalize_field phone_dashed field = "5551234567" /\
  _format_quality_score phone_formatted field = 2 /\
  _format_quality_score phone_dashed field = 1 /\
  (String.length phone_dashed <? String.length phone_formatted)%nat = true /\
  (String.length phone_formatted <? String.length phone_dashed)%nat = false /\
  Py.contains phone_dashed phone_formatted = false /\
  Py.contains phone_formatted phone_dashed = false /\
  forall (ra rb : gmap string FieldValue) v1 v2,
    ra !! field = Some (Scalar v1) -> rb !! field = Some (Scalar v2) ->
    ra !! "error" = None -> rb !! "error" = None ->
    v1 <> or_str unknown_value (UNKNOWN_VALUE settings) ->
    v2 <> or_str unknown_value (UNKNOWN_VALUE settings) ->
    v1 <> v2 ->
    (String.length v1 <? String.length v2)%nat = false ->
    Py.contains v2 v1 = false -> Py.contains v1 v2 = false ->
    _normalize_field v2 field = _normalize_field v1 field ->
    (merge_results backend repr settings [Some ra; Some rb] fields unknown_value w).1
      !! field
    = Some (JStr (if _format_quality_score v1 field <? _format_quality_score v2 field
                  then v2 else v1)).
Proof.
  intros Hin Hphone Hlex H1 H2 He1 He2 Hu1 Hu2.
  set (u := or_str unknown_value (UNKNOWN_VALUE settings)) in *.
  destruct (phone_conflict field Hphone) as [Hc1 Hc2].
  destruct (phone_values_normalize field Hphone) as (Hn1 & Hn2 & Hs1 & Hs2).
  assert (Hfd : scalar_step u field phone_formatted phone_dashed = phone_formatted).
  { unfold scalar_step. rewrite !bool_decide_eq_false_2 by done. exact Hc1. }
  assert (Hdf : scalar_step u field phone_dashed phone_formatted = phone_formatted).
  { unfold scalar_step. rewrite !bool_decide_eq_false_2 by done. exact Hc2. }
  split.
  { rewrite (merge_two_scalars backend repr settings fields field r1 r2 unknown_value w
               phone_formatted phone_dashed) by done.
    fold u. by rewrite Hfd. }
  split.
  { rewrite (merge_two_scalars backend repr settings fields field r2 r1 unknown_value w
               phone_dashed phone_formatted) by done.
    fold u. by rewrite Hdf. }
  do 8 (split; [done |]).
  intros ra rb v1 v2 Ha Hb Hea Heb Hv1 Hv2 Hne Hlen Hsub1 Hsub2 Hnorm.
  rewrite (merge_two_scalars backend repr settings fields field ra rb unknown_value w
             v1 v2) by done.
  fold u. do 2 f_equal. unfold scalar_step.
  rewrite !bool_decide_eq_false_2 by done.
  unfold resolve_conflict. rewrite Hlen, Hsub1, Hsub2, Hnorm.
  by rewrite String.eqb_refl.
Qed.

(** A dedup backend that is out of reach, and a rendering of the values that
    are not strings: the merges below consult neither. *)
Definition unreachable_backend (w : unit) (field_name : string) (items : list string)
  : backend_outcome * unit := (Failed BackendError, w).

Definition blank_repr (x : json) : string := "".

Definition phone_spaced : string := "555 123 4567".

Lemma phone_conflict_keeps_formatted_witness :
  (merge_results unreachable_backend blank_repr default_settings
     [Some {[ "name" := Scalar "John"; "phone" := Scalar phone_formatted ]};
      Some {[ "phone" := Scalar phone_dashed ]}]
     ["name"; "phone"] None tt).1 !! "phone" = Some (JStr phone_formatted) /\
  (merge_results unreachable_backend blank_repr default_settings
     [Some {[ "phone" := Scalar phone_dashed ]};
      Some {[ "name" := Scalar "John"; "phone" := Scalar phone_formatted ]}]
     ["name"; "phone"] None tt).1 !! "phone" = Some (JStr phone_formatted) /\
  _normalize_field phone_formatted "phone" = "5551234567" /\
  _normalize_field phone_dashed "phone" = "5551234567" /\
  _format_quality_score phone_formatted "phone" = 2 /\
  _format_quality_score phone_dashed "phone" = 1 /\
  (merge_results unreachable_backend blank_repr default_settings
     [Some {[ "phone" := Scalar phone_spaced ]};
      Some {[ "phone" := Scalar phone_dashed ]}]
     ["name"; "phone"] None tt).1 !! "phone" = Some (JStr phone_dashed).
Proof.
  destruct (phone_conflict_keeps_formatted unreachable_backend blank_repr default_settings
              ["name"; "phone"] "phone"
              {[ "name" := Scalar "John"; "phone" := Scalar phone_formatted ]}
              {[ "phone" := Scalar phone_dashed ]} None tt)
    as (Hfirst & Hsecond & Hn1 & Hn2 & Hs1 & Hs2 & _ & _ & _ & _ & Hrule).
  - apply list_elem_of_In. simpl. auto.
  - reflexivity.
  - reflexivity.
  - reflexivity.
  - reflexivity.
  - reflexivity.
  - reflexivity.
  - discriminate.
  - discriminate.
  - do 6 (split; [assumption |]).
    apply (Hrule {[ "phone" := Scalar phone_spaced ]} {[ "phone" := Scalar phone_dashed ]}
             phone_spaced phone_dashed); try reflexivity; discriminate.
Defined.

End MergerProps.

(** ** The final record when the chunks hold values of any JSON type *)

Module JsonMergerProps.
Import Merger Validators MergerProps.

(** A value of the data model: a string or a list of strings. *)
Definition text_or_texts (v : json) : bool :=
  match v with
  | JStr _ => true
  | JArr l => forallb is_str l
  | _ => false
  end.

Definition texts (m : gmap string json) : Prop :=
  map_Forall (fun _ v => text_or_texts v = true) m.

(** A chunk result whose values are values of the data model. *)
Definition well_typed (result : option (gmap string json)) : Prop :=
  forall r, result = Some r -> texts r.

Lemma as_list_texts v :
  text_or_texts v = true -> forallb is_str (JsonMerger.as_list v) = true.
Proof. by destruct v. Qed.

Lemma text_or_texts_array v : text_or_texts v = true -> text_or_array v.
Proof. destruct v; simpl; try done; intros _; [left | right]; eauto. Qed.

Lemma json_initial_dom unknown_value fields :
  dom (JsonMerger.merged (JsonMerger.initial unknown_value fields)) = list_to_set fields.
Proof.
  unfold JsonMerger.initial. simpl. rewrite dom_list_to_map_L. f_equal.
  rewrite <- list_fmap_compose. apply list_fmap_id.
Qed.

Lemma json_initial_texts unknown_value fields :
  texts (JsonMerger.merged (JsonMerger.initial unknown_value fields)).
Proof.
  unfold JsonMerger.initial. simpl. intros field v Hv.
  apply elem_of_list_to_map_2, list_elem_of_fmap in Hv as (field' & [= _ ->] & _). done.
Qed.

Lemma json_fallback_texts items kept :
  forallb is_str items = true ->
  exists l,
    fold_left (fun acc x =>
                 let* kept := acc in
                 if JsonMerger.hashable x
                 then Ok (if JsonMerger.py_elem x kept then kept else kept ++ [x])
                 else Raise TypeError)
              items (Ok kept) = Ok l.
Proof.
  revert kept. induction items as [| x rest IH]; intros kept Hall; simpl.
  - by exists kept.
  - apply andb_prop in Hall as [Hx Hrest]. destruct x; try done. simpl.
    by apply IH.
Qed.

Section Record.
Context {W : Type}.
Variable backend : W -> string -> list json -> backend_outcome * W.
Variable repr : json -> string.

Lemma json_resolve_conflict_selects field merged_value value :
  JsonMerger.resolve_conflict repr field merged_value value = merged_value \/
  JsonMerger.resolve_conflict repr field merged_value value = value.
Proof.
  unfold JsonMerger.resolve_conflict.
  repeat match goal with |- context [if ?b then _ else _] => destruct b end; auto.
Qed.

Lemma json_merge_field_dom unknown_value result a field :
  dom (JsonMerger.merged (JsonMerger.merge_field repr unknown_value result a field))
  = dom (JsonMerger.merged a).
Proof.
  unfold JsonMerger.merge_field.
  destruct (result !! field) as [value |]; [| done].
  destruct (JsonMerger.merged a !! field) as [current |] eqn:Hcur; [| done].
  assert (Hdom : forall v, dom (<[field := v]> (JsonMerger.merged a))
                           = dom (JsonMerger.merged a)).
  { intros v. rewrite dom_insert_L.
    apply subseteq_union_1_L, singleton_subseteq_l. by eapply elem_of_dom_2. }
  repeat match goal with |- context [if ?b then _ else _] => destruct b end;
    simpl; solve [done | apply Hdom].
Qed.

Lemma json_merge_field_texts unknown_value result a field :
  texts result -> texts (JsonMerger.merged a) ->
  texts (JsonMerger.merged (JsonMerger.merge_field repr unknown_value result a field)).
Proof.
  intros Hres Hacc. unfold JsonMerger.merge_field.
  destruct (result !! field) as [value |] eqn:Hv; [| done].
  destruct (JsonMerger.merged a !! field) as [current |] eqn:Hcur; [| done].
  pose proof (Hres _ _ Hv) as Hvalue. pose proof (Hacc _ _ Hcur) as Hcurrent.
  simpl in Hvalue, Hcurrent.
  assert (Hins : forall v, text_or_texts v = true ->
                           texts (<[field := v]> (JsonMerger.merged a))).
  { intros v Hok. by apply map_Forall_insert_2. }
  destruct (JsonMerger.py_eq value _); [done |].
  destruct (JsonMerger.py_eq current _); [by apply Hins |].
  destruct (JsonMerger.py_eq current value); [done |].
  destruct (JsonMerger.is_list value || JsonMerger.is_list current) eqn:Hlist.
  { apply Hins. cbn [text_or_texts]. rewrite forallb_app.
    by rewrite !as_list_texts. }
  apply orb_false_elim in Hlist as [Hl1 Hl2].
  assert (Hs1 : is_str value = true) by (by destruct value).
  assert (Hs2 : is_str current = true) by (by destruct current).
  destruct (_ || _).
  - apply Hins. cbn [text_or_texts].
    destruct (JsonMerger.py_elem value [current]); cbn [app forallb];
      by rewrite ?Hs1, ?Hs2.
  - apply Hins.
    by destruct (json_resolve_conflict_selects field current value) as [-> | ->].
Qed.

Lemma json_merge_loop_invariant unknown_value fields chunk_results :
  Forall well_typed chunk_results ->
  let a := JsonMerger.merge_loop repr unknown_value fields chunk_results in
  dom (JsonMerger.merged a) = list_to_set fields /\ texts (JsonMerger.merged a).
Proof.
  intros Hall. simpl. unfold JsonMerger.merge_loop.
  rewrite <- (json_initial_dom unknown_value fields).
  pose proof (json_initial_texts unknown_value fields) as Hinit.
  revert Hinit. generalize (JsonMerger.initial unknown_value fields).
  induction chunk_results as [| result rest IH]; intros a Ha; simpl; [done |].
  apply Forall_cons in Hall as [Hr Hall].
  assert (Hstep : dom (JsonMerger.merged
                         (JsonMerger.merge_result repr unknown_value fields a result))
                  = dom (JsonMerger.merged a) /\
                  texts (JsonMerger.merged
                           (JsonMerger.merge_result repr unknown_value fields a result))).
  { unfold JsonMerger.merge_result. destruct result as [r |]; [| done].
    destruct (JsonMerger.falsy _); [done |]. case_bool_decide; [done |].
    specialize (Hr r eq_refl). clear -Hr Ha. revert a Ha.
    induction fields as [| field fields' IHf]; intros a Ha; simpl; [done |].
    destruct (IHf (JsonMerger.merge_field repr unknown_value r a field)) as [Hd Ht].
    { by apply json_merge_field_texts. }
    split; [| done]. by rewrite Hd, json_merge_field_dom. }
  destruct Hstep as [Hd Ht]. destruct (IH Hall _ Ht) as [Hd' Ht'].
  split; [| done]. by rewrite Hd', Hd.
Qed.

(** On strings the deduplication returns, whatever the backend does. *)
Lemma json_deduplicate_returns items field_name (w : W) :
  forallb is_str items = true ->
  exists l w',
    JsonMerger.deduplicate_with_llm backend repr items field_name w = (Ok l, w').
Proof.
  intros Hall. unfold JsonMerger.deduplicate_with_llm.
  destruct items as [| x [| y rest]]; [by eexists _, _ | by eexists _, _ |].
  destruct (_ =? 1)%nat; [by eexists _, _ |].
  destruct (json_fallback_texts (x :: y :: rest) [] Hall) as [l Hl].
  destruct (backend w field_name (x :: y :: rest)) as [[response | e] w'].
  - destruct (JsonMerger.parse_response repr field_name (x :: y :: rest) response).
    + by eexists _, _.
    + unfold JsonMerger.fallback. rewrite Hl. by eexists _, _.
  - unfold JsonMerger.fallback. rewrite Hl. by eexists _, _.
Qed.

Lemma json_post_process_returns a (w : W) :
  texts (JsonMerger.merged a) ->
  exists out w',
    JsonMerger.post_process backend repr a w = (Ok out, w') /\
    dom out = dom (JsonMerger.merged a) /\
    map_Forall (fun _ v => text_or_array v) out.
Proof.
  intros Ha. unfold JsonMerger.post_process.
  set (step := fun (st : pyresult (gmap string json) * W) (field : string) => _).
  revert w.
  assert (Hgen : forall fields (w : W) (out : gmap string json),
            dom out = dom (JsonMerger.merged a) ->
            map_Forall (fun (_ : string) v => text_or_array v) out ->
            exists out' w',
              fold_left step fields (Ok out, w) = (Ok out', w') /\
              dom out' = dom (JsonMerger.merged a) /\
              map_Forall (fun (_ : string) v => text_or_array v) out').
  { induction fields as [| field rest IH]; intros w out Hd Hv.
    - by exists out, w.
    - cbn [fold_left]. unfold step at 2.
      destruct (JsonMerger.merged a !! field) as [v |] eqn:Hf; [| by apply IH].
      destruct v as [| | | | items |]; try by apply IH.
      pose proof (Ha _ _ Hf) as Hitems. simpl in Hitems.
      destruct (json_deduplicate_returns items field w Hitems) as (l & w' & ->).
      apply IH.
      + rewrite dom_insert_L, Hd.
        apply subseteq_union_1_L, singleton_subseteq_l. by eapply elem_of_dom_2.
      + apply map_Forall_insert_2; [right; eauto | done]. }
  intros w. apply Hgen; [done |].
  intros field v Hv. by eapply text_or_texts_array, Ha.
Qed.

(** C2 (amended): whenever [merge_results] returns, the record obtained by
    validating what it returns has exactly the requested fields as keys; and
    when the values the chunk results hold are strings or lists of strings,
    [merge_results] does return, and each value of the validated record is in
    exactly one of the three states: the sentinel, a scalar string, a
    list. *)
Theorem merged_record_total_and_tristate settings chunk_results fields unknown_value (w : W) :
  (forall merged_results w',
     JsonMerger.merge_results backend repr settings chunk_results fields unknown_value w
     = (Ok merged_results, w') ->
     dom (validate_fields settings merged_results fields unknown_value)
     = list_to_set fields) /\
  (Forall well_typed chunk_results ->
   exists merged_results w',
     JsonMerger.merge_results backend repr settings chunk_results fields unknown_value w
     = (Ok merged_results, w') /\
     forall field v,
       validate_fields settings merged_results fields unknown_value !! field = Some v ->
       exactly_one_state (or_str unknown_value (UNKNOWN_VALUE settings)) v).
Proof.
  split; [intros merged_results w' _; apply validate_fields_dom |].
  intros Hall. unfold JsonMerger.merge_results.
  destruct (json_merge_loop_invariant (or_str unknown_value (UNKNOWN_VALUE settings))
              fields chunk_results Hall) as [_ Htexts].
  destruct (json_post_process_returns _ w Htexts) as (out & w' & -> & _ & Hvalues).
  exists out, w'. split; [done |].
  intros field v Hv. apply text_or_array_state.
  revert field v Hv. apply validate_fields_values; [done |]. left. eauto.
Qed.

End Record.

(** A dedup backend that is out of reach. *)
Definition unreachable_json_backend (w : unit) (field_name : string) (items : list json)
  : backend_outcome * unit := (Failed BackendError, w).

Definition two_skills : list (option (gmap string json)) :=
  [Some {[ "name" := JStr "Ann"; "skills" := JArr [JStr "c"] ]};
   Some {[ "skills" := JArr [JStr "ocaml"] ]}].

Lemma merged_record_total_and_tristate_witness :
  Forall well_typed two_skills /\
  exists merged_results w',
    JsonMerger.merge_results unreachable_json_backend blank_repr default_settings
      two_skills ["name"; "skills"; "age"] None tt = (Ok merged_results, w') /\
    forall field v,
      validate_fields default_settings merged_results ["name"; "skills"; "age"] None
        !! field = Some v ->
      exactly_one_state "unknown" v.
Proof.
  assert (H : Forall well_typed two_skills).
  { unfold two_skills. apply Forall_cons. split.
    - intros r [= <-]. apply map_Forall_insert_2; [done |].
      apply map_Forall_insert_2; [done |]. apply map_Forall_empty.
    - apply Forall_cons. split; [| apply Forall_nil_2].
      intros r [= <-]. apply map_Forall_insert_2; [done |]. apply map_Forall_empty. }
  split; [exact H |].
  exact (proj2 (merged_record_total_and_tristate unreachable_json_backend blank_repr
                  default_settings two_skills ["name"; "skills"; "age"] None tt) H).
Defined.

Example merge_results_two_skills :
  (JsonMerger.merge_results unreachable_json_backend blank_repr default_settings
     two_skills ["name"; "skills"; "age"] None tt).1
  = Ok {[ "name" := JStr "Ann"; "skills" := JArr [JStr "c"; JStr "ocaml"];
          "age" := JStr "unknown" ]}.
Proof. reflexivity. Qed.

(** C2 (as stated, refuted): a chunk result that holds the number 42 under
    [age] gives a merged and validated record whose value under [age] is that
    number, which is neither the sentinel, nor a string, nor a list. *)
Lemma merged_record_number_state :
  exists merged_results,
    (JsonMerger.merge_results unreachable_json_backend blank_repr default_settings
       [Some {[ "age" := JNum 42 ]}] ["age"] None tt).1 = Ok merged_results /\
    validate_fields default_settings merged_results ["age"] None !! "age"
    = Some (JNum 42) /\
    ~ exactly_one_state "unknown" (JNum 42).
Proof.
  eexists. split; [reflexivity |]. split; [reflexivity |].
  unfold exactly_one_state, is_sentinel, is_scalar, is_list.
  intros [(H & _) | [(_ & (s & H & _) & _) | (_ & _ & (l & H))]]; discriminate.
Qed.

End JsonMergerProps.

(** ** Properties of the deduplicator *)

Module DedupProps.
Import Merger.

(** The list [items] with its exact duplicates removed, the first occurrence
    of every string kept in place (the fallback as the specification words
    it). *)
Fixpoint exact_dedup_first_seen (items : list string) : list string :=
  match items with
  | [] => []
  | x :: rest => x :: filter (fun y => y <> x) (exact_dedup_first_seen rest)
  end.

Lemma elem_of_exact_dedup x items : x ∈ exact_dedup_first_seen items <-> x ∈ items.
Proof.
  induction items as [|y rest IH]; simpl; [done |].
  rewrite !elem_of_cons, list_elem_of_filter, IH.
  destruct (decide (x = y)); naive_solver.
Qed.

Lemma filter_exact_dedup (P : string -> Prop) `{!forall x, Decision (P x)} items :
  filter P (exact_dedup_first_seen items) = exact_dedup_first_seen (filter P items).
Proof.
  induction items as [|x rest IH]; simpl; [done |].
  destruct (decide (P x)) as [HP | HP].
  - rewrite !filter_cons_True by done. simpl. f_equal.
    rewrite <- IH, !list_filter_filter. apply list_filter_iff. naive_solver.
  - rewrite !filter_cons_False by done. rewrite <- IH.
    rewrite list_filter_filter. apply list_filter_iff.
    intros y. split; [naive_solver |]. intros Hy. split; [done |]. by intros ->.
Qed.

Lemma fallback_from kept (seen : gset string) items :
  seen = list_to_set kept ->
  (fold_left (fun (st : list string * gset string) x =>
                let '(kept, seen) := st in
                if bool_decide (x ∈ seen) then (kept, seen)
                else (kept ++ [x], {[x]} ∪ seen))
             items (kept, seen)).1
  = kept ++ exact_dedup_first_seen (filter (fun y => y ∉ kept) items).
Proof.
  revert kept seen. induction items as [|x rest IH]; intros kept seen ->; simpl.
  - by rewrite app_nil_r.
  - case_bool_decide as Hx; rewrite elem_of_list_to_set in Hx.
    + rewrite filter_cons_False by (by intros ?). by apply IH.
    + rewrite filter_cons_True by done. simpl.
      rewrite (IH (kept ++ [x]) _); last first.
      { rewrite list_to_set_app_L. simpl. rewrite union_empty_r_L. apply (comm_L (∪)). }
      rewrite <- app_assoc. simpl. do 2 f_equal.
      rewrite filter_exact_dedup, list_filter_filter. f_equal.
      apply list_filter_iff. intros y.
      rewrite elem_of_app, list_elem_of_singleton. naive_solver.
Qed.

(** The comprehension over the [seen] set computes the first-seen
    deduplication. *)
Lemma fallback_exact_dedup items : fallback items = exact_dedup_first_seen items.
Proof.
  unfold fallback. rewrite (fallback_from [] ∅ items) by done. simpl. f_equal.
  induction items as [|x rest IH]; [done |].
  rewrite filter_cons_True by apply not_elem_of_nil. by rewrite IH.
Qed.

Lemma elem_of_unique_from (x : string) items acc :
  x ∈ fold_left (fun unique_items item =>
                   if bool_decide (item ∈ unique_items) then unique_items
                   else unique_items ++ [item]) items acc
  <-> x ∈ acc \/ x ∈ items.
Proof.
  revert acc. induction items as [|y rest IH]; intros acc; simpl.
  - rewrite elem_of_nil. naive_solver.
  - rewrite IH, elem_of_cons. case_bool_decide as Hy.
    + split; [naive_solver |]. intros [? | [-> | ?]]; auto.
    + rewrite elem_of_app, list_elem_of_singleton. naive_solver.
Qed.

Lemma elem_of_unique x items : x ∈ unique items <-> x ∈ items.
Proof.
  unfold unique. rewrite elem_of_unique_from, elem_of_nil. naive_solver.
Qed.

(** *** Shapes of a backend response *)

(** A dict that has the key [deduplicated_items] with an array under it. *)
Definition wraps_array (response : json) : bool :=
  match response with
  | JObj members =>
      match member "deduplicated_items" members with
      | Some (JArr _) => true
      | _ => false
      end
  | _ => false
  end.

(** A list whose first element is such a dict. *)
Definition nested_wraps_array (response : json) : bool :=
  match response with
  | JArr (first :: _) => wraps_array first
  | _ => false
  end.

Definition list_of_dicts (response : json) : bool :=
  match response with
  | JArr l => forallb is_dict l
  | _ => false
  end.

Definition list_of_strings (response : json) : bool :=
  match response with
  | JArr l => forallb is_str l
  | _ => false
  end.

(** The shapes [deduplicate_with_llm] has a branch for. *)
Definition accepted_shape (response : json) : bool :=
  wraps_array response || nested_wraps_array response
  || list_of_dicts response || list_of_strings response.

(** The three shapes of the specification: a flat array of strings, a record
    with a single key whose value is an array, a list of dictionaries. *)
Definition single_key_array_record (response : json) : bool :=
  match response with
  | JObj [(_, JArr _)] => true
  | _ => false
  end.

Definition specified_shape (response : json) : bool :=
  list_of_strings response || single_key_array_record response || list_of_dicts response.

Section Fallback.
Context {W : Type}.
Variable backend : W -> string -> list string -> backend_outcome * W.
Variable repr : json -> string.

Lemma strings_or_fallback_unaccepted items response :
  list_of_strings response = false ->
  strings_or_fallback items response = JStr <$> fallback items.
Proof.
  unfold strings_or_fallback, list_of_strings.
  destruct response; try done. by intros ->.
Qed.

(** On a response of no accepted shape the [try] block either reaches one of
    its fallback returns or raises. *)
Lemma parse_response_unaccepted field_name items response :
  accepted_shape response = false ->
  parse_response repr field_name items response = Ok (JStr <$> fallback items) \/
  exists e, parse_response repr field_name items response = Raise e.
Proof.
  unfold accepted_shape. intros Hshape.
  apply orb_false_elim in Hshape as [Hshape Hstr].
  apply orb_false_elim in Hshape as [Hshape Hdicts].
  apply orb_false_elim in Hshape as [Hwrap Hnested].
  pose proof (strings_or_fallback_unaccepted items response Hstr) as Hfall.
  unfold parse_response.
  destruct response as [| b | n | s | l | members]; simpl;
    try (right; eexists; reflexivity).
  - destruct (Py.contains _ s); simpl; [right; eexists; reflexivity | by left].
  - destruct (existsb _ l); simpl; [right; eexists; reflexivity |].
    simpl in Hdicts, Hnested, Hstr. left.
    destruct l as [| first rest]; [done |].
    destruct first as [| b | n | s | l' | members];
      try (by rewrite Hdicts, Hstr).
    simpl in Hnested.
    destruct (member "deduplicated_items" members) as [nested |].
    + destruct nested; try done; by rewrite Hstr.
    + by rewrite Hdicts, Hstr.
  - simpl in Hwrap.
    destruct (member "deduplicated_items" members) as [v |] eqn:Hmem; simpl.
    + left. by destruct v.
    + by left.
Qed.

(** Whether the call gives [deduplicate_with_llm] nothing it has a branch
    for: it raised, or it returned a response of no accepted shape. *)
Definition unusable (answer : backend_outcome) : bool :=
  match answer with
  | Failed _ => true
  | Responded response => negb (accepted_shape response)
  end.

(** C8 (amended): for an item list with at least two distinct entries, when
    the backend call raises or returns a response that is neither a dict
    holding an array under [deduplicated_items], nor a list whose first
    element is such a dict, nor a list of dicts, nor a list of strings,
    [deduplicate_with_llm] returns the items with their exact duplicates
    removed in first-seen order.  The function is total: it returns in every
    case. *)
Theorem deduplicate_with_llm_falls_back items field_name (w w' : W) answer x y :
  x ∈ items -> y ∈ items -> x <> y ->
  backend w field_name items = (answer, w') ->
  unusable answer = true ->
  deduplicate_with_llm backend repr items field_name w
    = (JStr <$> exact_dedup_first_seen items, w').
Proof.
  intros Hx Hy Hxy Hcall Hbad. unfold deduplicate_with_llm.
  destruct items as [| a [| b rest]].
  - by apply elem_of_nil in Hx.
  - apply list_elem_of_singleton in Hx, Hy. congruence.
  - destruct (length (unique (a :: b :: rest)) =? 1)%nat eqn:Hlen.
    + exfalso. apply Nat.eqb_eq in Hlen.
      apply elem_of_unique in Hx, Hy.
      destruct (unique (a :: b :: rest)) as [| z [| ? ?]]; try done.
      apply list_elem_of_singleton in Hx, Hy. congruence.
    + rewrite Hcall, <- fallback_exact_dedup.
      destruct answer as [response | e]; [| done].
      simpl in Hbad. apply negb_true_iff in Hbad.
      destruct (parse_response_unaccepted field_name (a :: b :: rest) response Hbad)
        as [-> | [e ->]]; done.
Qed.

End Fallback.

(** A backend that answers every call with [response]. *)
Definition answering (response : json) (w : unit) (field_name : string)
    (items : list string) : backend_outcome * unit :=
  (Responded response, w).

Definition failing (w : unit) (field_name : string) (items : list string)
  : backend_outcome * unit :=
  (Failed BackendError, w).

Lemma deduplicate_with_llm_falls_back_witness :
  deduplicate_with_llm failing MergerProps.blank_repr ["b"; "a"; "b"] "skills" tt
    = ([JStr "b"; JStr "a"], tt) /\
  deduplicate_with_llm (answering (JStr "No duplicates found."))
    MergerProps.blank_repr ["b"; "a"; "b"] "skills" tt
    = ([JStr "b"; JStr "a"], tt).
Proof.
  split.
  - apply (deduplicate_with_llm_falls_back failing MergerProps.blank_repr
             ["b"; "a"; "b"] "skills" tt tt (Failed BackendError) "b" "a").
    + apply list_elem_of_In. simpl. auto.
    + apply list_elem_of_In. simpl. auto.
    + discriminate.
    + reflexivity.
    + reflexivity.
  - apply (deduplicate_with_llm_falls_back
             (answering (JStr "No duplicates found.")) MergerProps.blank_repr
             ["b"; "a"; "b"] "skills" tt tt
             (Responded (JStr "No duplicates found.")) "b" "a").
    + apply list_elem_of_In. simpl. auto.
    + apply list_elem_of_In. simpl. auto.
    + discriminate.
    + reflexivity.
    + reflexivity.
Defined.

(** C8 (as stated, refuted): two responses that have none of the three
    specified shapes and that [deduplicate_with_llm] nevertheless uses
    instead of falling back.  The first is a list whose first element wraps
    an array under [deduplicated_items] and whose second element is a string;
    the second is a record with two keys. *)
Lemma deduplicate_with_llm_uses_other_shapes :
  let mixed := JArr [JObj [("deduplicated_items", JArr [])]; JStr "note"] in
  let two_keys := JObj [("deduplicated_items", JArr [JStr "a"]); ("note", JStr "merged")] in
  specified_shape mixed = false /\
  (deduplicate_with_llm (answering mixed) MergerProps.blank_repr ["a"; "b"] "skills" tt).1
    = [] /\
  specified_shape two_keys = false /\
  (deduplicate_with_llm (answering two_keys) MergerProps.blank_repr ["a"; "b"] "skills" tt).1
    = [JStr "a"] /\
  JStr <$> exact_dedup_first_seen ["a"; "b"] = [JStr "a"; JStr "b"].
Proof. repeat split; reflexivity. Qed.

End DedupProps.

(** ** Properties of the normalizer *)

Module ValidatorsProps.
Import Validators.Dates.

Example strptime_abbreviated :
  strptime "Feb 9, 1949" "%b %d, %Y" = Ok {| year := 1949; month := 2; day := 9 |}.
Proof. reflexivity. Qed.

Example strptime_day_first_rejected : strptime "12/31/1999" "%d/%m/%Y" = Raise ValueError.
Proof. reflexivity. Qed.

Example strptime_no_such_day : strptime "29.02.1900" "%d.%m.%Y" = Raise ValueError.
Proof. reflexivity. Qed.

(** [strptime] on a string raises nothing but [ValueError]. *)
Lemma strptime_raises_value_error date_str fmt e :
  strptime date_str fmt = Raise e -> e = ValueError.
Proof.
  unfold strptime. destruct (compile fmt) as [items |]; [| congruence].
  destruct (matches items date_str no_groups) as [| [g rest] others]; [congruence |].
  destruct (negb _); [congruence |].
  destruct (_ && _); congruence.
Qed.

Definition rejects (date_str fmt : string) : Prop :=
  strptime date_str fmt = Raise ValueError.

(** The loop over the formats stops at the first one that parses. *)
Lemma first_parsed_spec date_str fmts :
  (exists before fmt after d,
     fmts = before ++ fmt :: after /\ Forall (rejects date_str) before /\
     strptime date_str fmt = Ok d /\ first_parsed date_str fmts = Ok (Some d)) \/
  (Forall (rejects date_str) fmts /\ first_parsed date_str fmts = Ok None).
Proof.
  induction fmts as [| fmt rest IH]; simpl.
  - right. by split.
  - destruct (strptime date_str fmt) as [d | e] eqn:Hfmt.
    + left. exists [], fmt, rest, d. by repeat split.
    + pose proof (strptime_raises_value_error _ _ _ Hfmt) as ->.
      destruct IH as [(before & fmt' & after & d & -> & Hbefore & Hparse & Hfirst)
                     | [Hall Hnone]].
      * left. exists (fmt :: before), fmt', after, d.
        repeat split; try done. by constructor.
      * right. split; [by constructor | done].
Qed.

(** C9: [normalize_date] returns normally.  Its result is the date read by the
    first candidate format that parses the input, written in the target
    format, or the input itself when no candidate format parses it.  With the
    target format [dd/mm/YYYY], ["Feb 9, 1949"] becomes ["09/02/1949"] and
    ["a long time ago"] comes back unchanged. *)
Theorem normalize_date_first_format_or_unchanged settings platform date_str date_format :
  ((exists before fmt after d,
      formats = before ++ fmt :: after /\ Forall (rejects date_str) before /\
      strptime date_str fmt = Ok d /\
      normalize_date settings platform date_str date_format
        = Ok (strftime platform d
                (py_format_of (or_str date_format (DATE_FORMAT settings))))) \/
   (Forall (rejects date_str) formats /\
    normalize_date settings platform date_str date_format = Ok date_str)) /\
  normalize_date settings platform "Feb 9, 1949" (Some "dd/mm/YYYY") = Ok "09/02/1949" /\
  normalize_date settings platform "a long time ago" (Some "dd/mm/YYYY")
    = Ok "a long time ago".
Proof.
  split; [| split; reflexivity].
  unfold normalize_date.
  destruct (first_parsed_spec date_str formats)
    as [(before & fmt & after & d & Hsplit & Hbefore & Hparse & ->) | [Hall ->]].
  - left. exists before, fmt, after, d. by repeat split.
  - right. by split.
Qed.

End ValidatorsProps.

(** ** More on the Python prelude: words and separators *)

Module TextProps.

#[local] Arguments String.append !_ _ / : simpl nomatch.

Lemma app_empty_r s : s +:+ "" = s.
Proof. induction s as [| c s IH]; simpl; [done | by rewrite IH]. Qed.

Lemma app_assoc_str a b c : (a +:+ b) +:+ c = a +:+ (b +:+ c).
Proof. induction a as [| x a IH]; simpl; [done | by rewrite IH]. Qed.

Lemma is_empty_app a b : Py.is_empty (a +:+ b) = Py.is_empty a && Py.is_empty b.
Proof. by destruct a. Qed.

Lemma any_char_app p a b : Py.any_char p (a +:+ b) = Py.any_char p a || Py.any_char p b.
Proof.
  induction a as [| x a IH]; simpl; [done |]. by rewrite IH, orb_assoc.
Qed.

(** A word: a non-empty string without whitespace. *)
Definition wordlike (w : string) : Prop :=
  Py.is_empty w = false /\ Py.any_char Py.isspace w = false.

Lemma split_aux_wordlike s acc :
  Py.any_char Py.isspace acc = false -> Forall wordlike (Py.split_aux acc s).
Proof.
  revert acc. induction s as [| c s IH]; intros acc Hacc; simpl.
  - destruct (Py.is_empty acc) eqn:E; [constructor |].
    constructor; [by split | constructor].
  - destruct (Py.isspace c) eqn:Hc.
    + destruct (Py.is_empty acc) eqn:E; [by apply IH |].
      constructor; [by split | by apply IH].
    + apply IH. rewrite any_char_app, Hacc. simpl. by rewrite Hc.
Qed.

(** The pieces [split] returns are words. *)
Lemma split_wordlike text : Forall wordlike (Py.split text).
Proof. by apply split_aux_wordlike. Qed.

Lemma split_aux_word w acc rest :
  Py.any_char Py.isspace w = false ->
  Py.split_aux acc (w +:+ rest) = Py.split_aux (acc +:+ w) rest.
Proof.
  revert acc. induction w as [| c w IH]; intros acc Hw; simpl.
  - by rewrite app_empty_r.
  - simpl in Hw. apply orb_false_elim in Hw as [Hc Hw].
    rewrite Hc, IH by done. by rewrite app_assoc_str.
Qed.

Lemma split_aux_space acc rest :
  Py.is_empty acc = false ->
  Py.split_aux acc (String " " rest) = acc :: Py.split_aux "" rest.
Proof. intros Hne. simpl. by rewrite Hne. Qed.

(** Splitting a list of words joined by single spaces gives the words
    back. *)
Lemma split_join ws : Forall wordlike ws -> Py.split (Py.join " " ws) = ws.
Proof.
  unfold Py.split, Py.join.
  induction 1 as [| w ws [Hne Hw] Hws IH]; [done |].
  destruct ws as [| w' ws'].
  - simpl. rewrite <- (app_empty_r w) at 1.
    rewrite split_aux_word by done. simpl. by rewrite Hne.
  - change (String.concat " " (w :: w' :: ws'))
      with (w +:+ String " " (String.concat " " (w' :: ws'))).
    rewrite split_aux_word by done.
    change ("" +:+ w) with w. rewrite split_aux_space by done. by rewrite IH.
Qed.

(** The words of a text, joined and split again, are the words of the
    text. *)
Lemma split_join_split text l :
  l ⊆ Py.split text -> Py.split (Py.join " " l) = l.
Proof.
  intros Hsub. apply split_join. apply Forall_forall. intros w Hw.
  pose proof (split_wordlike text) as Hall. rewrite Forall_forall in Hall.
  apply Hall, Hsub, Hw.
Qed.

End TextProps.

(** ** More on the segmenter: the windows of the word mode *)

Module ChunkerWindows.
Import Chunker PyProps ChunkerProps TextProps.

(** The windows of [size] words that start every [step] words, [count] of
    them. *)
Definition windows (words : list string) (size step count : nat) : list (list string) :=
  (fun k => take size (drop (k * step) words)) <$> seq 0 count.

(** The number of windows [range(0, n, step)] gives. *)
Definition window_count (n step : nat) : nat :=
  Z.to_nat (Py.range_len 0 (Z.of_nat n) (Z.of_nat step)).

Lemma window_count_spec n step :
  (0 < step)%nat ->
  (n <= window_count n step * step)%nat /\
  (forall k, k < window_count n step -> k * step < n)%nat.
Proof.
  intros Hstep. unfold window_count.
  destruct (ExecutorProps.range_len_forward (Z.of_nat n) (Z.of_nat step))
    as (Hin & Hall & Hpos); [lia | lia |].
  split; [nia |]. intros k Hk.
  specialize (Hin (Z.of_nat k)). lia.
Qed.

Lemma lookup_windows words size step count k :
  (k < count)%nat ->
  windows words size step count !! k = Some (take size (drop (k * step) words)).
Proof.
  intros Hk. unfold windows. rewrite list_lookup_fmap, lookup_seq_lt by done. done.
Qed.

Lemma fold_window_step_all words cs mn starts chunks :
  mn <= cs -> Forall (fun i => 0 <= i) starts ->
  fold_left (window_step words cs mn) starts chunks
    = chunks ++ ((fun i => Py.join " " (Py.slice words i (i + cs))) <$> starts).
Proof.
  intros Hmn Hstarts. revert chunks.
  induction Hstarts as [| i starts Hi _ IH]; intros chunks; simpl.
  - by rewrite app_nil_r.
  - rewrite window_step_never_skips, IH by done. by rewrite <- app_assoc.
Qed.

(** With an overlap below the window size and a minimum not above it,
    [chunk_text] returns every window, joined by single spaces. *)
Lemma chunk_text_windows settings text cs ov mn :
  let size := or_int cs (CHUNK_SIZE settings) in
  let overlap := or_int ov (CHUNK_OVERLAP settings) in
  let words := Py.split text in
  0 <= overlap < size -> or_int mn (MIN_CHUNK_SIZE settings) <= size ->
  size < Z.of_nat (length words) ->
  chunk_text settings text cs ov mn =
    Ok (Py.join " " <$> windows words (Z.to_nat size) (Z.to_nat (size - overlap))
                          (window_count (length words) (Z.to_nat (size - overlap)))).
Proof.
  intros size overlap words Hov Hmn Hlong.
  rewrite chunk_text_long by done. fold size overlap words.
  unfold Py.range. destruct (size - overlap =? 0) eqn:E; [apply Z.eqb_eq in E; lia |].
  simpl. f_equal.
  rewrite fold_window_step_all; [| done |].
  - simpl. unfold windows, window_count. rewrite Z2Nat.id by lia.
    rewrite <- !list_fmap_compose. apply list_fmap_ext.
    intros _ k _. simpl. f_equal.
    rewrite slice_block by nia. do 2 f_equal.
    rewrite Z.add_0_l, Z2Nat.inj_mul, Nat2Z.id by lia. done.
  - apply Forall_forall. intros i Hi.
    apply list_elem_of_fmap in Hi as (k & -> & _). nia.
Qed.

(** X1: with an overlap below the window size and a minimum not above it,
    every word of a text longer than the window is in a chunk: the word at
    position [j] is the word number [j mod step] of the window number
    [j / step], where [step] is the window size less the overlap. *)
Theorem chunk_text_covers_every_word settings text cs ov mn :
  let size := or_int cs (CHUNK_SIZE settings) in
  let overlap := or_int ov (CHUNK_OVERLAP settings) in
  let step := Z.to_nat (size - overlap) in
  let words := Py.split text in
  0 <= overlap < size -> or_int mn (MIN_CHUNK_SIZE settings) <= size ->
  size < Z.of_nat (length words) ->
  exists ws,
    chunk_text settings text cs ov mn = Ok (Py.join " " <$> ws) /\
    forall j w, words !! j = Some w ->
      exists window, ws !! (j / step)%nat = Some window /\
                     window !! (j mod step)%nat = Some w.
Proof.
  intros size overlap step words Hov Hmn Hlong.
  eexists. split; [by apply chunk_text_windows |].
  fold size overlap words step. intros j w Hj.
  assert (Hstep : (0 < step)%nat) by (unfold step; lia).
  destruct (window_count_spec (length words) step Hstep) as [Hall Hin].
  pose proof (lookup_lt_Some _ _ _ Hj) as Hjn.
  pose proof (Nat.div_mod_eq j step) as Hdm.
  pose proof (Nat.mod_upper_bound j step ltac:(lia)) as Hmod.
  eexists. split.
  - apply lookup_windows.
    destruct (decide (j / step < window_count (length words) step)%nat); [done |].
    exfalso. nia.
  - rewrite lookup_take_lt by (unfold step in *; lia).
    rewrite lookup_drop, <- Hj. f_equal. lia.
Qed.

Lemma chunk_text_covers_every_word_witness :
  exists ws,
    chunk_text default_settings "a b c d e" (Some 3) (Some 1) (Some 2)
      = Ok (Py.join " " <$> ws) /\
    forall j w, Py.split "a b c d e" !! j = Some w ->
      exists window, ws !! (j / 2)%nat = Some window /\
                     window !! (j mod 2)%nat = Some w.
Proof.
  apply (chunk_text_covers_every_word default_settings "a b c d e"
           (Some 3) (Some 1) (Some 2)); simpl; lia.
Defined.

(** X2: under the same conditions the overlap is honoured: the first window
    holds the first [size] words, and every window after it starts with the
    words the previous one holds from its position [step] on, that is with
    its last [overlap] words when it is a full window. *)
Theorem chunk_text_windows_overlap settings text cs ov mn :
  let size := or_int cs (CHUNK_SIZE settings) in
  let overlap := or_int ov (CHUNK_OVERLAP settings) in
  let step := Z.to_nat (size - overlap) in
  let words := Py.split text in
  0 <= overlap < size -> or_int mn (MIN_CHUNK_SIZE settings) <= size ->
  size < Z.of_nat (length words) ->
  exists ws,
    chunk_text settings text cs ov mn = Ok (Py.join " " <$> ws) /\
    ws !! 0%nat = Some (take (Z.to_nat size) words) /\
    forall k window next, ws !! k = Some window -> ws !! S k = Some next ->
      take (Z.to_nat overlap) next = drop step window.
Proof.
  intros size overlap step words Hov Hmn Hlong.
  eexists. split; [by apply chunk_text_windows |].
  fold size overlap words step.
  assert (Hstep : (0 < step)%nat) by (unfold step; lia).
  destruct (window_count_spec (length words) step Hstep) as [Hall Hin].
  split.
  - rewrite lookup_windows by (destruct (window_count (length words) step); lia).
    by rewrite drop_0.
  - intros k window next Hk Hnext.
    assert (Hlt : (S k < window_count (length words) step)%nat).
    { apply lookup_lt_Some in Hnext. unfold windows in Hnext.
      by rewrite length_fmap, length_seq in Hnext. }
    rewrite lookup_windows in Hk, Hnext by lia.
    injection Hk as <-. injection Hnext as <-.
    rewrite take_take, skipn_firstn_comm, drop_drop.
    f_equal; [unfold step; lia | f_equal; lia].
Qed.

Lemma chunk_text_windows_overlap_witness :
  exists ws,
    chunk_text default_settings "a b c d e" (Some 3) (Some 1) (Some 2)
      = Ok (Py.join " " <$> ws) /\
    ws !! 0%nat = Some (take 3 (Py.split "a b c d e")) /\
    forall k window next, ws !! k = Some window -> ws !! S k = Some next ->
      take 1 next = drop 2 window.
Proof.
  apply (chunk_text_windows_overlap default_settings "a b c d e"
           (Some 3) (Some 1) (Some 2)); simpl; lia.
Defined.

(** X3: under the same conditions [chunk_text] returns [ceil(n / step)]
    chunks for a text of [n] words, and each chunk, split again, has at
    least one word and at most [size] words. *)
Theorem chunk_text_count_and_sizes settings text cs ov mn :
  let size := or_int cs (CHUNK_SIZE settings) in
  let overlap := or_int ov (CHUNK_OVERLAP settings) in
  let n := Z.of_nat (length (Py.split text)) in
  0 <= overlap < size -> or_int mn (MIN_CHUNK_SIZE settings) <= size ->
  size < n ->
  exists chunks,
    chunk_text settings text cs ov mn = Ok chunks /\
    Z.of_nat (length chunks) = (n + (size - overlap) - 1) / (size - overlap) /\
    forall chunk, chunk ∈ chunks ->
      1 <= Z.of_nat (length (Py.split chunk)) <= size.
Proof.
  intros size overlap n Hov Hmn Hlong.
  eexists. split; [by apply chunk_text_windows |].
  fold size overlap.
  set (step := Z.to_nat (size - overlap)).
  set (words := Py.split text) in *.
  assert (Hstep : (0 < step)%nat) by (unfold step; lia).
  destruct (window_count_spec (length words) step Hstep) as [Hall Hin].
  split.
  - unfold windows. rewrite !length_fmap, length_seq.
    unfold window_count, Py.range_len, step.
    rewrite (Z2Nat.id (size - overlap)) by lia.
    destruct (0 <? size - overlap) eqn:E1; [| apply Z.ltb_ge in E1; lia].
    destruct (0 <? Z.of_nat (length words)) eqn:E2; [| apply Z.ltb_ge in E2; lia].
    rewrite Z.sub_0_r.
    replace (n + (size - overlap) - 1) with (n - 1 + 1 * (size - overlap)) by lia.
    rewrite Z.div_add by lia.
    pose proof (Z.div_pos (n - 1) (size - overlap) ltac:(lia) ltac:(lia)).
    fold n. lia.
  - intros chunk Hchunk.
    apply list_elem_of_fmap in Hchunk as (window & -> & Hwindow).
    apply list_elem_of_fmap in Hwindow as (k & -> & Hk).
    apply elem_of_seq in Hk.
    rewrite (split_join_split text).
    + rewrite length_take, length_drop. fold words.
      specialize (Hin k ltac:(lia)). lia.
    + intros w Hw. by apply subseteq_take, subseteq_drop in Hw.
Qed.

Lemma chunk_text_count_and_sizes_witness :
  exists chunks,
    chunk_text default_settings "a b c d e" (Some 3) (Some 1) (Some 2) = Ok chunks /\
    Z.of_nat (length chunks) = (5 + (3 - 1) - 1) / (3 - 1) /\
    forall chunk, chunk ∈ chunks ->
      1 <= Z.of_nat (length (Py.split chunk)) <= 3.
Proof.
  apply (chunk_text_count_and_sizes default_settings "a b c d e"
           (Some 3) (Some 1) (Some 2)); simpl; lia.
Defined.

Lemma fold_window_step_short words cs mn starts chunks :
  0 < cs < mn -> Forall (fun i => 0 <= i) starts ->
  fold_left (window_step words cs mn) starts chunks
    = chunks ++ ((fun i => Py.join " " (drop (Z.to_nat i) words))
                   <$> filter (fun i => Z.of_nat (length words) <= i + cs) starts).
Proof.
  intros Hcs Hstarts. revert chunks.
  induction Hstarts as [| i starts Hi _ IH]; intros chunks; simpl.
  - by rewrite app_nil_r.
  - rewrite IH. unfold window_step at 1.
    rewrite slice_block by lia.
    destruct (_ <? mn) eqn:Hshort; last first.
    { apply Z.ltb_ge in Hshort. rewrite length_take in Hshort. lia. }
    destruct (i + cs <? _) eqn:Hinner; simpl.
    + apply Z.ltb_lt in Hinner. by rewrite filter_cons_False by lia.
    + apply Z.ltb_ge in Hinner. rewrite filter_cons_True by lia. simpl.
      rewrite <- app_assoc. simpl. rewrite take_ge; [done |].
      rewrite length_drop. lia.
Qed.

(** X4: with a window size below the minimum chunk size (and an overlap
    below the window size), [chunk_text] drops every window that ends before
    the end of the text.  Each chunk it returns is a tail of the text of at
    most [size] words; there is at least one; the words before the last
    [size] ones are in no chunk. *)
Theorem chunk_text_small_window_keeps_tail settings text cs ov mn :
  let size := or_int cs (CHUNK_SIZE settings) in
  let overlap := or_int ov (CHUNK_OVERLAP settings) in
  let words := Py.split text in
  0 <= overlap < size -> size < or_int mn (MIN_CHUNK_SIZE settings) ->
  size < Z.of_nat (length words) ->
  exists kept : list nat,
    chunk_text settings text cs ov mn
      = Ok ((fun i => Py.join " " (drop i words)) <$> kept) /\
    kept <> [] /\
    forall i, i ∈ kept ->
      (i < length words)%nat /\ Z.of_nat (length words) <= Z.of_nat i + size.
Proof.
  intros size overlap words Hov Hmn Hlong.
  rewrite chunk_text_long by done. fold size overlap words.
  unfold Py.range. destruct (size - overlap =? 0) eqn:E; [apply Z.eqb_eq in E; lia |].
  simpl.
  set (starts := List.map _ _).
  destruct (ExecutorProps.range_len_forward (Z.of_nat (length words)) (size - overlap))
    as (Hin & Hall & Hpos); [lia | lia |].
  assert (Hstarts : forall i, i ∈ starts ->
            0 <= i < Z.of_nat (length words)).
  { intros i Hi. apply list_elem_of_In, in_map_iff in Hi as (k & <- & Hk).
    apply in_seq in Hk. specialize (Hin (Z.of_nat k)). nia. }
  rewrite fold_window_step_short;
    [| lia | apply Forall_forall; intros i Hi; by apply Hstarts].
  simpl.
  exists (Z.to_nat <$> filter (fun i => Z.of_nat (length words) <= i + size) starts).
  split; [by rewrite <- list_fmap_compose |]. split.
  - assert (Hrl : 1 <= Py.range_len 0 (Z.of_nat (length words)) (size - overlap)) by nia.
    set (last :=
      (Z.to_nat (Py.range_len 0 (Z.of_nat (length words)) (size - overlap)) - 1)%nat).
    assert (Hlast_eq : Z.of_nat last
              = Py.range_len 0 (Z.of_nat (length words)) (size - overlap) - 1)
      by (unfold last; lia).
    assert (Hlast : 0 + Z.of_nat last * (size - overlap) ∈
              filter (fun i => Z.of_nat (length words) <= i + size) starts).
    { apply list_elem_of_filter. split; [rewrite Hlast_eq; nia |].
      apply list_elem_of_In, in_map_iff. exists last. split; [done |].
      apply in_seq. lia. }
    intros Hnil. apply fmap_nil_inv in Hnil. rewrite Hnil in Hlast.
    by apply elem_of_nil in Hlast.
  - intros i Hi. apply list_elem_of_fmap in Hi as (z & -> & Hz).
    apply list_elem_of_filter in Hz as [Hz1 Hz2]. apply Hstarts in Hz2. lia.
Qed.

Lemma chunk_text_small_window_keeps_tail_witness :
  exists kept : list nat,
    chunk_text default_settings "a b c d e f g" (Some 3) (Some 1) None
      = Ok ((fun i => Py.join " " (drop i (Py.split "a b c d e f g"))) <$> kept) /\
    kept <> [] /\
    forall i, i ∈ kept ->
      (i < length (Py.split "a b c d e f g"))%nat /\
      Z.of_nat (length (Py.split "a b c d e f g")) <= Z.of_nat i + 3.
Proof.
  apply (chunk_text_small_window_keeps_tail default_settings "a b c d e f g"
           (Some 3) (Some 1) None); simpl; lia.
Defined.

Example chunk_text_small_window_example :
  chunk_text default_settings "a b c d e f g" (Some 3) (Some 1) None
    = Ok ["e f g"; "g"].
Proof. reflexivity. Qed.

End ChunkerWindows.

(** ** Properties of the segmenter, paragraph mode *)

Module ParagraphProps.
Import ParagraphChunker.

Example paragraphs_example :
  paragraphs_of (" one two " +:+ blank_line +:+ blank_line +:+ "three" +:+ blank_line)
    = ["one two"; "three"].
Proof. reflexivity. Qed.

Lemma word_count_nonneg p : 0 <= word_count p.
Proof. unfold word_count. lia. Qed.

Lemma size_of_nonneg l : 0 <= size_of l.
Proof.
  induction l as [| p l IH]; simpl; [lia |]. pose proof (word_count_nonneg p). lia.
Qed.

Lemma size_of_app l p : size_of (l ++ [p]) = size_of l + word_count p.
Proof. induction l as [| q l IH]; simpl; lia. Qed.

Section Loop.
Variables max_chunk_size chunk_overlap min_chunk_size : Z.

Abbreviation step := (paragraph_step max_chunk_size chunk_overlap min_chunk_size).

(** What holds of the loop variables once the paragraphs [seen] have been
    processed: the size is the size of the current chunk; the current chunk
    is not empty unless nothing was seen; every paragraph seen is in the
    current chunk or in a closed one; every closed chunk joins paragraphs
    that make at least the minimum size. *)
Record invariant (seen : list string) (st : state) : Prop := {
  inv_size : current_size st = size_of (current_chunk st);
  inv_current : seen <> [] -> current_chunk st <> [];
  inv_covered : forall p, p ∈ seen ->
    p ∈ current_chunk st \/
    exists group, p ∈ group /\ Py.join " " group ∈ chunks st;
  inv_closed : forall chunk, chunk ∈ chunks st ->
    exists group, chunk = Py.join " " group /\ min_chunk_size <= size_of group
}.

Lemma invariant_start : invariant [] start.
Proof.
  split; simpl; try done.
  - intros p Hp. by apply elem_of_nil in Hp.
  - intros chunk Hc. by apply elem_of_nil in Hc.
Qed.

Lemma invariant_step seen st paragraph :
  invariant seen st -> invariant (seen ++ [paragraph]) (step st paragraph).
Proof.
  intros [Hsize Hcur Hcov Hclosed]. unfold paragraph_step.
  destruct (_ && _) eqn:Hclose.
  - apply andb_true_iff in Hclose as [_ Hmin]. apply Z.leb_le in Hmin.
    split; simpl.
    + by rewrite size_of_app.
    + intros _. by destruct (overlap_paragraphs st).
    + intros p Hp. apply elem_of_app in Hp as [Hp | Hp].
      * right. destruct (Hcov p Hp) as [Hin | (group & Hg & Hin)].
        -- exists (current_chunk st). split; [done |].
           apply elem_of_app. right. by apply list_elem_of_singleton.
        -- exists group. split; [done |]. apply elem_of_app. by left.
      * left. apply elem_of_app. by right.
    + intros chunk Hc. apply elem_of_app in Hc as [Hc | Hc]; [by apply Hclosed |].
      apply list_elem_of_singleton in Hc as ->.
      exists (current_chunk st). split; [done | lia].
  - split; simpl.
    + rewrite size_of_app. lia.
    + intros _. by destruct (current_chunk st).
    + intros p Hp. apply elem_of_app in Hp as [Hp | Hp].
      * destruct (Hcov p Hp) as [Hin | Hin]; [left | by right].
        apply elem_of_app. by left.
      * left. apply elem_of_app. by right.
    + done.
Qed.

Lemma invariant_fold rest seen st :
  invariant seen st -> invariant (seen ++ rest) (fold_left step rest st).
Proof.
  revert seen st. induction rest as [| p rest IH]; intros seen st Hinv; simpl.
  - by rewrite app_nil_r.
  - replace (seen ++ p :: rest) with ((seen ++ [p]) ++ rest)
      by (by rewrite <- app_assoc).
    by apply IH, invariant_step.
Qed.

(** As long as the paragraphs seen and the next one fit, no chunk is
    closed. *)
Lemma fits_fold rest seen st :
  chunks st = [] -> current_chunk st = seen -> current_size st = size_of seen ->
  size_of (seen ++ rest) <= max_chunk_size ->
  chunks (fold_left step rest st) = [] /\
  current_chunk (fold_left step rest st) = seen ++ rest.
Proof.
  revert seen st. induction rest as [| p rest IH]; intros seen st Hc Hcur Hsize Hfit; simpl.
  - by rewrite app_nil_r.
  - assert (Happ : seen ++ p :: rest = (seen ++ [p]) ++ rest)
      by (by rewrite <- app_assoc).
    rewrite Happ in Hfit |- *.
    assert (Hle : size_of (seen ++ [p]) <= max_chunk_size).
    { assert (Hsplit : forall a b, size_of (a ++ b) = size_of a + size_of b).
      { intros a b. induction a as [| q a IHa]; simpl; lia. }
      rewrite Hsplit in Hfit. pose proof (size_of_nonneg rest). lia. }
    rewrite size_of_app in Hle.
    assert (Hkeep : (max_chunk_size <? current_size st + word_count p)
                    && (min_chunk_size <=? current_size st) = false).
    { apply andb_false_iff. left. apply Z.ltb_ge. lia. }
    apply IH; unfold paragraph_step; rewrite ?Hkeep; simpl.
    + done.
    + by rewrite Hcur.
    + rewrite size_of_app. lia.
    + done.
Qed.

End Loop.

(** The result of [chunk_text_by_paragraphs] for a text that has paragraphs:
    the closed chunks, then the current one. *)
Lemma chunk_text_by_paragraphs_unfold settings text mx ov mn :
  paragraphs_of text <> [] ->
  let st := fold_left (paragraph_step (or_int mx (CHUNK_SIZE settings))
                         (or_int ov (CHUNK_OVERLAP settings))
                         (or_int mn (MIN_CHUNK_SIZE settings)))
              (paragraphs_of text) start in
  current_chunk st <> [] /\
  chunk_text_by_paragraphs settings text mx ov mn
    = chunks st ++ [Py.join " " (current_chunk st)].
Proof.
  intros Hne st.
  pose proof (invariant_fold (or_int mx (CHUNK_SIZE settings))
                (or_int ov (CHUNK_OVERLAP settings)) (or_int mn (MIN_CHUNK_SIZE settings))
                (paragraphs_of text) [] start
                (invariant_start _)) as Hinv.
  simpl in Hinv. fold st in Hinv.
  pose proof (inv_current _ _ _ Hinv Hne) as Hcur.
  split; [done |].
  unfold chunk_text_by_paragraphs. fold st.
  destruct (paragraphs_of text); [done |].
  by destruct (current_chunk st).
Qed.

(** X5: [chunk_text_by_paragraphs] returns the empty list exactly when the
    text has no paragraph, that is when every piece between blank lines is
    empty or whitespace. *)
Theorem chunk_text_by_paragraphs_empty_iff settings text mx ov mn :
  chunk_text_by_paragraphs settings text mx ov mn = [] <-> paragraphs_of text = [].
Proof.
  split.
  - intros Hnil. destruct (decide (paragraphs_of text = [])) as [| Hne]; [done |].
    destruct (chunk_text_by_paragraphs_unfold settings text mx ov mn Hne) as [_ Heq].
    rewrite Heq in Hnil. by apply app_nil in Hnil as [_ ?].
  - intros Hnil. unfold chunk_text_by_paragraphs. by rewrite Hnil.
Qed.

(** X6: a text whose paragraphs total at most the maximum chunk size in
    words comes back as one chunk, its paragraphs joined by single spaces. *)
Theorem chunk_text_by_paragraphs_single settings text mx ov mn :
  paragraphs_of text <> [] ->
  size_of (paragraphs_of text) <= or_int mx (CHUNK_SIZE settings) ->
  chunk_text_by_paragraphs settings text mx ov mn
    = [Py.join " " (paragraphs_of text)].
Proof.
  intros Hne Hfit.
  destruct (chunk_text_by_paragraphs_unfold settings text mx ov mn Hne) as [_ ->].
  destruct (fits_fold (or_int mx (CHUNK_SIZE settings))
              (or_int ov (CHUNK_OVERLAP settings)) (or_int mn (MIN_CHUNK_SIZE settings))
              (paragraphs_of text) [] start) as [-> ->]; done.
Qed.

Definition two_paragraphs : string := "one two" +:+ blank_line +:+ "three".

Lemma chunk_text_by_paragraphs_single_witness :
  chunk_text_by_paragraphs default_settings two_paragraphs (Some 5) None None
    = [Py.join " " (paragraphs_of two_paragraphs)].
Proof.
  apply (chunk_text_by_paragraphs_single default_settings two_paragraphs
           (Some 5) None None).
  - discriminate.
  - vm_compute. discriminate.
Defined.

(** X7: every paragraph of the text is in a chunk: some chunk is the join of
    a group of paragraphs that holds it. *)
Theorem chunk_text_by_paragraphs_covers settings text mx ov mn p :
  p ∈ paragraphs_of text ->
  exists group,
    p ∈ group /\
    Py.join " " group ∈ chunk_text_by_paragraphs settings text mx ov mn.
Proof.
  intros Hp.
  assert (Hne : paragraphs_of text <> []) by (intros Hnil; rewrite Hnil in Hp;
                                               by apply elem_of_nil in Hp).
  destruct (chunk_text_by_paragraphs_unfold settings text mx ov mn Hne) as [_ ->].
  pose proof (invariant_fold (or_int mx (CHUNK_SIZE settings))
                (or_int ov (CHUNK_OVERLAP settings)) (or_int mn (MIN_CHUNK_SIZE settings))
                (paragraphs_of text) [] start
                (invariant_start _)) as Hinv.
  simpl in Hinv.
  destruct (inv_covered _ _ _ Hinv p Hp) as [Hin | (group & Hg & Hin)].
  - eexists. split; [exact Hin |]. apply elem_of_app. right.
    by apply list_elem_of_singleton.
  - exists group. split; [done |]. apply elem_of_app. by left.
Qed.

Lemma chunk_text_by_paragraphs_covers_witness :
  exists group,
    "three" ∈ group /\
    Py.join " " group
      ∈ chunk_text_by_paragraphs default_settings two_paragraphs (Some 2) (Some 1) (Some 1).
Proof.
  apply (chunk_text_by_paragraphs_covers default_settings two_paragraphs
           (Some 2) (Some 1) (Some 1) "three").
  apply list_elem_of_In. vm_compute. auto.
Defined.

(** X8: every chunk but the last one joins paragraphs that make at least
    the minimum chunk size in words. *)
Theorem chunk_text_by_paragraphs_closed_sizes settings text mx ov mn :
  paragraphs_of text <> [] ->
  exists closed last,
    chunk_text_by_paragraphs settings text mx ov mn = closed ++ [last] /\
    forall chunk, chunk ∈ closed ->
      exists group, chunk = Py.join " " group /\
                    or_int mn (MIN_CHUNK_SIZE settings) <= size_of group.
Proof.
  intros Hne.
  destruct (chunk_text_by_paragraphs_unfold settings text mx ov mn Hne) as [_ ->].
  pose proof (invariant_fold (or_int mx (CHUNK_SIZE settings))
                (or_int ov (CHUNK_OVERLAP settings)) (or_int mn (MIN_CHUNK_SIZE settings))
                (paragraphs_of text) [] start
                (invariant_start _)) as Hinv.
  simpl in Hinv.
  eexists _, _. split; [done |]. apply (inv_closed _ _ _ Hinv).
Qed.

Lemma chunk_text_by_paragraphs_closed_sizes_witness :
  exists closed last,
    chunk_text_by_paragraphs default_settings two_paragraphs (Some 2) (Some 1) (Some 1)
      = closed ++ [last] /\
    forall chunk, chunk ∈ closed ->
      exists group, chunk = Py.join " " group /\ 1 <= size_of group.
Proof.
  apply (chunk_text_by_paragraphs_closed_sizes default_settings two_paragraphs
           (Some 2) (Some 1) (Some 1)).
  discriminate.
Defined.

Example chunk_text_by_paragraphs_example :
  chunk_text_by_paragraphs default_settings two_paragraphs (Some 2) (Some 1) (Some 1)
    = ["one two"; "one two three"].
Proof. reflexivity. Qed.

End ParagraphProps.

(** ** More on the reconciler *)

Module MergerExtra.
Import Merger Validators MergerProps DedupProps.

(** *** [validate_fields] *)

Lemma validate_fields_lookup_from settings (data validated : gmap string json)
    fields unknown_value field :
  fold_left (fun validated field =>
               match data !! field with
               | Some v => <[field := v]> validated
               | None => <[field := JStr (or_str unknown_value (UNKNOWN_VALUE settings))]>
                           validated
               end) fields validated !! field
  = if bool_decide (field ∈ fields)
    then Some (default (JStr (or_str unknown_value (UNKNOWN_VALUE settings)))
                       (data !! field))
    else validated !! field.
Proof.
  revert validated. induction fields as [| field' rest IH]; intros validated; simpl.
  - done.
  - rewrite IH. destruct (decide (field' = field)) as [-> | Hne].
    + rewrite (bool_decide_eq_true_2 (field ∈ field :: rest)) by apply list_elem_of_here.
      case_bool_decide; [done |].
      destruct (data !! field); simpl; by rewrite lookup_insert_eq.
    + assert (Hiff : field ∈ field' :: rest <-> field ∈ rest).
      { rewrite elem_of_cons. naive_solver. }
      rewrite (bool_decide_ext _ _ Hiff).
      case_bool_decide; [done |].
      destruct (data !! field'); by rewrite lookup_insert_ne.
Qed.

(** X9: [validate_fields] keeps the value of every requested field the data
    has, gives the sentinel to the requested fields the data lacks, and drops
    every key that was not requested. *)
Theorem validate_fields_lookup settings (data : gmap string json) fields unknown_value field :
  validate_fields settings data fields unknown_value !! field
  = if bool_decide (field ∈ fields)
    then Some (default (JStr (or_str unknown_value (UNKNOWN_VALUE settings)))
                       (data !! field))
    else None.
Proof.
  unfold validate_fields. rewrite validate_fields_lookup_from.
  by rewrite lookup_empty.
Qed.

(** *** Chunk results that bring nothing *)

(** A chunk result the merge loop skips: [None], the empty dict, or a dict
    with the key [error]. *)
Definition skipped (result : option (gmap string FieldValue)) : Prop :=
  falsy result = true \/ exists r, result = Some r /\ is_Some (r !! "error").

Lemma merge_result_skipped unknown_value fields a result :
  skipped result -> merge_result unknown_value fields a result = a.
Proof.
  intros [Hf | (r & -> & Herr)]; [by apply merge_result_falsy |].
  unfold merge_result. destruct (falsy _); [done |].
  by rewrite bool_decide_eq_true_2.
Qed.

Lemma merge_loop_skipped unknown_value fields chunk_results :
  Forall skipped chunk_results ->
  merge_loop unknown_value fields chunk_results = initial unknown_value fields.
Proof.
  unfold merge_loop. generalize (initial unknown_value fields).
  induction chunk_results as [| result rest IH]; intros a Hall; simpl; [done |].
  apply Forall_cons in Hall as [Hskip Hall].
  rewrite merge_result_skipped by done. by apply IH.
Qed.

Lemma initial_lookup_total unknown_value fields field :
  merged (initial unknown_value fields) !! field
  = if bool_decide (field ∈ fields) then Some (Scalar unknown_value) else None.
Proof.
  case_bool_decide as Hin; [by apply initial_lookup |].
  apply not_elem_of_dom. rewrite initial_dom. by rewrite elem_of_list_to_set.
Qed.

Section Composition.
Context {W : Type}.
Variable backend : W -> string -> list string -> backend_outcome * W.
Variable repr : json -> string.

Lemma post_process_dom a (w : W) :
  dom (post_process backend repr a w).1 = dom (merged a).
Proof.
  unfold post_process.
  assert (Hinit : dom (to_json <$> merged a) = dom (merged a)) by apply dom_fmap_L.
  revert Hinit. generalize (to_json <$> merged a). revert w.
  induction (list_fields a) as [| field rest IH]; intros w out Hout; simpl; [done |].
  destruct (merged a !! field) as [[s | items] |] eqn:Hf; try by apply IH.
  destruct (deduplicate_with_llm backend repr items field w) as [deduplicated w'].
  apply IH. rewrite dom_insert_L, Hout.
  apply subseteq_union_1_L, singleton_subseteq_l. by eapply elem_of_dom_2.
Qed.

(** X10: validating a merged record against the fields it was merged for
    changes nothing: the record [merge_results] returns already has every
    requested field and no other key. *)
Theorem validate_fields_after_merge settings chunk_results fields unknown_value (w : W) :
  let merged_results :=
    (merge_results backend repr settings chunk_results fields unknown_value w).1 in
  validate_fields settings merged_results fields unknown_value = merged_results.
Proof.
  intros merged_results. apply map_eq. intros field.
  unfold validate_fields. rewrite validate_fields_lookup_from, lookup_empty.
  assert (Hdom : dom merged_results = list_to_set fields).
  { unfold merged_results, merge_results. by rewrite post_process_dom, merge_loop_dom. }
  case_bool_decide as Hin.
  - assert (Hsome : is_Some (merged_results !! field)).
    { apply elem_of_dom. rewrite Hdom. by apply elem_of_list_to_set. }
    destruct Hsome as [v Hv]. by rewrite Hv.
  - symmetry. apply not_elem_of_dom. rewrite Hdom. by rewrite elem_of_list_to_set.
Qed.

(** X11: when every chunk result is [None], empty or an error report, the
    merged record gives the sentinel to every requested field and the dedup
    backend is not called. *)
Theorem merge_results_all_skipped settings chunk_results fields unknown_value (w : W) field :
  Forall skipped chunk_results ->
  let out := merge_results backend repr settings chunk_results fields unknown_value w in
  out.2 = w /\
  out.1 !! field
  = if bool_decide (field ∈ fields)
    then Some (JStr (or_str unknown_value (UNKNOWN_VALUE settings)))
    else None.
Proof.
  intros Hall. unfold merge_results. rewrite merge_loop_skipped by done.
  unfold post_process. simpl. split; [done |].
  rewrite lookup_fmap.
  change (list_to_map _) with (merged (initial (or_str unknown_value (UNKNOWN_VALUE settings)) fields)).
  rewrite initial_lookup_total. by case_bool_decide.
Qed.

End Composition.

Lemma merge_results_all_skipped_witness :
  Forall skipped [None; Some ∅; Some {[ "error" := Scalar "timeout" ]}] /\
  (merge_results unreachable_backend blank_repr default_settings
     [None; Some ∅; Some {[ "error" := Scalar "timeout" ]}] ["name"; "phone"] None tt).1
    !! "name" = Some (JStr "unknown").
Proof.
  assert (H : Forall skipped [None; Some ∅; Some {[ "error" := Scalar "timeout" ]}]).
  { apply Forall_cons. split; [by left |].
    apply Forall_cons. split; [by left |].
    apply Forall_cons. split; [| apply Forall_nil_2].
    right. eexists. split; [reflexivity |]. by eexists. }
  split; [exact H |].
  exact (proj2 (merge_results_all_skipped unreachable_backend blank_repr default_settings
                  _ ["name"; "phone"] None tt "name" H)).
Defined.

End MergerExtra.

(** ** Invariants of the merge loop *)

Module MergeLoopProps.
Import Merger Validators MergerProps DedupProps MergerExtra.

(** *** Scalars are never made up *)

Lemma resolve_conflict_selects field merged_value value :
  resolve_conflict field merged_value value = merged_value \/
  resolve_conflict field merged_value value = value.
Proof.
  unfold resolve_conflict.
  repeat match goal with |- context [if ?b then _ else _] => destruct b end; auto.
Qed.

Section Carried.
(** [P field s]: the scalar [s] is allowed under [field]. *)
Variable P : string -> string -> Prop.
Variable unknown_value : string.

Definition scalars_in (m : gmap string FieldValue) : Prop :=
  forall field s, m !! field = Some (Scalar s) -> P field s.

Lemma merge_field_carried result a field :
  scalars_in result -> scalars_in (merged a) ->
  scalars_in (merged (merge_field unknown_value result a field)).
Proof.
  intros Hres Hacc. unfold merge_field.
  destruct (result !! field) as [value |] eqn:Hv; [| done].
  destruct (merged a !! field) as [current |] eqn:Hcur; [| done].
  assert (Hins : forall v, (forall s, v = Scalar s -> P field s) ->
                           scalars_in (<[field := v]> (merged a))).
  { intros v Hvs field' s. destruct (decide (field = field')) as [<- | Hne].
    - rewrite lookup_insert_eq. intros [= ->]. by apply Hvs.
    - rewrite lookup_insert_ne by done. apply Hacc. }
  case_bool_decide; [done |].
  case_bool_decide; [apply Hins; intros s ->; by apply Hres |].
  case_bool_decide; [done |].
  destruct current as [current_str | l], value as [value_str | l'];
    simpl; try (apply Hins; intros s [=]).
  destruct (_ || _); simpl; apply Hins; [intros s [=] |].
  intros s [= <-].
  destruct (resolve_conflict_selects field current_str value_str) as [-> | ->].
  - by apply Hacc.
  - by apply Hres.
Qed.

Lemma merge_fields_carried result fields a :
  scalars_in result -> scalars_in (merged a) ->
  scalars_in (merged (fold_left (merge_field unknown_value result) fields a)).
Proof.
  intros Hres. revert a. induction fields as [| field rest IH]; intros a Hacc; simpl.
  - done.
  - apply IH. by apply merge_field_carried.
Qed.

Lemma merge_loop_carried fields chunk_results a :
  (forall r, Some r ∈ chunk_results -> r !! "error" = None -> scalars_in r) ->
  scalars_in (merged a) ->
  scalars_in (merged (fold_left (merge_result unknown_value fields) chunk_results a)).
Proof.
  revert a. induction chunk_results as [| result rest IH]; intros a Hres Hacc; simpl.
  - done.
  - apply IH.
    + intros r Hr. apply Hres. by apply list_elem_of_further.
    + unfold merge_result. destruct result as [r |]; [| done].
      destruct (falsy _); [done |].
      case_bool_decide as Herr; [done |].
      apply merge_fields_carried; [| done].
      apply Hres; [apply list_elem_of_here |].
      destruct (r !! "error") eqn:He; [| done]. exfalso. apply Herr. by eexists.
Qed.

End Carried.

Section PostProcess.
Context {W : Type}.
Variable backend : W -> string -> list string -> backend_outcome * W.
Variable repr : json -> string.

(** The deduplication only writes arrays, so a text of the final record is
    the scalar the merge loop left. *)
Lemma post_process_text a (w : W) field s :
  (post_process backend repr a w).1 !! field = Some (JStr s) ->
  merged a !! field = Some (Scalar s).
Proof.
  unfold post_process.
  assert (Hinit : (to_json <$> merged a) !! field = Some (JStr s) ->
                  merged a !! field = Some (Scalar s)).
  { rewrite lookup_fmap. destruct (merged a !! field) as [[s' | l] |]; simpl; congruence. }
  revert Hinit. generalize (to_json <$> merged a). revert w.
  induction (list_fields a) as [| field' rest IH]; intros w out Hout; simpl; [done |].
  destruct (merged a !! field') as [[s' | items] |] eqn:Hf; try by apply IH.
  destruct (deduplicate_with_llm backend repr items field' w) as [deduplicated w'].
  apply IH. destruct (decide (field' = field)) as [-> | Hne].
  - by rewrite lookup_insert_eq.
  - by rewrite lookup_insert_ne.
Qed.

(** X12: a text in the merged record is never made up: it is the sentinel, or
    the scalar that a chunk result without the key [error] holds under the
    same field. *)
Theorem merge_results_text_from_chunk settings chunk_results fields unknown_value (w : W)
    field s :
  (merge_results backend repr settings chunk_results fields unknown_value w).1 !! field
    = Some (JStr s) ->
  s = or_str unknown_value (UNKNOWN_VALUE settings) \/
  exists r, Some r ∈ chunk_results /\ r !! "error" = None /\ r !! field = Some (Scalar s).
Proof.
  unfold merge_results. intros Hs. apply post_process_text in Hs.
  revert field s Hs.
  set (u := or_str unknown_value (UNKNOWN_VALUE settings)).
  change (scalars_in (fun field s => s = u \/
            exists r, Some r ∈ chunk_results /\ r !! "error" = None /\
                      r !! field = Some (Scalar s))
          (merged (merge_loop u fields chunk_results))).
  unfold merge_loop. apply merge_loop_carried.
  - intros r Hr Herr field s Hs. right. by exists r.
  - intros field s. rewrite initial_lookup_total.
    case_bool_decide; [| done]. intros [= <-]. by left.
Qed.

End PostProcess.

Lemma merge_results_text_from_chunk_witness :
  (merge_results unreachable_backend blank_repr default_settings
     [Some {[ "name" := Scalar "Ann" ]}; Some {[ "name" := Scalar "Ann Lee" ]}]
     ["name"] None tt).1 !! "name" = Some (JStr "Ann Lee") /\
  ("Ann Lee" = or_str None (UNKNOWN_VALUE default_settings) \/
   exists r, Some r ∈ [Some ({[ "name" := Scalar "Ann" ]} : gmap string FieldValue);
                       Some {[ "name" := Scalar "Ann Lee" ]}] /\
             r !! "error" = None /\ r !! "name" = Some (Scalar "Ann Lee")).
Proof.
  assert (H : (merge_results unreachable_backend blank_repr default_settings
     [Some {[ "name" := Scalar "Ann" ]}; Some {[ "name" := Scalar "Ann Lee" ]}]
     ["name"] None tt).1 !! "name" = Some (JStr "Ann Lee")) by reflexivity.
  split; [exact H |].
  exact (merge_results_text_from_chunk unreachable_backend blank_repr default_settings
           _ ["name"] None tt "name" "Ann Lee" H).
Defined.

(** *** Lists *)

(** A step keeps a list accumulator a list and keeps what it holds, in
    order, at its head. *)
Lemma merge_field_extends unknown_value result a field field' l :
  merged a !! field = Some (Items l) ->
  exists l', merged (merge_field unknown_value result a field') !! field
             = Some (Items (l ++ l')).
Proof.
  intros Hl. destruct (decide (field' = field)) as [-> | Hne].
  - unfold merge_field. rewrite Hl.
    destruct (result !! field) as [value |]; [| exists []; by rewrite app_nil_r].
    case_bool_decide; [exists []; by rewrite app_nil_r |].
    rewrite bool_decide_eq_false_2 by done.
    case_bool_decide; [exists []; by rewrite app_nil_r |].
    destruct value as [s | l']; simpl; rewrite lookup_insert_eq; eauto.
  - destruct (merge_field_other unknown_value result a field field' Hne) as [-> _].
    exists []. by rewrite app_nil_r.
Qed.

Lemma merge_fields_extends unknown_value result fields a field l :
  merged a !! field = Some (Items l) ->
  exists l', merged (fold_left (merge_field unknown_value result) fields a) !! field
             = Some (Items (l ++ l')).
Proof.
  revert a l. induction fields as [| field' rest IH]; intros a l Hl; simpl.
  - exists []. by rewrite app_nil_r.
  - destruct (merge_field_extends unknown_value result a field field' l Hl) as [l1 H1].
    destruct (IH _ _ H1) as [l2 H2]. exists (l1 ++ l2). by rewrite app_assoc.
Qed.

Lemma merge_result_extends unknown_value fields a result field l :
  merged a !! field = Some (Items l) ->
  exists l', merged (merge_result unknown_value fields a result) !! field
             = Some (Items (l ++ l')).
Proof.
  intros Hl. unfold merge_result.
  destruct result as [r |]; [| exists []; by rewrite app_nil_r].
  destruct (falsy _); [exists []; by rewrite app_nil_r |].
  case_bool_decide; [exists []; by rewrite app_nil_r |].
  by apply merge_fields_extends.
Qed.

(** X13: once the merge loop holds a list under a field, later chunk results
    can only add to its end: the field stays a list and the entries gathered
    so far keep their places. *)
Theorem merge_loop_list_grows unknown_value fields earlier later field l :
  merged (merge_loop unknown_value fields earlier) !! field = Some (Items l) ->
  exists l', merged (merge_loop unknown_value fields (earlier ++ later)) !! field
             = Some (Items (l ++ l')).
Proof.
  unfold merge_loop. rewrite fold_left_app.
  generalize (fold_left (merge_result unknown_value fields) earlier
                (initial unknown_value fields)).
  revert l. induction later as [| result rest IH]; intros l a Hl; simpl.
  - exists []. by rewrite app_nil_r.
  - destruct (merge_result_extends unknown_value fields a result field l Hl) as [l1 H1].
    destruct (IH _ _ H1) as [l2 H2]. exists (l1 ++ l2). by rewrite app_assoc.
Qed.

Lemma merge_loop_list_grows_witness :
  merged (merge_loop "unknown" ["skills"]
            [Some {[ "skills" := Items ["c"; "ocaml"] ]}]) !! "skills"
    = Some (Items ["c"; "ocaml"]) /\
  exists l', merged (merge_loop "unknown" ["skills"]
                       ([Some {[ "skills" := Items ["c"; "ocaml"] ]}]
                        ++ [Some {[ "skills" := Scalar "c" ]}])) !! "skills"
             = Some (Items (["c"; "ocaml"] ++ l')).
Proof.
  assert (H : merged (merge_loop "unknown" ["skills"]
                        [Some {[ "skills" := Items ["c"; "ocaml"] ]}]) !! "skills"
              = Some (Items ["c"; "ocaml"])) by reflexivity.
  split; [exact H |].
  exact (merge_loop_list_grows "unknown" ["skills"] _ [Some {[ "skills" := Scalar "c" ]}]
           "skills" _ H).
Defined.

(** *** The fields marked as list-valued *)

Definition marks_ok (a : acc) : Prop :=
  NoDup (list_fields a) /\
  Forall (fun field => exists l, merged a !! field = Some (Items l)) (list_fields a).

Lemma mark_NoDup field l : NoDup l -> NoDup (mark field l).
Proof.
  intros Hl. unfold mark. case_bool_decide as Hin; [done |].
  apply NoDup_app. split; [done |]. split; [| apply NoDup_singleton].
  intros x Hx ->%list_elem_of_singleton. done.
Qed.

Lemma merge_field_marks unknown_value result a field :
  marks_ok a -> marks_ok (merge_field unknown_value result a field).
Proof.
  intros [Hnd Hall].
  assert (Hext : forall field', field' ∈ list_fields a ->
            exists l, merged (merge_field unknown_value result a field) !! field'
                      = Some (Items l)).
  { intros field' Hin. rewrite Forall_forall in Hall.
    destruct (Hall _ Hin) as [l Hl].
    destruct (merge_field_extends unknown_value result a field' field l Hl) as [l' Hl'].
    eauto. }
  revert Hext. unfold merge_field.
  destruct (result !! field) as [value |]; [| by split].
  destruct (merged a !! field) as [current |]; [| by split].
  case_bool_decide; [by split |].
  case_bool_decide.
  { simpl. intros Hext. split; [done |]. simpl. by apply Forall_forall. }
  case_bool_decide; [by split |].
  assert (Hmarked : forall m, (forall field', field' ∈ list_fields a ->
              exists l, <[field := Items m]> (merged a) !! field' = Some (Items l)) ->
            marks_ok {| merged := <[field := Items m]> (merged a);
                        list_fields := mark field (list_fields a) |}).
  { intros m Hext. split; simpl; [by apply mark_NoDup |].
    apply Forall_forall. intros field' [Hin | ->]%elem_of_mark; [by apply Hext |].
    rewrite lookup_insert_eq. eauto. }
  destruct current as [current_str | l], value as [value_str | l'];
    simpl; try (intros Hext; by apply Hmarked).
  destruct (_ || _); simpl; intros Hext; [by apply Hmarked |].
  split; [done |]. simpl. by apply Forall_forall.
Qed.

(** X14: at the end of the merge loop the fields marked as list-valued are
    marked once each, and each of them holds a list (so that every marked
    field goes through the deduplication). *)
Theorem merge_loop_marks unknown_value fields chunk_results :
  let a := merge_loop unknown_value fields chunk_results in
  NoDup (list_fields a) /\
  Forall (fun field => exists l, merged a !! field = Some (Items l)) (list_fields a).
Proof.
  simpl. unfold merge_loop.
  assert (Hinit : marks_ok (initial unknown_value fields)).
  { split; simpl; [apply NoDup_nil_2 | apply Forall_nil_2]. }
  revert Hinit. generalize (initial unknown_value fields).
  induction chunk_results as [| result rest IH]; intros a Ha; simpl; [exact Ha |].
  apply IH. unfold merge_result. destruct result as [r |]; [| done].
  destruct (falsy _); [done |]. case_bool_decide; [done |].
  clear IH. revert a Ha. induction fields as [| field fields' IHf]; intros a Ha; simpl.
  - done.
  - apply IHf. by apply merge_field_marks.
Qed.

End MergeLoopProps.

(** ** One chunk result, and the same chunk result again *)

Module SingleChunkProps.
Import Merger Validators MergerProps DedupProps MergerExtra.

Section Pick.
Variable unknown_value : string.
Variable r : gmap string FieldValue.

(** What the chunk result [r] says about a field: its value, or the
    sentinel when it has none. *)
Definition pick (field : string) : FieldValue :=
  default (Scalar unknown_value) (r !! field).

(** The first visit of a field: the accumulator holds the sentinel or
    already what [r] says, and ends up holding what [r] says. *)
Lemma merge_field_pick a field current :
  merged a !! field = Some current ->
  current = Scalar unknown_value \/ current = pick field ->
  merge_field unknown_value r a field
  = {| merged := <[field := pick field]> (merged a); list_fields := list_fields a |}.
Proof.
  intros Hcur Hor. unfold merge_field, pick in *. rewrite Hcur.
  assert (Hid : forall v, merged a !! field = Some v ->
            a = {| merged := <[field := v]> (merged a); list_fields := list_fields a |}).
  { intros v Hv. rewrite insert_id by done. by destruct a. }
  destruct (r !! field) as [value |] eqn:Hv; simpl in *.
  - case_bool_decide as Hvu.
    + subst value. apply Hid. by destruct Hor as [-> | ->].
    + case_bool_decide as Hcu; [done |].
      destruct Hor as [-> | ->]; [done |].
      rewrite bool_decide_eq_true_2 by done. by apply Hid.
  - apply Hid. by destruct Hor as [-> | ->].
Qed.

Definition partial (fields : list string) (m : gmap string FieldValue) : Prop :=
  forall field, field ∈ fields ->
    m !! field = Some (Scalar unknown_value) \/ m !! field = Some (pick field).

Lemma merge_fields_pick fields a :
  partial fields (merged a) ->
  let a' := fold_left (merge_field unknown_value r) fields a in
  list_fields a' = list_fields a /\
  forall field, merged a' !! field
                = if bool_decide (field ∈ fields) then Some (pick field)
                  else merged a !! field.
Proof.
  revert a. induction fields as [| field' rest IH]; intros a Hp; simpl.
  - done.
  - assert (Hstep : merge_field unknown_value r a field'
              = {| merged := <[field' := pick field']> (merged a);
                   list_fields := list_fields a |}).
    { destruct (Hp field' (list_elem_of_here _ _)) as [H | H];
        eapply merge_field_pick; eauto. }
    rewrite Hstep. destruct (IH {| merged := <[field' := pick field']> (merged a);
                                   list_fields := list_fields a |}) as [Hl Hm].
    { intros field Hin. simpl. destruct (decide (field' = field)) as [-> | Hne].
      - right. by rewrite lookup_insert_eq.
      - rewrite lookup_insert_ne by done. apply Hp. by apply list_elem_of_further. }
    split; [exact Hl |]. intros field. rewrite Hm. simpl.
    destruct (decide (field' = field)) as [-> | Hne].
    + rewrite (bool_decide_eq_true_2 (field ∈ field :: rest)) by apply list_elem_of_here.
      case_bool_decide; [done |]. by rewrite lookup_insert_eq.
    + assert (Hiff : field ∈ field' :: rest <-> field ∈ rest).
      { rewrite elem_of_cons. naive_solver. }
      rewrite (bool_decide_ext _ _ Hiff).
      case_bool_decide; [done |]. by rewrite lookup_insert_ne.
Qed.

(** A later visit: an accumulator that holds what [r] says is left as it
    is. *)
Lemma merge_field_fixed a field :
  merged a !! field = Some (pick field) \/ merged a !! field = None ->
  merge_field unknown_value r a field = a.
Proof.
  intros Hor. unfold merge_field, pick in *.
  destruct (r !! field) as [value |]; [| done].
  destruct Hor as [-> | ->]; [| done]. cbn [default].
  destruct (decide (value = Scalar unknown_value)) as [Hvu | Hvu].
  - by rewrite (bool_decide_eq_true_2 _ Hvu).
  - rewrite !(bool_decide_eq_false_2 _ Hvu).
    by rewrite (bool_decide_eq_true_2 (value = value)).
Qed.

Lemma merge_fields_fixed fields a :
  (forall field, field ∈ fields ->
     merged a !! field = Some (pick field) \/ merged a !! field = None) ->
  fold_left (merge_field unknown_value r) fields a = a.
Proof.
  induction fields as [| field rest IH]; intros Hall; simpl; [done |].
  rewrite merge_field_fixed by (apply Hall, list_elem_of_here).
  apply IH. intros field' Hin. apply Hall. by apply list_elem_of_further.
Qed.

End Pick.

(** The accumulators after the first chunk result. *)
Lemma merge_result_first unknown_value fields r :
  r !! "error" = None ->
  let a := merge_result unknown_value fields (initial unknown_value fields) (Some r) in
  list_fields a = [] /\
  forall field, merged a !! field
                = if bool_decide (field ∈ fields) then Some (pick unknown_value r field)
                  else None.
Proof.
  intros Herr. simpl. unfold merge_result, falsy.
  case_bool_decide as Hempty.
  - split; [done |]. intros field. rewrite initial_lookup_total.
    unfold pick. subst r. by rewrite lookup_empty.
  - rewrite bool_decide_eq_false_2 by (rewrite Herr; by intros [? ?]).
    destruct (merge_fields_pick unknown_value r fields (initial unknown_value fields))
      as [Hl Hm].
    { intros field Hin. left. by apply initial_lookup. }
    split; [exact Hl |]. intros field. rewrite Hm, initial_lookup_total.
    by case_bool_decide.
Qed.

Lemma merge_result_again unknown_value fields result :
  let a := merge_result unknown_value fields (initial unknown_value fields) result in
  merge_result unknown_value fields a result = a.
Proof.
  simpl. destruct result as [r |]; [| done].
  destruct (falsy (Some r)) eqn:Hf.
  { by rewrite !merge_result_falsy. }
  destruct (r !! "error") as [e |] eqn:Herr.
  { rewrite !merge_result_skipped; [done | |]; right; exists r; by rewrite Herr. }
  destruct (merge_result_first unknown_value fields r Herr) as [_ Hm].
  set (a := merge_result unknown_value fields (initial unknown_value fields) (Some r)) in *.
  unfold merge_result at 1. rewrite Hf.
  rewrite bool_decide_eq_false_2 by (rewrite Herr; by intros [? ?]).
  apply merge_fields_fixed. intros field Hin. left.
  rewrite Hm. by rewrite bool_decide_eq_true_2.
Qed.

Section Merged.
Context {W : Type}.
Variable backend : W -> string -> list string -> backend_outcome * W.
Variable repr : json -> string.

(** X15: the record merged from a single chunk result that reports no error
    is that result restricted to the requested fields, completed with the
    sentinel: a list it brings is handed on as it is, duplicates included,
    and the dedup backend is not called. *)
Theorem merge_results_single settings r fields unknown_value (w : W) field :
  r !! "error" = None ->
  let out := merge_results backend repr settings [Some r] fields unknown_value w in
  out.2 = w /\
  out.1 !! field
  = if bool_decide (field ∈ fields)
    then Some (to_json (default (Scalar (or_str unknown_value (UNKNOWN_VALUE settings)))
                                (r !! field)))
    else None.
Proof.
  intros Herr. simpl. unfold merge_results, merge_loop. cbn [fold_left].
  destruct (merge_result_first (or_str unknown_value (UNKNOWN_VALUE settings)) fields r Herr)
    as [Hl Hm].
  unfold post_process. rewrite Hl. simpl. split; [done |].
  rewrite lookup_fmap, Hm. by case_bool_decide.
Qed.

(** X16: feeding the merge the same chunk result several times in a row
    gives the record, and the backend calls, of feeding it once. *)
Theorem merge_results_repeated settings result n fields unknown_value (w : W) :
  merge_results backend repr settings (replicate (S n) result) fields unknown_value w
  = merge_results backend repr settings [result] fields unknown_value w.
Proof.
  unfold merge_results. f_equal. unfold merge_loop. cbn [replicate fold_left].
  induction n as [| n IH]; cbn [replicate fold_left]; [done |].
  by rewrite merge_result_again.
Qed.

(** *** When the dedup backend is called *)

Lemma unique_from_fallback kept (seen : gset string) items :
  seen = list_to_set kept ->
  fold_left (fun unique_items item =>
               if bool_decide (item ∈ unique_items) then unique_items
               else unique_items ++ [item]) items kept
  = (fold_left (fun (st : list string * gset string) x =>
                  let '(kept, seen) := st in
                  if bool_decide (x ∈ seen) then (kept, seen)
                  else (kept ++ [x], {[x]} ∪ seen))
               items (kept, seen)).1.
Proof.
  revert kept seen. induction items as [| x rest IH]; intros kept seen ->; simpl.
  - done.
  - assert (Hiff : x ∈ kept <-> x ∈ (list_to_set kept : gset string))
      by (by rewrite elem_of_list_to_set).
    rewrite (bool_decide_ext _ _ Hiff). case_bool_decide.
    + by apply IH.
    + apply IH. rewrite list_to_set_app_L. simpl.
      rewrite union_empty_r_L. apply (comm_L (∪)).
Qed.

Lemma unique_exact_dedup items : unique items = exact_dedup_first_seen items.
Proof.
  rewrite <- fallback_exact_dedup. unfold unique, fallback.
  by apply unique_from_fallback.
Qed.

(** X17: the dedup backend is called exactly when the list holds two
    different strings, and it is then handed the list with its repetitions;
    a list of at most one string, repeated or not, is reduced to its
    distinct strings with the world left as it was. *)
Theorem deduplicate_with_llm_backend_call items field_name (w : W) :
  if (length (exact_dedup_first_seen items) <=? 1)%nat
  then deduplicate_with_llm backend repr items field_name w
       = (JStr <$> exact_dedup_first_seen items, w)
  else (deduplicate_with_llm backend repr items field_name w).2
       = (backend w field_name items).2.
Proof.
  unfold deduplicate_with_llm.
  destruct items as [| x [| y rest]]; [done | done |].
  rewrite unique_exact_dedup.
  set (distinct := exact_dedup_first_seen (x :: y :: rest)).
  assert (Hpos : (1 <= length distinct)%nat) by (unfold distinct; simpl; lia).
  destruct (length distinct <=? 1)%nat eqn:Hle.
  - apply Nat.leb_le in Hle.
    replace (length distinct =? 1)%nat with true by (symmetry; apply Nat.eqb_eq; lia).
    done.
  - apply Nat.leb_gt in Hle.
    replace (length distinct =? 1)%nat with false by (symmetry; apply Nat.eqb_neq; lia).
    destruct (backend w field_name (x :: y :: rest)) as [[response | e] w']; [| done].
    by destruct (parse_response repr field_name (x :: y :: rest) response).
Qed.

End Merged.

Lemma merge_results_single_witness :
  ({[ "skills" := Items ["c"; "c"] ]} : gmap string FieldValue) !! "error" = None /\
  (merge_results unreachable_backend blank_repr default_settings
     [Some {[ "skills" := Items ["c"; "c"] ]}] ["skills"; "name"] None tt).1 !! "skills"
  = Some (JArr [JStr "c"; JStr "c"]).
Proof.
  split; [reflexivity |].
  exact (proj2 (merge_results_single unreachable_backend blank_repr default_settings
                  {[ "skills" := Items ["c"; "c"] ]} ["skills"; "name"] None tt "skills"
                  eq_refl)).
Defined.

End SingleChunkProps.

(** ** The executor outside its normal configuration, and the executor
    followed by the reconciler *)

Module ExecutorExtra.
Import Executor Merger MergerProps MergerExtra PyProps ExecutorProps.

Lemma fold_left_raise {A B} (f : A -> B -> pyresult A) (l : list B) e :
  fold_left (fun acc b => let* a := acc in f a b) l (Raise e) = Raise e.
Proof. induction l as [| b l IH]; simpl; [done | exact IH]. Qed.

Section Config.
Context {Chunk V : Type}.
Variable py_None : V.
Variable process_func : nat -> Chunk -> nat -> outcome V.
Variable as_completed : nat -> list (nat * outcome V) -> list (nat * outcome V).

(** X18: with a batch size that is not positive the executor processes
    nothing: a zero batch size (which takes a zero [BATCH_SIZE] setting)
    raises [ValueError], and a negative one returns the empty list, whatever
    the chunks. *)
Theorem process_chunks_parallel_nonpositive_batch settings (chunks : list Chunk)
    max_workers batch_size :
  or_int batch_size (BATCH_SIZE settings) <= 0 ->
  process_chunks_parallel py_None process_func as_completed settings chunks
    max_workers batch_size
  = if or_int batch_size (BATCH_SIZE settings) =? 0 then Raise ValueError else Ok [].
Proof.
  intros Hbs. unfold process_chunks_parallel.
  destruct (or_int batch_size (BATCH_SIZE settings) =? 0) eqn:E.
  - apply Z.eqb_eq in E. rewrite E. by rewrite range_zero_step.
  - apply Z.eqb_neq in E. rewrite range_backwards by lia. done.
Qed.

(** X19: with a positive batch size, a number of workers that is not
    positive and at least one chunk, the executor raises [ValueError] at the
    first batch. *)
Theorem process_chunks_parallel_nonpositive_workers settings (chunks : list Chunk)
    max_workers batch_size :
  or_int max_workers (MAX_THREADS settings) <= 0 ->
  0 < or_int batch_size (BATCH_SIZE settings) ->
  chunks <> [] ->
  process_chunks_parallel py_None process_func as_completed settings chunks
    max_workers batch_size = Raise ValueError.
Proof.
  intros Hw Hbs Hne. unfold process_chunks_parallel, Py.range.
  destruct (_ =? 0) eqn:E; [apply Z.eqb_eq in E; lia |]. cbn [Py.bind].
  assert (Hlen : (0 < length chunks)%nat) by (destruct chunks; [done | simpl; lia]).
  assert (Hpos : 1 <= Py.range_len 0 (Z.of_nat (length chunks))
                        (or_int batch_size (BATCH_SIZE settings))).
  { unfold Py.range_len.
    destruct (0 <? _) eqn:E1; [| apply Z.ltb_ge in E1; lia].
    destruct (0 <? Z.of_nat (length chunks)) eqn:E2; [| apply Z.ltb_ge in E2; lia].
    pose proof (Z.div_pos (Z.of_nat (length chunks) - 0 - 1)
                  (or_int batch_size (BATCH_SIZE settings))). lia. }
  destruct (Z.to_nat _) as [| k] eqn:Ek; [lia |].
  cbn [seq List.map fold_left Py.bind].
  unfold batch_step at 2.
  destruct (Z.min _ _ <=? 0) eqn:Emin; [apply fold_left_raise |].
  apply Z.leb_gt in Emin. lia.
Qed.

End Config.

Lemma process_chunks_parallel_nonpositive_batch_witness :
  process_chunks_parallel None failing_second last_first default_settings
    ["a"; "b"; "c"] None (Some (-2)) = Ok [].
Proof.
  apply (process_chunks_parallel_nonpositive_batch None failing_second last_first
           default_settings ["a"; "b"; "c"] None (Some (-2))).
  simpl. lia.
Defined.

Lemma process_chunks_parallel_nonpositive_workers_witness :
  process_chunks_parallel None failing_second last_first default_settings
    ["a"; "b"; "c"] (Some (-1)) None = Raise ValueError.
Proof.
  apply (process_chunks_parallel_nonpositive_workers None failing_second last_first
           default_settings ["a"; "b"; "c"] (Some (-1)) None); simpl; [lia | lia | done].
Defined.

Section Pipeline.
Context {Chunk W : Type}.
Variable process_func : nat -> Chunk -> nat -> outcome (option (gmap string FieldValue)).
Variable as_completed :
  nat -> list (nat * outcome (option (gmap string FieldValue)))
  -> list (nat * outcome (option (gmap string FieldValue))).
Hypothesis as_completed_perm : forall i futures, as_completed i futures ≡ₚ futures.
Variable backend : W -> string -> list string -> backend_outcome * W.
Variable repr : json -> string.

(** X20: when every call of the process function raises (a positive batch
    size and number of workers being given), the executor still returns, and
    the reconciler run on what it returns gives the record that holds the
    sentinel under every requested field, without calling the dedup
    backend. *)
Theorem all_calls_raise_gives_sentinels settings (chunks : list Chunk)
    max_workers batch_size fields unknown_value (w : W) field :
  0 < or_int max_workers (MAX_THREADS settings) ->
  0 < or_int batch_size (BATCH_SIZE settings) ->
  (forall p chunk idx, exists e, process_func p chunk idx = Raised e) ->
  exists chunk_results,
    process_chunks_parallel None process_func as_completed settings chunks
      max_workers batch_size = Ok chunk_results /\
    length chunk_results = length chunks /\
    let out := merge_results backend repr settings chunk_results fields unknown_value w in
    out.2 = w /\
    out.1 !! field
    = if bool_decide (field ∈ fields)
      then Some (JStr (or_str unknown_value (UNKNOWN_VALUE settings)))
      else None.
Proof.
  intros Hw Hbs Hraise. eexists.
  split; [by apply process_chunks_parallel_spec |].
  split; [apply length_imap |].
  cbn zeta. unfold merge_results. rewrite merge_loop_skipped.
  - unfold post_process. simpl. split; [done |].
    rewrite lookup_fmap.
    change (list_to_map _)
      with (merged (initial (or_str unknown_value (UNKNOWN_VALUE settings)) fields)).
    rewrite initial_lookup_total. by case_bool_decide.
  - apply Forall_forall. intros result Hin.
    apply list_elem_of_lookup in Hin as [p Hp].
    unfold in_submission_order in Hp. rewrite list_lookup_imap in Hp.
    destruct (chunks !! p) as [chunk |]; [| done]. simpl in Hp.
    destruct (Hraise p chunk
                (p mod Z.to_nat (or_int batch_size (BATCH_SIZE settings)))%nat)
      as [e He].
    rewrite He in Hp. simpl in Hp. injection Hp as <-. by left.
Qed.

End Pipeline.

(** A process function whose every call raises. *)
Definition always_raises (p : nat) (chunk : string) (idx : nat)
  : outcome (option (gmap string FieldValue)) := Raised BackendError.

Definition reversed (i : nat)
    (futures : list (nat * outcome (option (gmap string FieldValue)))) :=
  reverse futures.

Lemma all_calls_raise_gives_sentinels_witness :
  exists chunk_results,
    process_chunks_parallel None always_raises reversed default_settings
      ["a"; "b"; "c"] None (Some 2) = Ok chunk_results /\
    length chunk_results = 3%nat /\
    (merge_results unreachable_backend blank_repr default_settings chunk_results
       ["name"] None tt).2 = tt /\
    (merge_results unreachable_backend blank_repr default_settings chunk_results
       ["name"] None tt).1 !! "name" = Some (JStr "unknown").
Proof.
  apply (all_calls_raise_gives_sentinels always_raises reversed
           (fun _ futures => reverse_Permutation futures)
           unreachable_backend blank_repr default_settings ["a"; "b"; "c"]
           None (Some 2) ["name"] None tt "name").
  - simpl. lia.
  - simpl. lia.
  - intros p chunk idx. by exists BackendError.
Defined.

End ExecutorExtra.

(** ** The retry loop of the client *)

Module ClientProps.
Import Executor Client.

Section Retry.
Context {V : Type}.
Variable attempt : nat -> outcome V.

Definition raises (k : nat) : Prop := exists e, attempt k = Raised e.

Lemma retry_success max_retries n k j v :
  (forall i, (k <= i < k + j)%nat -> raises i) ->
  attempt (k + j)%nat = Returned v ->
  (j < n)%nat -> Z.of_nat (k + n) <= max_retries ->
  retry attempt max_retries n k = (Ok (Some v), S (k + j)).
Proof.
  revert n k. induction j as [| j IH]; intros n k Hfail Hok Hlt Hmax.
  - destruct n as [| n]; [lia |]. simpl. rewrite Nat.add_0_r in Hok.
    by rewrite Hok, Nat.add_0_r.
  - destruct n as [| n]; [lia |]. simpl.
    destruct (Hfail k ltac:(lia)) as [e ->].
    destruct (Z.of_nat k <? max_retries - 1) eqn:E; [| apply Z.ltb_ge in E; lia].
    replace (k + S j)%nat with (S k + j)%nat in * by lia.
    apply IH; [| done | lia | lia]. intros i Hi. apply Hfail. lia.
Qed.

Lemma retry_exhausted max_retries n k :
  (forall i, (k <= i < k + n)%nat -> raises i) ->
  (0 < n)%nat -> Z.of_nat (k + n) = max_retries ->
  retry attempt max_retries n k = (Raise BackendError, (k + n)%nat).
Proof.
  revert k. induction n as [| n IH]; intros k Hfail Hpos Hmax; [lia |].
  simpl. destruct (Hfail k ltac:(lia)) as [e ->].
  destruct n as [| n].
  - destruct (Z.of_nat k <? max_retries - 1) eqn:E; [apply Z.ltb_lt in E; lia |].
    f_equal. lia.
  - destruct (Z.of_nat k <? max_retries - 1) eqn:E; [| apply Z.ltb_ge in E; lia].
    rewrite IH; [f_equal; lia | | lia | lia].
    intros i Hi. apply Hfail. lia.
Qed.

(** X21: when the requests before the request number [j] raise and that one
    returns, with [j] below the number of retries, [extract_fields] returns
    what it returned, having made [j + 1] requests: no request follows a
    success. *)
Theorem extract_fields_first_success max_retries j v :
  (forall i, (i < j)%nat -> raises i) ->
  attempt j = Returned v ->
  Z.of_nat j < max_retries ->
  extract_fields attempt max_retries = (Ok (Some v), S j).
Proof.
  intros Hfail Hok Hlt. unfold extract_fields.
  apply (retry_success max_retries (Z.to_nat max_retries) 0 j v).
  - intros i Hi. apply Hfail. lia.
  - done.
  - lia.
  - lia.
Qed.

(** X22: when every request raises, [extract_fields] raises after exactly as
    many requests as the number of retries, provided this number is
    positive; with a number of retries that is not positive it makes no
    request and returns [None]. *)
Theorem extract_fields_exhausted max_retries :
  (forall i, Z.of_nat i < max_retries -> raises i) ->
  extract_fields attempt max_retries
  = if 0 <? max_retries then (Raise BackendError, Z.to_nat max_retries)
    else (Ok None, 0%nat).
Proof.
  intros Hfail. unfold extract_fields.
  destruct (0 <? max_retries) eqn:E.
  - apply Z.ltb_lt in E.
    apply (retry_exhausted max_retries (Z.to_nat max_retries) 0).
    + intros i Hi. apply Hfail. lia.
    + lia.
    + lia.
  - apply Z.ltb_ge in E.
    replace (Z.to_nat max_retries) with 0%nat by lia. done.
Qed.

End Retry.

(** A backend that answers at the third request. *)
Definition third_time (k : nat) : outcome string :=
  if (k =? 2)%nat then Returned "answer" else Raised BackendError.

Lemma extract_fields_first_success_witness :
  extract_fields third_time 3 = (Ok (Some "answer"), 3%nat).
Proof.
  apply (extract_fields_first_success third_time 3 2 "answer").
  - intros i Hi. exists BackendError.
    destruct i as [| [| i]]; [reflexivity | reflexivity | lia].
  - reflexivity.
  - lia.
Defined.

Lemma extract_fields_exhausted_witness :
  extract_fields third_time 2 = (Raise BackendError, 2%nat).
Proof.
  apply (extract_fields_exhausted third_time 2).
  intros i Hi. exists BackendError.
  destruct i as [| [| i]]; [reflexivity | reflexivity | lia].
Defined.

End ClientProps.

(** ** The normalizer as a whole *)

Module NormalizerProps.
Import Merger Validators Validators.Dates Normalizer DateMerge.
Import MergerProps DedupProps MergerExtra ValidatorsProps.

Lemma normalize_date_ok settings platform date_str date_format :
  exists normalized,
    normalize_date settings platform date_str date_format = Ok normalized.
Proof.
  unfold normalize_date.
  destruct (first_parsed_spec date_str formats)
    as [(before & fmt & after & d & _ & _ & _ & ->) | [_ ->]]; simpl; eauto.
Qed.

Section Dates.
Variable settings : Settings.
Variable platform : date -> string -> string.

(** The fields [normalize_dates] goes through. *)
Definition selected (keys : list string) (date_fields : option (list string))
  : list string :=
  match date_fields with
  | None => List.filter (fun field => Py.contains "date" (Py.lower field)) keys
  | Some l => l
  end.

(** What an iteration of [normalize_dates] makes of a text. *)
Definition normalized_text (date_format : string) (s : string) : string :=
  if String.eqb s (UNKNOWN_VALUE settings) then s
  else match normalize_date settings platform s (Some date_format) with
       | Ok normalized => normalized
       | Raise _ => s
       end.

Definition normalized_value (date_format : string) (v : json) : json :=
  match v with
  | JStr s => JStr (normalized_text date_format s)
  | _ => v
  end.

Lemma normalize_dates_step_text date_format (m : gmap string json) field :
  (forall v, m !! field = Some v -> is_str v = true) ->
  normalize_dates_step settings platform date_format m field
  = Ok (alter (normalized_value date_format) field m).
Proof.
  intros Htext. unfold normalize_dates_step.
  destruct (m !! field) as [v |] eqn:Hv.
  - specialize (Htext v eq_refl). destruct v as [| | | s | |]; try done.
    assert (Halter : forall t, alter (normalized_value date_format) field m
                               = <[field := JStr t]> m <->
                               normalized_text date_format s = t).
    { intros t. split.
      - intros Heq. apply (f_equal (fun m => m !! field)) in Heq.
        rewrite lookup_alter_eq, Hv, lookup_insert_eq in Heq. simpl in Heq. congruence.
      - intros <-. apply map_eq. intros field'.
        destruct (decide (field = field')) as [<- | Hne].
        + by rewrite lookup_alter_eq, Hv, lookup_insert_eq.
        + by rewrite lookup_alter_ne, lookup_insert_ne. }
    simpl. unfold normalized_text in Halter.
    destruct (String.eqb s (UNKNOWN_VALUE settings)) eqn:E.
    + f_equal. rewrite <- (insert_id m field (JStr s)) at 1 by done.
      symmetry. by apply Halter.
    + destruct (normalize_date_ok settings platform s (Some date_format)) as [t Ht].
      rewrite Ht in *. simpl. f_equal. symmetry. by apply Halter.
  - f_equal. apply map_eq. intros field'.
    destruct (decide (field = field')) as [<- | Hne].
    + by rewrite lookup_alter_eq, Hv.
    + by rewrite lookup_alter_ne.
Qed.

Lemma normalize_dates_step_raises date_format (m : gmap string json) field v :
  m !! field = Some v -> is_str v = false ->
  normalize_dates_step settings platform date_format m field = Raise TypeError.
Proof.
  intros Hv Hnot. unfold normalize_dates_step. rewrite Hv.
  by destruct v.
Qed.

(** A step returns, or raises [TypeError] and nothing else. *)
Lemma normalize_dates_step_cases date_format (m : gmap string json) field :
  normalize_dates_step settings platform date_format m field = Raise TypeError \/
  normalize_dates_step settings platform date_format m field
  = Ok (alter (normalized_value date_format) field m).
Proof.
  destruct (m !! field) as [v |] eqn:Hv.
  - destruct (is_str v) eqn:Hs.
    + right. apply normalize_dates_step_text. intros v'. rewrite Hv. congruence.
    + left. by eapply normalize_dates_step_raises.
  - right. apply normalize_dates_step_text. intros v'. rewrite Hv. congruence.
Qed.

Lemma lookup_normalized_value date_format (m : gmap string json) field field' v :
  is_str v = false ->
  m !! field = Some v ->
  alter (normalized_value date_format) field' m !! field = Some v.
Proof.
  intros Hnot Hv. destruct (decide (field' = field)) as [-> | Hne].
  - rewrite lookup_alter_eq, Hv. by destruct v.
  - by rewrite lookup_alter_ne.
Qed.

Lemma fold_raises date_format fields (m : gmap string json) field v :
  field ∈ fields -> m !! field = Some v -> is_str v = false ->
  fold_py (normalize_dates_step settings platform date_format) fields m = Raise TypeError.
Proof.
  unfold fold_py. revert m.
  induction fields as [| field' rest IH]; intros m Hin Hv Hnot.
  - by apply elem_of_nil in Hin.
  - cbn [fold_left Py.bind].
    destruct (normalize_dates_step_cases date_format m field') as [-> | Hok].
    { apply ExecutorExtra.fold_left_raise. }
    rewrite Hok. apply elem_of_cons in Hin as [-> | Hin].
    + exfalso. rewrite (normalize_dates_step_raises date_format m field' v) in Hok; done.
    + apply IH; [done | | done]. by apply lookup_normalized_value.
Qed.

Lemma fold_text date_format fields (m : gmap string json) :
  (forall field v, field ∈ fields -> m !! field = Some v -> is_str v = true) ->
  fold_py (normalize_dates_step settings platform date_format) fields m
  = Ok (fold_left (fun m field => alter (normalized_value date_format) field m) fields m).
Proof.
  unfold fold_py. revert m. induction fields as [| field rest IH]; intros m Htext.
  - done.
  - cbn [fold_left Py.bind]. rewrite normalize_dates_step_text.
    + apply IH. intros field' v Hin.
      destruct (decide (field = field')) as [<- | Hne].
      * rewrite lookup_alter_eq.
        destruct (m !! field) as [v0 |] eqn:Hv0; [| done]. simpl. intros [= <-].
        pose proof (Htext field v0 (list_elem_of_here _ _) Hv0) as Hs.
        by destruct v0.
      * rewrite lookup_alter_ne by done. apply Htext. by apply list_elem_of_further.
    + intros v. apply Htext, list_elem_of_here.
Qed.

Lemma fold_alter_dom (g : json -> json) fields (m : gmap string json) :
  dom (fold_left (fun m field => alter g field m) fields m) = dom m.
Proof.
  revert m. induction fields as [| field rest IH]; intros m; simpl; [done |].
  by rewrite IH, dom_alter_L.
Qed.

Lemma fold_alter_other (g : json -> json) fields (m : gmap string json) field :
  field ∉ fields ->
  fold_left (fun m field => alter g field m) fields m !! field = m !! field.
Proof.
  revert m. induction fields as [| field' rest IH]; intros m Hnot; simpl; [done |].
  apply not_elem_of_cons in Hnot as [Hne Hnot].
  rewrite IH by done. by rewrite lookup_alter_ne.
Qed.

Lemma fold_alter_once (g : json -> json) fields (m : gmap string json) field :
  NoDup fields -> field ∈ fields ->
  fold_left (fun m field => alter g field m) fields m !! field = g <$> m !! field.
Proof.
  revert m. induction fields as [| field' rest IH]; intros m Hnd Hin; simpl.
  - by apply elem_of_nil in Hin.
  - apply NoDup_cons in Hnd as [Hnot Hnd].
    apply elem_of_cons in Hin as [-> | Hin].
    + rewrite fold_alter_other by done. by rewrite lookup_alter_eq.
    + rewrite IH by done. rewrite lookup_alter_ne; [done |]. by intros ->.
Qed.

(** X23: [normalize_dates] raises [TypeError] as soon as one of the fields it
    goes through holds a value that is not a string, a list for instance:
    [normalize_date] hands the value to [strptime], and the [ValueError]
    that the loop catches is not what [strptime] raises then. *)
Theorem normalize_dates_raises_on_non_text keys (data : gmap string json)
    date_fields date_format field v :
  field ∈ selected keys date_fields ->
  data !! field = Some v -> is_str v = false ->
  normalize_dates settings platform keys data date_fields date_format = Raise TypeError.
Proof.
  intros Hin Hv Hnot. unfold normalize_dates. by eapply fold_raises.
Qed.

(** X24: when the fields it goes through hold strings, [normalize_dates]
    returns a dict with the keys of the data; the fields it does not go
    through keep their values; and, the fields being listed once each, a
    field it goes through holds its text normalised by [normalize_date], or
    its text unchanged when that is the configured sentinel. *)
Theorem normalize_dates_returns keys (data : gmap string json) date_fields date_format :
  (forall field v, field ∈ selected keys date_fields ->
                   data !! field = Some v -> is_str v = true) ->
  exists out,
    normalize_dates settings platform keys data date_fields date_format = Ok out /\
    dom out = dom data /\
    (forall field, field ∉ selected keys date_fields -> out !! field = data !! field) /\
    (NoDup (selected keys date_fields) ->
     forall field, field ∈ selected keys date_fields ->
       out !! field
       = normalized_value (or_str date_format (DATE_FORMAT settings)) <$> data !! field).
Proof.
  intros Htext. eexists. split.
  - unfold normalize_dates. by apply fold_text.
  - split; [apply fold_alter_dom |]. split.
    + intros field Hnot. by apply fold_alter_other.
    + intros Hnd field Hin. by apply fold_alter_once.
Qed.

(** X25: [validate_and_normalize] raises [TypeError] when a requested field
    that counts as a date field (it is among the date fields given, or none
    are given and its name contains [date]) holds a value that is not a
    string. *)
Theorem validate_and_normalize_raises_on_non_text keys (data : gmap string json)
    fields date_fields unknown_value date_format field v :
  field ∈ fields ->
  match date_fields with
  | Some l => field ∈ l
  | None => Py.contains "date" (Py.lower field) = true
  end ->
  data !! field = Some v -> is_str v = false ->
  validate_and_normalize settings platform keys data (Some fields) date_fields
    unknown_value date_format = Raise TypeError.
Proof.
  intros Hin Hdate Hv Hnot. unfold validate_and_normalize.
  destruct fields as [| field0 rest]; [by apply elem_of_nil in Hin |].
  unfold normalize_dates. apply (fold_raises _ _ _ field v); [| | done].
  - destruct date_fields as [l |]; [done |].
    apply list_elem_of_In, filter_In. split; [| done].
    by apply list_elem_of_In, elem_of_unique.
  - unfold validate_fields. rewrite validate_fields_lookup_from.
    rewrite bool_decide_eq_true_2 by done. by rewrite Hv.
Qed.

End Dates.

(** Two chunks that disagree on a field whose name makes it both a list
    field and a date field: the merged record holds a list under it. *)
Definition two_educations : list (option (gmap string FieldValue)) :=
  [Some {[ "education_date" := Scalar "2010" ]};
   Some {[ "education_date" := Scalar "2012" ]}].

Definition same_text (d : date) (fmt : string) : string := fmt.

Lemma normalize_dates_raises_on_non_text_witness :
  normalize_dates default_settings same_text ["when"]
    {[ "when" := JArr [JStr "2010"; JStr "2012"] ]} (Some ["when"]) None
  = Raise TypeError.
Proof.
  apply (normalize_dates_raises_on_non_text default_settings same_text ["when"]
           {[ "when" := JArr [JStr "2010"; JStr "2012"] ]} (Some ["when"]) None
           "when" (JArr [JStr "2010"; JStr "2012"])).
  - apply list_elem_of_In. simpl. auto.
  - reflexivity.
  - reflexivity.
Defined.

Lemma normalize_dates_returns_witness :
  exists out,
    normalize_dates default_settings same_text ["born"; "name"]
      {[ "born" := JStr "Feb 9, 1949"; "name" := JStr "Ann" ]} (Some ["born"]) None
    = Ok out /\
    dom out = dom ({[ "born" := JStr "Feb 9, 1949"; "name" := JStr "Ann" ]}
                   : gmap string json) /\
    (forall field, field ∉ selected ["born"; "name"] (Some ["born"]) ->
       out !! field
       = ({[ "born" := JStr "Feb 9, 1949"; "name" := JStr "Ann" ]} : gmap string json)
           !! field) /\
    (NoDup (selected ["born"; "name"] (Some ["born"])) ->
     forall field, field ∈ selected ["born"; "name"] (Some ["born"]) ->
       out !! field
       = normalized_value default_settings same_text
           (or_str None (DATE_FORMAT default_settings))
         <$> ({[ "born" := JStr "Feb 9, 1949"; "name" := JStr "Ann" ]}
              : gmap string json) !! field).
Proof.
  apply (normalize_dates_returns default_settings same_text ["born"; "name"]
           {[ "born" := JStr "Feb 9, 1949"; "name" := JStr "Ann" ]} (Some ["born"]) None).
  intros field v Hin. simpl in Hin. apply list_elem_of_singleton in Hin as ->.
  intros [= <-]. reflexivity.
Defined.

Example normalize_dates_example :
  normalize_dates default_settings same_text ["born"; "name"]
    {[ "born" := JStr "Feb 9, 1949"; "name" := JStr "Ann" ]} (Some ["born"]) None
  = Ok {[ "born" := JStr "09/02/1949"; "name" := JStr "Ann" ]}.
Proof. reflexivity. Qed.

Lemma validate_and_normalize_raises_on_non_text_witness :
  (merge_results unreachable_backend blank_repr default_settings two_educations
     ["education_date"] None tt).1 !! "education_date"
    = Some (JArr [JStr "2010"; JStr "2012"]) /\
  validate_and_normalize default_settings same_text ["education_date"]
    (merge_results unreachable_backend blank_repr default_settings two_educations
       ["education_date"] None tt).1
    (Some ["education_date"]) None None None = Raise TypeError.
Proof.
  assert (H : (merge_results unreachable_backend blank_repr default_settings two_educations
                 ["education_date"] None tt).1 !! "education_date"
              = Some (JArr [JStr "2010"; JStr "2012"])) by reflexivity.
  split; [exact H |].
  apply (validate_and_normalize_raises_on_non_text default_settings same_text
           ["education_date"] _ ["education_date"] None None None "education_date"
           (JArr [JStr "2010"; JStr "2012"])).
  - apply list_elem_of_In. simpl. auto.
  - reflexivity.
  - exact H.
  - reflexivity.
Defined.

End NormalizerProps.

(** ** Normalising a normalised date *)

Module DateRoundTrip.
Import Validators.Dates ValidatorsProps.

#[local] Arguments String.append !_ _ / : simpl nomatch.

(** *** Digits *)

Lemma digit_char_spec n :
  Py.isdigit (digit_char n) = true /\ digit_value (digit_char n) = n mod 10.
Proof.
  unfold digit_char.
  assert (Hk : exists k, (k < 10)%nat /\ n mod 10 = Z.of_nat k).
  { exists (Z.to_nat (n mod 10)). pose proof (Z.mod_pos_bound n 10). lia. }
  destruct Hk as (k & Hk & ->). rewrite Nat2Z.id.
  do 10 (destruct k as [| k]; [by split |]). lia.
Qed.

Lemma four_digits_pad4 y rest :
  0 <= y <= 9999 -> four_digits (pad4 y +:+ rest) = Some (y, rest).
Proof.
  intros Hy. unfold pad4, pad2, four_digits. cbn [String.append].
  destruct (digit_char_spec (y / 1000)) as [-> ->].
  destruct (digit_char_spec (y / 100)) as [-> ->].
  destruct (digit_char_spec (y / 10)) as [-> ->].
  destruct (digit_char_spec y) as [-> ->]. cbn [andb]. do 2 f_equal.
  Z.div_mod_to_equations. lia.
Qed.

Lemma day_pad2 d rest :
  1 <= d <= 31 -> exists others, directive_matches Dd (pad2 d +:+ rest) = (d, rest) :: others.
Proof.
  intros Hd.
  assert (Hk : exists k, (k < 31)%nat /\ d = Z.of_nat (S k)).
  { exists (Z.to_nat (d - 1)). lia. }
  destruct Hk as (k & Hk & ->).
  do 31 (destruct k as [| k]; [eexists; reflexivity |]). lia.
Qed.

Lemma month_pad2 m rest :
  1 <= m <= 12 -> exists others, directive_matches Dm (pad2 m +:+ rest) = (m, rest) :: others.
Proof.
  intros Hm.
  assert (Hk : exists k, (k < 12)%nat /\ m = Z.of_nat (S k)).
  { exists (Z.to_nat (m - 1)). lia. }
  destruct Hk as (k & Hk & ->).
  do 12 (destruct k as [| k]; [eexists; reflexivity |]). lia.
Qed.

Lemma year_pad4 y rest g :
  0 <= y <= 9999 ->
  item_matches (Directive DY) (pad4 y +:+ rest) g = [(set_group DY y g, rest)].
Proof.
  intros Hy. unfold item_matches, directive_matches.
  change (omap (fun alternative => alternative (pad4 y +:+ rest)) [four_digits])
    with (match four_digits (pad4 y +:+ rest) with
          | Some x => [x]
          | None => []
          end).
  by rewrite four_digits_pad4.
Qed.

(** *** The first match *)

Lemma matches_first it items data g g1 rest1 others y :
  item_matches it data g = (g1, rest1) :: others ->
  head (matches items rest1 g1) = Some y ->
  head (matches (it :: items) data g) = Some y.
Proof.
  intros Hit Hrest. simpl. rewrite Hit. simpl.
  destruct (matches items rest1 g1); [done |]. exact Hrest.
Qed.

Lemma strptime_valid date_str fmt d :
  strptime date_str fmt = Ok d ->
  1 <= year d <= 9999 /\ 1 <= month d <= 12 /\ 1 <= day d <= days_in_month (year d) (month d).
Proof.
  unfold strptime. destruct (compile fmt) as [items |]; [| done].
  destruct (matches items date_str no_groups) as [| [g rest] others]; [done |].
  destruct (negb _); [done |].
  destruct (_ && _) eqn:E; [| done]. intros [= <-]. simpl. lia.
Qed.

Lemma days_in_month_le y m : days_in_month y m <= 31.
Proof.
  unfold days_in_month. repeat match goal with |- context [if ?b then _ else _] => destruct b end; lia.
Qed.

Definition day_first : string := "%d/%m/%Y".

(** A date written day first is read back by the first candidate format. *)
Lemma strptime_strftime platform d :
  1000 <= year d <= 9999 -> 1 <= month d <= 12 ->
  1 <= day d <= days_in_month (year d) (month d) ->
  strptime (strftime platform d day_first) day_first = Ok d.
Proof.
  intros Hy Hm Hd. pose proof (days_in_month_le (year d) (month d)) as Hle.
  unfold strptime. change (compile day_first)
    with (Some [Directive Dd; Literal "/"; Directive Dm; Literal "/"; Directive DY]).
  assert (Hwritten : strftime platform d day_first
            = pad2 (day d) +:+ String "/" (pad2 (month d) +:+ String "/" (pad4 (year d) +:+ ""))).
  { unfold day_first. simpl.
    destruct (1000 <=? year d) eqn:E; [done | apply Z.leb_gt in E; lia]. }
  rewrite Hwritten.
  set (g := {| g_day := Some (day d); g_month := Some (month d); g_year := Some (year d) |}).
  assert (Hhead : head (matches [Directive Dd; Literal "/"; Directive Dm; Literal "/";
                                 Directive DY]
                          (pad2 (day d) +:+ String "/" (pad2 (month d) +:+
                             String "/" (pad4 (year d) +:+ ""))) no_groups)
                  = Some (g, "")).
  { destruct (day_pad2 (day d) (String "/" (pad2 (month d) +:+
                String "/" (pad4 (year d) +:+ ""))) ltac:(lia)) as [o1 H1].
    eapply matches_first.
    { unfold item_matches. rewrite H1. reflexivity. }
    eapply matches_first; [reflexivity |].
    destruct (month_pad2 (month d) (String "/" (pad4 (year d) +:+ "")) ltac:(lia))
      as [o2 H2].
    eapply matches_first.
    { unfold item_matches. rewrite H2. reflexivity. }
    eapply matches_first; [reflexivity |].
    eapply matches_first; [apply year_pad4; lia |].
    reflexivity. }
  destruct (matches _ _ no_groups) as [| [g' rest'] others]; [done |].
  simpl in Hhead. injection Hhead as -> ->. simpl.
  replace ((1 <=? year d) && (year d <=? 9999) && (1 <=? month d) && (month d <=? 12)
           && (1 <=? day d) && (day d <=? days_in_month (year d) (month d)))
    with true; [by destruct d |].
  symmetry. repeat (apply andb_true_intro; split); lia.
Qed.

(** X26: normalising to the format [dd/mm/YYYY] is idempotent on the dates
    from the year 1000 on: [normalize_date] returns, and run on its result it
    returns this result again.  (A text no candidate format parses comes back
    as it is, both times.) *)
Theorem normalize_date_idempotent settings platform date_str date_format :
  py_format_of (or_str date_format (DATE_FORMAT settings)) = day_first ->
  (forall d, first_parsed date_str formats = Ok (Some d) -> 1000 <= year d) ->
  exists normalized,
    normalize_date settings platform date_str date_format = Ok normalized /\
    normalize_date settings platform normalized date_format = Ok normalized.
Proof.
  intros Hfmt Hyear. unfold normalize_date. rewrite Hfmt.
  destruct (first_parsed_spec date_str formats)
    as [(before & fmt & after & d & _ & _ & Hparse & Hfirst) | [_ Hnone]].
  - rewrite Hfirst. cbn [Py.bind]. eexists. split; [done |].
    apply strptime_valid in Hparse as (Hy & Hm & Hd).
    specialize (Hyear d Hfirst).
    assert (Hagain : first_parsed (strftime platform d day_first) formats = Ok (Some d)).
    { change formats with (day_first :: tail formats). cbn [first_parsed].
      by rewrite strptime_strftime by lia. }
    by rewrite Hagain.
  - rewrite Hnone. cbn [Py.bind]. eexists. split; [done |]. by rewrite Hnone.
Qed.

Definition zero_padded (d : date) (fmt : string) : string := "0000".

Lemma normalize_date_idempotent_witness :
  exists normalized,
    normalize_date default_settings zero_padded "Feb 9, 1949" None = Ok normalized /\
    normalize_date default_settings zero_padded normalized None = Ok normalized.
Proof.
  apply (normalize_date_idempotent default_settings zero_padded "Feb 9, 1949" None).
  - reflexivity.
  - intros d Hd. vm_compute in Hd. injection Hd as <-. simpl. lia.
Defined.

End DateRoundTrip.

(** ** Merging of date fields *)

Module DateMergeProps.
Import Merger DateMerge MergerProps MergerExtra.

(** The value kept when the accumulator [current] meets the candidate
    [value]: the first candidate replaces the sentinel, and a later one
    replaces the accumulator when it is strictly more complete. *)
Definition keep (unknown_value current value : string) : string :=
  if bool_decide (current = unknown_value) then value
  else if _date_completeness_score current <? _date_completeness_score value then value
  else current.

(** The candidate a chunk result brings for a field: its value when it is a
    text other than the sentinel. *)
Definition candidate (unknown_value field : string)
    (result : option (gmap string FieldValue)) : option string :=
  match result with
  | Some r =>
      match r !! field with
      | Some (Scalar s) => if bool_decide (s = unknown_value) then None else Some s
      | _ => None
      end
  | None => None
  end.

Definition candidates (unknown_value field : string)
    (chunk_results : list (option (gmap string FieldValue))) : list string :=
  omap (candidate unknown_value field) chunk_results.

Definition keep_opt (unknown_value current : string) (c : option string) : string :=
  match c with
  | Some value => keep unknown_value current value
  | None => current
  end.

Definition all_text (m : gmap string FieldValue) : Prop :=
  forall field v, m !! field = Some v -> exists s, v = Scalar s.

Definition text_only (result : option (gmap string FieldValue)) : Prop :=
  forall r, result = Some r -> all_text r.

(** *** The first maximum *)

Lemma keep_first_max unknown_value current l :
  current <> unknown_value -> Forall (fun c => c <> unknown_value) l ->
  exists before best after,
    current :: l = before ++ best :: after /\
    fold_left (keep unknown_value) l current = best /\
    Forall (fun c => _date_completeness_score c < _date_completeness_score best) before /\
    Forall (fun c => _date_completeness_score c <= _date_completeness_score best) after.
Proof.
  intros Hcur. induction l as [| value l IH] using rev_ind; intros Hall.
  - exists [], current, []. simpl. by repeat split.
  - apply Forall_app in Hall as [Hall Hvalue].
    destruct (IH Hall) as (before & best & after & Hsplit & Hfold & Hbefore & Hafter).
    rewrite fold_left_app. cbn [fold_left]. rewrite Hfold. unfold keep.
    assert (Hbest : best <> unknown_value).
    { assert (Hin : best ∈ current :: l).
      { rewrite Hsplit. apply elem_of_app. right. apply list_elem_of_here. }
      apply elem_of_cons in Hin as [-> | Hin]; [done |].
      rewrite Forall_forall in Hall. by apply Hall. }
    rewrite bool_decide_eq_false_2 by done.
    destruct (_ <? _) eqn:E; [apply Z.ltb_lt in E | apply Z.ltb_ge in E].
    + exists (before ++ best :: after), value, []. repeat split.
      * rewrite app_comm_cons, Hsplit. done.
      * apply Forall_app. split.
        -- eapply Forall_impl; [exact Hbefore |]. simpl. lia.
        -- apply Forall_cons. split; [done |].
           eapply Forall_impl; [exact Hafter |]. simpl. lia.
      * done.
    + exists before, best, (after ++ [value]). repeat split.
      * rewrite app_comm_cons, Hsplit. by rewrite <- app_assoc.
      * done.
      * apply Forall_app. split; [done |]. apply Forall_singleton. lia.
Qed.

Lemma candidates_not_sentinel unknown_value field chunk_results :
  Forall (fun c => c <> unknown_value) (candidates unknown_value field chunk_results).
Proof.
  apply Forall_forall. intros c Hc. unfold candidates in Hc.
  apply list_elem_of_omap in Hc as (result & _ & Hc). unfold candidate in Hc.
  destruct result as [r |]; [| done].
  destruct (r !! field) as [[s | l] |]; try done.
  case_bool_decide; [done |]. by injection Hc as <-.
Qed.

Lemma keep_again unknown_value current value :
  value <> unknown_value ->
  keep unknown_value (keep unknown_value current value) value
  = keep unknown_value current value.
Proof.
  intros Hv. unfold keep.
  destruct (decide (current = unknown_value)) as [-> | Hcur].
  - rewrite (bool_decide_eq_true_2 (unknown_value = unknown_value)) by done.
    rewrite bool_decide_eq_false_2 by done. by rewrite Z.ltb_irrefl.
  - rewrite (bool_decide_eq_false_2 (current = unknown_value)) by done.
    destruct (_ <? _) eqn:E.
    + rewrite bool_decide_eq_false_2 by done. by rewrite Z.ltb_irrefl.
    + rewrite bool_decide_eq_false_2 by done. by rewrite E.
Qed.

(** *** One step, one chunk result, all of them *)

Section Steps.
Variable unknown_value : string.

(** A step on texts returns, and moves the accumulator of its field as
    [keep] says. *)
Lemma merge_date_field_text r m field :
  all_text r -> all_text m ->
  exists m',
    merge_date_field unknown_value r m field = Ok m' /\
    all_text m' /\
    (forall field', field' <> field -> m' !! field' = m !! field') /\
    (forall current, m !! field = Some (Scalar current) ->
       m' !! field
       = Some (Scalar (keep_opt unknown_value current
                         (candidate unknown_value field (Some r))))).
Proof.
  intros Hr Hm. unfold merge_date_field, candidate.
  assert (Hsame : all_text m /\ (forall field', field' <> field -> m !! field' = m !! field'))
    by done.
  assert (Hins : forall s, all_text (<[field := Scalar s]> m) /\
            (forall field', field' <> field ->
               <[field := Scalar s]> m !! field' = m !! field') /\
            <[field := Scalar s]> m !! field = Some (Scalar s)).
  { intros s. split; [| split].
    - intros field' v. destruct (decide (field = field')) as [<- | Hne].
      + rewrite lookup_insert_eq. intros [= <-]. eauto.
      + rewrite lookup_insert_ne by done. apply Hm.
    - intros field' Hne. by rewrite lookup_insert_ne.
    - by rewrite lookup_insert_eq. }
  destruct (r !! field) as [value |] eqn:Hv.
  2: { exists m. split; [done |]. split; [done |]. split; [done |]. by intros current ->. }
  destruct (Hr _ _ Hv) as [v ->].
  destruct (m !! field) as [current |] eqn:Hcur.
  2: { exists m. split; [done |]. split; [done |]. split; [done |]. by rewrite Hcur. }
  destruct (Hm _ _ Hcur) as [c ->].
  destruct (decide (v = unknown_value)) as [-> | Hvu].
  { rewrite !bool_decide_eq_true_2 by done.
    exists m. split; [done |]. split; [done |]. split; [done |].
    rewrite Hcur. by intros current [= <-]. }
  rewrite (bool_decide_eq_false_2 (Scalar v = _)) by congruence.
  rewrite (bool_decide_eq_false_2 (v = _)) by done.
  unfold keep_opt, keep, _normalize_date, completeness. cbn [Py.bind].
  destruct (decide (c = unknown_value)) as [-> | Hcu].
  { rewrite !bool_decide_eq_true_2 by done.
    destruct (Hins v) as (H1 & H2 & H3).
    eexists. split; [done |]. split; [done |]. split; [done |].
    intros current [= <-]. by rewrite bool_decide_eq_true_2. }
  rewrite (bool_decide_eq_false_2 (Scalar c = _)) by congruence.
  destruct (decide (c = v)) as [-> | Hcv].
  { rewrite bool_decide_eq_true_2 by done.
    exists m. split; [done |]. split; [done |]. split; [done |].
    rewrite Hcur. intros current [= <-].
    rewrite bool_decide_eq_false_2 by done. by rewrite Z.ltb_irrefl. }
  rewrite (bool_decide_eq_false_2 (Scalar c = Scalar v)) by congruence.
  rewrite (bool_decide_eq_false_2 (Scalar v = Scalar c)) by congruence.
  destruct (_date_completeness_score c <? _date_completeness_score v) eqn:E.
  - destruct (Hins v) as (H1 & H2 & H3).
    eexists. split; [done |]. split; [done |]. split; [done |].
    intros current [= <-]. rewrite bool_decide_eq_false_2 by done. by rewrite E.
  - exists m. split; [done |]. split; [done |]. split; [done |].
    rewrite Hcur. intros current [= <-].
    rewrite bool_decide_eq_false_2 by done. by rewrite E.
Qed.

Lemma merge_date_fields_text r date_fields m field current :
  all_text r -> all_text m -> m !! field = Some (Scalar current) ->
  exists m',
    fold_py (merge_date_field unknown_value r) date_fields m = Ok m' /\
    all_text m' /\
    m' !! field
    = Some (Scalar (if bool_decide (field ∈ date_fields)
                    then keep_opt unknown_value current
                           (candidate unknown_value field (Some r))
                    else current)).
Proof.
  intros Hr. unfold fold_py. revert m current.
  induction date_fields as [| field' rest IH]; intros m current Hm Hcur.
  - exists m. by repeat split.
  - cbn [fold_left Py.bind].
    destruct (merge_date_field_text r m field' Hr Hm) as (m1 & -> & Hm1 & Hother & Hsame).
    destruct (decide (field' = field)) as [-> | Hne].
    + destruct (IH m1 _ Hm1 (Hsame _ Hcur)) as (m' & -> & Hm' & Hlook).
      exists m'. split; [done |]. split; [done |]. rewrite Hlook.
      rewrite (bool_decide_eq_true_2 (field ∈ field :: rest)) by apply list_elem_of_here.
      do 2 f_equal. case_bool_decide; [| done].
      destruct (candidate unknown_value field (Some r)) as [value |] eqn:Hc; [| done].
      simpl. apply keep_again.
      unfold candidate in Hc. destruct (r !! field) as [[s | l] |]; try done.
      case_bool_decide; congruence.
    + assert (Hcur1 : m1 !! field = Some (Scalar current)).
      { rewrite Hother; [done | by intros ->]. }
      destruct (IH m1 _ Hm1 Hcur1) as (m' & -> & Hm' & Hlook).
      exists m'. split; [done |]. split; [done |]. rewrite Hlook.
      assert (Hiff : field ∈ field' :: rest <-> field ∈ rest).
      { rewrite elem_of_cons. naive_solver. }
      by rewrite (bool_decide_ext _ _ Hiff).
Qed.

Lemma merge_date_result_text date_fields m result field current :
  text_only result -> all_text m -> field ∈ date_fields ->
  m !! field = Some (Scalar current) ->
  exists m',
    merge_date_result unknown_value date_fields m result = Ok m' /\
    all_text m' /\
    m' !! field
    = Some (Scalar (keep_opt unknown_value current (candidate unknown_value field result))).
Proof.
  intros Hr Hm Hin Hcur. unfold merge_date_result.
  destruct result as [r |]; [| by exists m].
  unfold falsy. case_bool_decide as Hempty.
  - exists m. split; [done |]. split; [done |]. subst r.
    unfold candidate. by rewrite lookup_empty.
  - destruct (merge_date_fields_text r date_fields m field current (Hr r eq_refl) Hm Hcur)
      as (m' & -> & Hm' & Hlook).
    exists m'. split; [done |]. split; [done |].
    by rewrite Hlook, bool_decide_eq_true_2.
Qed.

Lemma merge_date_loop_text date_fields chunk_results m field current :
  Forall text_only chunk_results -> all_text m -> field ∈ date_fields ->
  m !! field = Some (Scalar current) ->
  exists m',
    fold_py (merge_date_result unknown_value date_fields) chunk_results m = Ok m' /\
    m' !! field
    = Some (Scalar (fold_left (keep_opt unknown_value)
                      (candidate unknown_value field <$> chunk_results) current)).
Proof.
  intros Hall Hm Hin. unfold fold_py. revert m current Hm.
  induction chunk_results as [| result rest IH]; intros m current Hm Hcur.
  - by exists m.
  - apply Forall_cons in Hall as [Hr Hall]. cbn [fold_left Py.bind fmap list_fmap].
    destruct (merge_date_result_text date_fields m result field current Hr Hm Hin Hcur)
      as (m1 & -> & Hm1 & Hlook).
    destruct (IH Hall m1 _ Hm1 Hlook) as (m' & -> & Hfinal).
    by exists m'.
Qed.

Lemma fold_keep_opt field chunk_results current :
  fold_left (keep_opt unknown_value) (candidate unknown_value field <$> chunk_results)
    current
  = fold_left (keep unknown_value) (candidates unknown_value field chunk_results) current.
Proof.
  unfold candidates. revert current.
  induction chunk_results as [| result rest IH]; intros current; [done |].
  rewrite fmap_cons. cbn [fold_left omap list_omap].
  destruct (candidate unknown_value field result) as [value |]; simpl; apply IH.
Qed.

End Steps.

Lemma initial_all_text unknown_value fields :
  all_text (merged (initial unknown_value fields)).
Proof.
  intros field v. rewrite initial_lookup_total.
  case_bool_decide; [| done]. intros [= <-]. eauto.
Qed.

(** X27: on chunk results whose values are texts, [merge_date_fields]
    returns, and gives a requested date field the first of its candidates
    that no other candidate beats in completeness, the candidates of a field
    being the values other than the sentinel that the chunk results hold
    under it, in order; without a candidate the field keeps the sentinel.
    (The score of the format is never consulted.) *)
Theorem merge_date_fields_first_most_complete settings chunk_results date_fields
    unknown_value field :
  Forall text_only chunk_results -> field ∈ date_fields ->
  let u := or_str unknown_value (UNKNOWN_VALUE settings) in
  exists out,
    merge_date_fields settings chunk_results date_fields unknown_value = Ok out /\
    match candidates u field chunk_results with
    | [] => out !! field = Some (Scalar u)
    | _ :: _ =>
        exists before best after,
          candidates u field chunk_results = before ++ best :: after /\
          out !! field = Some (Scalar best) /\
          Forall (fun c => _date_completeness_score c < _date_completeness_score best)
                 before /\
          Forall (fun c => _date_completeness_score c <= _date_completeness_score best)
                 after
    end.
Proof.
  intros Hall Hin u. unfold merge_date_fields. fold u.
  destruct (merge_date_loop_text u date_fields chunk_results
              (merged (initial u date_fields)) field u Hall
              (initial_all_text u date_fields) Hin (initial_lookup u date_fields field Hin))
    as (out & -> & Hout).
  exists out. split; [done |].
  rewrite fold_keep_opt in Hout.
  pose proof (candidates_not_sentinel u field chunk_results) as Hne.
  destruct (candidates u field chunk_results) as [| first others]; [done |].
  apply Forall_cons in Hne as [Hfirst Hothers].
  destruct (keep_first_max u first others Hfirst Hothers)
    as (before & best & after & Hsplit & Hfold & Hbefore & Hafter).
  exists before, best, after. split; [done |]. split; [| done].
  rewrite Hout. cbn [fold_left]. unfold keep at 2.
  rewrite bool_decide_eq_true_2 by done. by rewrite Hfold.
Qed.

Definition three_dates : list (option (gmap string FieldValue)) :=
  [Some {[ "born" := Scalar "1949" ]};
   Some {[ "born" := Scalar "09/02/1949" ]};
   Some {[ "born" := Scalar "1949-02-09" ]}].

Lemma merge_date_fields_first_most_complete_witness :
  exists out,
    merge_date_fields default_settings three_dates ["born"] None = Ok out /\
    exists before best after,
      ["1949"; "09/02/1949"; "1949-02-09"] = before ++ best :: after /\
      out !! "born" = Some (Scalar best) /\
      Forall (fun c => _date_completeness_score c < _date_completeness_score best) before /\
      Forall (fun c => _date_completeness_score c <= _date_completeness_score best) after.
Proof.
  apply (merge_date_fields_first_most_complete default_settings three_dates ["born"]
           None "born").
  - unfold three_dates. repeat (apply Forall_cons; split); try apply Forall_nil_2;
      intros r [= <-] field v Hv;
      apply lookup_singleton_Some in Hv as [_ <-]; eauto.
  - apply list_elem_of_here.
Defined.

Example merge_date_fields_example :
  merge_date_fields default_settings three_dates ["born"] None
  = Ok {[ "born" := Scalar "09/02/1949" ]}.
Proof. reflexivity. Qed.

End DateMergeProps.

(** ** The two embeddings of the reconciler agree on the data model *)

Module JsonMergerAgreement.
Import Merger MergerProps DedupProps.

(** A chunk result of the data model, read as a dict of JSON values. *)
Definition encode (r : gmap string FieldValue) : gmap string json := to_json <$> r.

Definition encode_result (result : option (gmap string FieldValue))
  : option (gmap string json) := encode <$> result.

Definition encode_acc (a : acc) : JsonMerger.acc :=
  {| JsonMerger.merged := to_json <$> merged a;
     JsonMerger.list_fields := list_fields a |}.

Lemma py_eq_texts l l' :
  JsonMerger.py_eq (JArr (JStr <$> l)) (JArr (JStr <$> l')) = bool_decide (l = l').
Proof.
  revert l'. induction l as [| s l IH]; intros [| t l']; try done.
  specialize (IH l'). cbn in IH |- *. rewrite IH.
  destruct (String.eqb_spec s t) as [-> | Hne]; simpl.
  - apply bool_decide_ext. split; [by intros -> | by intros [= ->]].
  - symmetry. apply bool_decide_eq_false_2. by intros [= ? _].
Qed.

Lemma py_eq_to_json x y :
  JsonMerger.py_eq (to_json x) (to_json y) = bool_decide (x = y).
Proof.
  destruct x as [s | l], y as [t | l'].
  - simpl. destruct (String.eqb_spec s t) as [-> | Hne].
    + by rewrite bool_decide_eq_true_2.
    + rewrite bool_decide_eq_false_2; [done | by intros [= ?]].
  - by rewrite bool_decide_eq_false_2.
  - by rewrite bool_decide_eq_false_2.
  - change (to_json (Items l)) with (JArr (JStr <$> l)).
    change (to_json (Items l')) with (JArr (JStr <$> l')).
    rewrite py_eq_texts. apply bool_decide_ext. split; [by intros -> | by intros [= ->]].
Qed.

Lemma as_list_to_json v : JsonMerger.as_list (to_json v) = JStr <$> as_list v.
Proof. by destruct v. Qed.

Lemma is_list_to_json v :
  JsonMerger.is_list (to_json v) = match v with Items _ => true | Scalar _ => false end.
Proof. by destruct v. Qed.

Section Agreement.
Variable repr : json -> string.

Lemma resolve_conflict_to_json field merged_value value :
  JsonMerger.resolve_conflict repr field (JStr merged_value) (JStr value)
  = JStr (resolve_conflict field merged_value value).
Proof.
  unfold JsonMerger.resolve_conflict, resolve_conflict. simpl.
  repeat match goal with |- context [if ?b then _ else _] => destruct b end; done.
Qed.

Lemma merge_field_agrees unknown_value r a field :
  JsonMerger.merge_field repr unknown_value (encode r) (encode_acc a) field
  = encode_acc (merge_field unknown_value r a field).
Proof.
  unfold JsonMerger.merge_field, merge_field, encode, encode_acc. cbn [JsonMerger.merged JsonMerger.list_fields].
  rewrite !lookup_fmap.
  destruct (r !! field) as [value |]; [| done].
  destruct (merged a !! field) as [current |]; [| done]. cbn [fmap option_fmap option_map].
  change (JStr unknown_value) with (to_json (Scalar unknown_value)).
  rewrite !py_eq_to_json.
  case_bool_decide; [done |].
  case_bool_decide; [cbn [merged list_fields]; by rewrite fmap_insert |].
  case_bool_decide; [done |].
  rewrite !is_list_to_json.
  destruct current as [current_str | l], value as [value_str | l']; cbn [orb].
  - destruct (_ || _); cbn [merged list_fields].
    + rewrite fmap_insert. do 2 f_equal. unfold JsonMerger.py_elem. cbn [existsb].
      rewrite py_eq_to_json, (bool_decide_eq_false_2 _ H1).
      rewrite bool_decide_eq_false_2; [done |].
      intros Hin%list_elem_of_singleton. congruence.
    + rewrite fmap_insert. do 2 f_equal. apply resolve_conflict_to_json.
  - cbn [merged list_fields]. rewrite fmap_insert, !as_list_to_json.
    cbn [to_json]. by rewrite fmap_app.
  - cbn [merged list_fields]. rewrite fmap_insert, !as_list_to_json.
    cbn [to_json]. by rewrite fmap_app.
  - cbn [merged list_fields]. rewrite fmap_insert, !as_list_to_json.
    cbn [to_json]. by rewrite fmap_app.
Qed.

Lemma falsy_encode result :
  JsonMerger.falsy (encode_result result) = falsy result.
Proof.
  destruct result as [r |]; [| done]. simpl. apply bool_decide_ext.
  unfold encode. apply fmap_empty_iff.
Qed.

Lemma merge_result_agrees unknown_value fields a result :
  JsonMerger.merge_result repr unknown_value fields (encode_acc a) (encode_result result)
  = encode_acc (merge_result unknown_value fields a result).
Proof.
  unfold JsonMerger.merge_result, merge_result.
  destruct result as [r |]; [| done].
  change (encode_result (Some r)) with (Some (encode r)). cbv iota beta.
  change (JsonMerger.falsy (Some (encode r)))
    with (JsonMerger.falsy (encode_result (Some r))).
  rewrite falsy_encode.
  destruct (falsy (Some r)); [done |].
  assert (Herr : is_Some (encode r !! "error") <-> is_Some (r !! "error")).
  { unfold encode. rewrite lookup_fmap. apply fmap_is_Some. }
  rewrite (bool_decide_ext _ _ Herr). case_bool_decide; [done |].
  revert a. induction fields as [| field rest IH]; intros a; simpl; [done |].
  by rewrite merge_field_agrees, IH.
Qed.

Lemma initial_agrees unknown_value fields :
  JsonMerger.initial unknown_value fields = encode_acc (initial unknown_value fields).
Proof.
  unfold JsonMerger.initial, initial, encode_acc. cbn [merged list_fields]. f_equal.
  rewrite <- list_to_map_fmap. f_equal. by rewrite <- list_fmap_compose.
Qed.

Lemma merge_loop_agrees unknown_value fields
    (chunk_results : list (option (gmap string FieldValue))) :
  JsonMerger.merge_loop repr unknown_value fields (encode_result <$> chunk_results)
  = encode_acc (merge_loop unknown_value fields chunk_results).
Proof.
  unfold JsonMerger.merge_loop, merge_loop. rewrite initial_agrees.
  generalize (initial unknown_value fields).
  induction chunk_results as [| result rest IH]; intros a; simpl; [done |].
  by rewrite merge_result_agrees, IH.
Qed.

Lemma py_elem_texts x l :
  JsonMerger.py_elem (JStr x) (JStr <$> l) = bool_decide (x ∈ l).
Proof.
  unfold JsonMerger.py_elem. induction l as [| y l IH].
  - by rewrite bool_decide_eq_false_2 by apply not_elem_of_nil.
  - rewrite fmap_cons. cbn [existsb]. rewrite IH.
    change (JsonMerger.py_eq (JStr y) (JStr x)) with (String.eqb y x).
    destruct (String.eqb_spec y x) as [-> | Hne]; cbn [orb].
    + by rewrite bool_decide_eq_true_2 by apply list_elem_of_here.
    + apply bool_decide_ext. rewrite elem_of_cons. naive_solver.
Qed.

Lemma unique_from_agrees items kept :
  fold_left (fun unique_items item =>
               if JsonMerger.py_elem item unique_items then unique_items
               else unique_items ++ [item])
            (JStr <$> items) (JStr <$> kept)
  = JStr <$> fold_left (fun unique_items item =>
                          if bool_decide (item ∈ unique_items) then unique_items
                          else unique_items ++ [item])
                       items kept.
Proof.
  revert kept. induction items as [| x rest IH]; intros kept; [done |].
  rewrite fmap_cons. cbn [fold_left]. rewrite py_elem_texts.
  case_bool_decide; [apply IH |].
  rewrite <- IH. f_equal. by rewrite fmap_app.
Qed.

Lemma unique_agrees items :
  JsonMerger.unique (JStr <$> items) = JStr <$> unique items.
Proof. exact (unique_from_agrees items []). Qed.

Lemma fallback_from_agrees items kept :
  fold_left (fun acc x =>
               let* kept := acc in
               if JsonMerger.hashable x
               then Ok (if JsonMerger.py_elem x kept then kept else kept ++ [x])
               else Raise TypeError)
            (JStr <$> items) (Ok (JStr <$> kept))
  = Ok (JStr <$> fold_left (fun unique_items item =>
                              if bool_decide (item ∈ unique_items) then unique_items
                              else unique_items ++ [item])
                           items kept).
Proof.
  revert kept. induction items as [| x rest IH]; intros kept; [done |].
  rewrite fmap_cons. cbn [fold_left Py.bind JsonMerger.hashable]. rewrite py_elem_texts.
  case_bool_decide; [apply IH |].
  rewrite <- IH. do 2 f_equal. by rewrite fmap_app.
Qed.

Lemma fallback_agrees items :
  JsonMerger.fallback (JStr <$> items) = Ok (JStr <$> fallback items).
Proof.
  rewrite fallback_exact_dedup, <- SingleChunkProps.unique_exact_dedup.
  exact (fallback_from_agrees items []).
Qed.

Lemma strings_or_fallback_agrees items response :
  JsonMerger.strings_or_fallback (JStr <$> items) response
  = Ok (strings_or_fallback items response).
Proof.
  unfold JsonMerger.strings_or_fallback, strings_or_fallback.
  destruct response as [| | | | l |]; try apply fallback_agrees.
  destruct (forallb is_str l); [done | apply fallback_agrees].
Qed.

Lemma parse_response_agrees field_name items response :
  JsonMerger.parse_response repr field_name (JStr <$> items) response
  = parse_response repr field_name items response.
Proof.
  unfold JsonMerger.parse_response, parse_response.
  destruct (py_in "deduplicated_items" response) as [[|] | e]; cbn [Py.bind]; [| | done].
  - destruct (py_getitem response "deduplicated_items") as [[| | | | l |] | e];
      cbn [Py.bind]; try done; apply fallback_agrees.
  - repeat match goal with
           | |- context [match ?x with _ => _ end] =>
               lazymatch x with
               | JsonMerger.strings_or_fallback _ _ => fail
               | _ => destruct x
               end
           end; try done; apply strings_or_fallback_agrees.
Qed.

Context {W : Type}.
Variable backend : W -> string -> list json -> backend_outcome * W.

(** The backend as the embedding on the data model sees it. *)
Definition on_texts (w : W) (field_name : string) (items : list string)
  : backend_outcome * W := backend w field_name (JStr <$> items).

Lemma deduplicate_with_llm_agrees items field_name (w : W) :
  JsonMerger.deduplicate_with_llm backend repr (JStr <$> items) field_name w
  = (Ok (deduplicate_with_llm on_texts repr items field_name w).1,
     (deduplicate_with_llm on_texts repr items field_name w).2).
Proof.
  unfold JsonMerger.deduplicate_with_llm, deduplicate_with_llm.
  destruct items as [| x [| y rest]]; [done | done |].
  change (JStr <$> x :: y :: rest) with (JStr x :: JStr y :: (JStr <$> rest)) at 1.
  cbv iota beta.
  change (JStr x :: JStr y :: (JStr <$> rest)) with (JStr <$> x :: y :: rest).
  rewrite unique_agrees, length_fmap.
  destruct (_ =? 1)%nat; [done |].
  unfold on_texts.
  destruct (backend w field_name (JStr <$> x :: y :: rest)) as [[response | e] w'].
  - rewrite parse_response_agrees.
    destruct (parse_response repr field_name (x :: y :: rest) response); [done |].
    by rewrite fallback_agrees.
  - by rewrite fallback_agrees.
Qed.

Lemma post_process_agrees a (w : W) :
  JsonMerger.post_process backend repr (encode_acc a) w
  = (Ok (post_process on_texts repr a w).1, (post_process on_texts repr a w).2).
Proof.
  unfold JsonMerger.post_process, post_process, encode_acc.
  cbn [JsonMerger.merged JsonMerger.list_fields].
  generalize (to_json <$> merged a) at 2 3 4. revert w.
  induction (list_fields a) as [| field rest IH]; intros w out; [done |].
  cbn [fold_left]. rewrite lookup_fmap.
  destruct (merged a !! field) as [[s | items] |]; cbn [fmap option_fmap option_map to_json];
    try apply IH.
  rewrite deduplicate_with_llm_agrees.
  destruct (deduplicate_with_llm on_texts repr items field w) as [deduplicated w'].
  apply IH.
Qed.

(** On chunk results of the data model the reconciler on JSON values returns
    the record, and leaves the world, of the reconciler on the data model. *)
Lemma merge_results_agrees settings (chunk_results : list (option (gmap string FieldValue)))
    fields unknown_value (w : W) :
  JsonMerger.merge_results backend repr settings (encode_result <$> chunk_results)
    fields unknown_value w
  = (Ok (merge_results on_texts repr settings chunk_results fields unknown_value w).1,
     (merge_results on_texts repr settings chunk_results fields unknown_value w).2).
Proof.
  unfold JsonMerger.merge_results, merge_results.
  rewrite merge_loop_agrees. apply post_process_agrees.
Qed.

End Agreement.

End JsonMergerAgreement.
